(** * GenomePlot: the genome layout engine of [genomePlot.js]

    A shallow embedding of the final revision of the engine (the class
    [Chromosome] and the functions [parseChromSizeFile],
    [parseCytobandIdeoFile], [stackChromosomes], [filterChromosome],
    [addBedData] and the dataset loop of [drawGenomePlot]), followed by the
    properties of the specification stated over it.

    Conventions.
    - Coordinates and the scale are integers ([Z]): the parsers read them
      with [parseInt] and the command line reads the scale with [parseInt].
      The quotient [x / dataScale] followed by [Math.round] is written with
      exact integer arithmetic, which is what the floating point computation
      gives for integers below 2^51.
    - A JavaScript array used as a sparse table of numbers ([data[label]])
      is the finite map of its integer-keyed own properties; its [length] is
      one more than the largest non-negative key.
    - A thrown [TypeError] is the result [None] of a function into [option].
    - The band objects of a chromosome live in a store, and the array
      [cytobands] and the field [centromere] hold references into it, so
      that a mutation through [centromere] is seen through [cytobands].
    - The chromosome objects of the process live in a heap; an array of
      chromosomes holds their addresses, and so does the index
      [chromosomes.map], which all the arrays share. *)

From Stdlib Require Import ZArith QArith Lia ZifyNat Ascii.
From stdpp Require Import base list strings gmap sorting.

Set Default Proof Using "Type".

(** ** JavaScript helpers *)

Module JS.

(** [Array.prototype.sort(cmp)]: the sort is stable, and for a consistent
    comparator the stable sorted arrangement is unique; it is computed
    here by insertion from the right, an element going before the first
    one it does not compare greater than. *)
Section Sort.
Context {A : Type} (cmp : A → A → Z).

Fixpoint sort_insert (x : A) (l : list A) : list A :=
  match l with
  | [] => [x]
  | y :: l' => if (0 <? cmp x y)%Z then y :: sort_insert x l'
               else x :: y :: l'
  end.

Fixpoint sort (l : list A) : list A :=
  match l with
  | [] => []
  | x :: l' => sort_insert x (sort l')
  end.

(** [a] may stand before [b]. *)
Definition before (a b : A) : Prop := (cmp a b ≤ 0)%Z.
End Sort.

(** White space of [String.prototype.trim] and of the class [\s], on the
    ASCII range. *)
Definition is_space (c : ascii) : bool := Ascii.is_space c.

Fixpoint trimStart (s : string) : string :=
  match s with
  | String c s' => if is_space c then trimStart s' else s
  | EmptyString => EmptyString
  end.

Definition trim (s : string) : string :=
  String.rev (trimStart (String.rev (trimStart s))).

(** [s.split(sep)] for a one-character separator: the pieces between the
    separators, the empty string giving one empty piece. *)
Fixpoint split_go (sep : ascii) (cur : string) (s : string) : list string :=
  match s with
  | EmptyString => [String.rev cur]
  | String c s' =>
      if Ascii.eqb c sep then String.rev cur :: split_go sep EmptyString s'
      else split_go sep (String c cur) s'
  end.

Definition split (sep : ascii) (s : string) : list string :=
  split_go sep EmptyString s.

(** [s.split(/\s+/)]: the pieces between the maximal runs of white
    space. [in_sep] tells that the previous character was white space. *)
Fixpoint split_ws_go (in_sep : bool) (cur : string) (s : string)
  : list string :=
  match s with
  | EmptyString => [String.rev cur]
  | String c s' =>
      if is_space c then
        if in_sep then split_ws_go true cur s'
        else String.rev cur :: split_ws_go true EmptyString s'
      else split_ws_go false (String c cur) s'
  end.

Definition split_ws (s : string) : list string :=
  split_ws_go false EmptyString s.

Definition digit_value (radix : Z) (c : ascii) : option Z :=
  let n := Z.of_N (Ascii.N_of_ascii c) in
  let v := if (48 <=? n)%Z && (n <=? 57)%Z then Some (n - 48)%Z
           else if (97 <=? n)%Z && (n <=? 122)%Z then Some (n - 87)%Z
           else if (65 <=? n)%Z && (n <=? 90)%Z then Some (n - 55)%Z
           else None in
  match v with
  | Some d => if (d <? radix)%Z then Some d else None
  | None => None
  end.

(** The longest prefix of digits of [s] in the given radix: its value and
    its number of digits, from the accumulator [acc]. *)
Fixpoint digits_prefix (radix : Z) (acc : Z) (count : nat) (s : string)
  : Z * nat :=
  match s with
  | EmptyString => (acc, count)
  | String c s' =>
      match digit_value radix c with
      | Some d => digits_prefix radix (acc * radix + d)%Z (S count) s'
      | None => (acc, count)
      end
  end.

Definition parse_digits (radix : Z) (s : string) : option Z :=
  match digits_prefix radix 0%Z 0 s with
  | (_, O) => None
  | (v, S _) => Some v
  end.

(** [parseInt(s)] without a radix; [None] is [NaN]. Leading white space is
    skipped, a sign is read, a prefix [0x] or [0X] selects radix 16, and
    the longest prefix of digits is the value. *)
Definition parseInt (s : string) : option Z :=
  let s := trimStart s in
  let '(sign, s) :=
    match s with
    | String "-"%char s' => ((-1)%Z, s')
    | String "+"%char s' => (1%Z, s')
    | _ => (1%Z, s)
    end in
  let '(radix, s) :=
    match s with
    | String "0"%char (String "x"%char s') => (16%Z, s')
    | String "0"%char (String "X"%char s') => (16%Z, s')
    | _ => (10%Z, s)
    end in
  match parse_digits radix s with
  | Some v => Some (sign * v)%Z
  | None => None
  end.

(** [parseInt(tokens[i])]: a missing token is [undefined], which reads as
    [NaN]. *)
Definition parseInt_at (tokens : list string) (i : nat) : option Z :=
  match tokens !! i with
  | Some t => parseInt t
  | None => None
  end.

(** [s.match(/sub/)] for a literal [sub]: does [sub] occur in [s]? *)
Fixpoint includes (sub s : string) : bool :=
  String.prefix sub s ||
  match s with
  | EmptyString => false
  | String _ s' => includes sub s'
  end.

(** ASCII lower case, for the flag [i] of a regular expression. *)
Definition lower (c : ascii) : ascii :=
  let n := Ascii.N_of_ascii c in
  if (65 <=? n)%N && (n <=? 90)%N then Ascii.ascii_of_N (n + 32) else c.

Fixpoint lowerCase (s : string) : string :=
  match s with
  | EmptyString => EmptyString
  | String c s' => String (lower c) (lowerCase s')
  end.

(** [s] without its prefix [p], when it begins with [p]: the anchor [^]
    followed by a literal. *)
Fixpoint strip_prefix (p s : string) : option string :=
  match p, s with
  | EmptyString, _ => Some s
  | String a p', String b s' =>
      if Ascii.eqb a b then strip_prefix p' s' else None
  | String _ _, EmptyString => None
  end.

Definition is_digit (c : ascii) : bool :=
  let n := Ascii.N_of_ascii c in (48 <=? n)%N && (n <=? 57)%N.

(** The longest prefix of decimal digits of [s], the group [(\d+)]. *)
Fixpoint take_digits (s : string) : string :=
  match s with
  | String c s' => if is_digit c then String c (take_digits s') else EmptyString
  | EmptyString => EmptyString
  end.

End JS.

(** ** The region type [ChromRegion]

    [ChromRegion] comes from the package [@givengine/chrom-region], which
    the repository imports and does not contain. Its constructor is taken
    to store the fields it is given. *)

Module ChromRegion.

Record t : Type := mk {
  chr : string;
  start : Z;
  end_ : Z;
  name : option string
}.

Global Instance t_eq_dec : EqDecision t.
Proof. solve_decision. Defined.

Global Instance t_inhabited : Inhabited t := populate (mk "" 0 0 None).

Definition sign_of (c : comparison) : Z :=
  match c with Lt => (-1)%Z | Eq => 0%Z | Gt => 1%Z end.

(** Modelled from the spec: the static method [ChromRegion.compare] is
    missing; the ordering is by chromosome name, then start, then end.
    Names compare as JavaScript strings do, character code by character
    code. *)
Definition compare (r1 r2 : t) : Z :=
  match String.compare (chr r1) (chr r2) with
  | Eq =>
      match (start r1 ?= start r2)%Z with
      | Eq => sign_of (end_ r1 ?= end_ r2)%Z
      | c => sign_of c
      end
  | c => sign_of c
  end.

(** Modelled from the spec: the method [ChromRegion.prototype.concat] is
    missing; a later [acen] band is merged into the centromere by
    extending its end, never its start. The receiver is mutated, the
    function gives its new value. *)
Definition concat (self region : t) : t :=
  {| chr := chr self; start := start self;
     end_ := Z.max (end_ self) (end_ region); name := name self |}.

End ChromRegion.

(** A cytoband: the region made by [parseCytobandIdeoFile] with the
    additional property [gieStain]. *)
Record Cytoband : Type := mkCytoband {
  band_region :> ChromRegion.t;
  gieStain : string
}.

Global Instance Cytoband_eq_dec : EqDecision Cytoband.
Proof. solve_decision. Defined.

Global Instance Cytoband_inhabited : Inhabited Cytoband :=
  populate (mkCytoband inhabitant "").

(** [this.centromere.concat(cytoband)] on the band object. *)
Definition band_concat (cytoband : Cytoband) (cen : Cytoband) : Cytoband :=
  mkCytoband (ChromRegion.concat cen cytoband) (gieStain cen).

(** ** The class [Chromosome] *)

(** The sparse array [data[label]]. *)
Abbreviation JsArray := (gmap Z Z).

(** [arr.length]. *)
Definition Array_length (arr : JsArray) : Z :=
  map_fold (λ k _ acc, if (0 <=? k)%Z then Z.max acc (k + 1) else acc) 0%Z arr.

(** [arr[i] || 0]. *)
Definition Array_get (arr : JsArray) (i : Z) : Z := default 0%Z (arr !! i).

Record Chromosome : Type := mkChromosome {
  chr : string;
  start : Z;
  end_ : Z;
  name : string;
  store : list Cytoband;      (* the band objects, by reference *)
  cytobands : list nat;       (* [this.cytobands], references *)
  centromere : option nat;    (* [this.centromere], [None] for [null] *)
  data : gmap string (gmap Z Z)
}.

(** [new Chromosome(name, size)]. *)
Definition newChromosome (name : string) (size : Z) : Chromosome :=
  {| chr := name; start := 0; end_ := size; name := name;
     store := []; cytobands := []; centromere := None; data := ∅ |}.

(** The chromosome seen as the [ChromRegion] it extends. *)
Definition as_region (c : Chromosome) : ChromRegion.t :=
  ChromRegion.mk (chr c) (start c) (end_ c) (Some (name c)).

(** The object behind a reference. *)
Definition deref (st : list Cytoband) (r : nat) : Cytoband := st !!! r.

(** The bands of [this.cytobands], in the order of the array. *)
Definition bands (c : Chromosome) : list Cytoband :=
  deref (store c) <$> cytobands c.

(** The band [this.centromere], when there is one. *)
Definition centromere_band (c : Chromosome) : option Cytoband :=
  deref (store c) <$> centromere c.

(** The comparator of [this.cytobands.sort(this.constructor.compare)] on
    the references of the array. *)
Definition compare_refs (st : list Cytoband) (a b : nat) : Z :=
  ChromRegion.compare (deref st a) (deref st b).

(** [addCytoband(cytoband)] for a band object that the caller has just
    made: it receives the next reference of the store. (For [null] the
    source throws at [cytoband.end].) *)
Definition addCytoband (cytoband : Cytoband) (c : Chromosome) : Chromosome :=
  let r := length (store c) in
  let store1 := store c ++ [cytoband] in
  let cytobands1 := cytobands c ++ [r] in
  let '(store2, centromere2) :=
    if decide (gieStain cytoband = "acen") then
      match centromere c with
      | Some k => (alter (band_concat cytoband) k store1, Some k)
      | None => (store1, Some r)
      end
    else (store1, centromere c) in
  let end2 :=
    if (end_ c <? ChromRegion.end_ cytoband)%Z then ChromRegion.end_ cytoband
    else end_ c in
  {| chr := chr c; start := start c; end_ := end2; name := name c;
     store := store2;
     cytobands := JS.sort (compare_refs store2) cytobands1;
     centromere := centromere2;
     data := data c |}.

(** [/chr[0-9]+/i] matches somewhere in [s]. *)
Fixpoint match_chr_digit (s : string) : bool :=
  match s with
  | EmptyString => false
  | String _ s' =>
      match JS.lowerCase s with
      | String "c" (String "h" (String "r" (String d _))) => JS.is_digit d
      | _ => false
      end || match_chr_digit s'
  end.

Definition isNumbered (c : Chromosome) : bool := match_chr_digit (name c).

(** [!this.name.match(/(chrUn)|_|(chrM)/)]. *)
Definition isRegular (c : Chromosome) : bool :=
  negb (JS.includes "chrUn" (name c) || JS.includes "_" (name c)
        || JS.includes "chrM" (name c)).

(** [this.name.match(/^chrM$/i)]. *)
Definition isMitochondrial (c : Chromosome) : bool :=
  bool_decide (JS.lowerCase (name c) = "chrm").

Definition with_data (d : gmap string (gmap Z Z)) (c : Chromosome)
  : Chromosome :=
  {| chr := chr c; start := start c; end_ := end_ c; name := name c;
     store := store c; cytobands := cytobands c; centromere := centromere c;
     data := d |}.

(** [initData(label)]: an existing label is kept (with a warning). *)
Definition initData (label : string) (c : Chromosome) : Chromosome :=
  match data c !! label with
  | Some _ => c
  | None => with_data (<[label := ∅]> (data c)) c
  end.

(** [Math.round(x / scale)] for integers [x] and [scale > 0]: the nearest
    integer, a half going up. *)
Definition Math_round_div (x scale : Z) : Z := ((2 * x + scale) / (2 * scale))%Z.

(** One turn of the loop of [addData]:
    [this.data[label][i] = (this.data[label][i] || 0) + 1]. *)
Definition addData_step (label : string) (c : Chromosome) (i : Z)
  : option Chromosome :=
  match data c !! label with
  | Some arr =>
      Some (with_data (<[label := <[i := (Array_get arr i + 1)%Z]> arr]> (data c)) c)
  | None => None
  end.

(** [for (let i = lo; i <= hi; i++)] over the turns above. *)
Definition addData_loop (label : string) (lo hi : Z) (c : Chromosome)
  : option Chromosome :=
  foldl (λ oc i, oc ≫= λ c', addData_step label c' i) (Some c)
        (seqZ lo (hi - lo + 1)).

(** [addData(label, bedEntry)] at the scale [Chromosome.dataScale]. *)
Definition addData (dataScale : Z) (label : string) (bedEntry : ChromRegion.t)
    (c : Chromosome) : option Chromosome :=
  if decide (chr c ≠ ChromRegion.chr bedEntry) then Some c
  else addData_loop label
         (Math_round_div (ChromRegion.start bedEntry) dataScale)
         (Math_round_div (ChromRegion.end_ bedEntry) dataScale) c.

(** ** Band appearance and chromosome geometry *)

(** The value of a string of decimal digits, [parseFloat] of the group
    [(\d+)]. *)
Definition digits_value (ds : string) : Z :=
  fst (JS.digits_prefix 10 0 0 ds).

(** [Chromosome.getCytobandOpacity(band)]. The opacity is an exact
    rational; [0.75] is [3 # 4]. *)
Definition getCytobandOpacity (band : Cytoband) : Q :=
  let stain := gieStain band in
  if decide (stain = "stalk") then 3 # 4
  else if decide (stain = "gpos100") then 1
  else if decide (stain = "gvar") then 1
  else if decide (stain = "gneg") then 0
  else
    (* [band.gieStain.match(/^gpos(\d+)/)] *)
    match JS.strip_prefix "gpos" stain with
    | Some rest =>
        match JS.take_digits rest with
        | EmptyString => 0
        | ds =>
            let gposValue := (digits_value ds # 100) in
            if Qlt_le_dec gposValue 0 then 0
            else if Qlt_le_dec 1 gposValue then 1
            else gposValue
        end
    | None => 0
    end.

(** What the drawing methods append to the SVG element, in order. Each
    instruction stands for one [svgElem.append(...)] chain; positions and
    widths are those of the regions it names, divided by the scale. *)
Inductive SvgOp : Type :=
  | ArmBackground (arm : ChromRegion.t)   (* white rounded rectangle *)
  | ArmClipPath (arm : ChromRegion.t)     (* [clipPath] with id [arm.name] *)
  | BandFill (arm : ChromRegion.t) (band : Cytoband) (opacity : Q)
  | BandHatch (arm : ChromRegion.t) (band : Cytoband) (* [url(#hatch_fill)] *)
  | ArmBorder (arm : ChromRegion.t)       (* black border, no fill *)
  | ChromosomeBar (width_bp : Z).         (* the bar of a chromosome without bands *)

(** [band.gieStain === 'gvar' || band.gieStain === 'stalk']. *)
Definition is_hatched (band : Cytoband) : bool :=
  bool_decide (gieStain band = "gvar") || bool_decide (gieStain band = "stalk").

Section Drawing.
(** [arm.overlaps(band)], a method of the absent [ChromRegion]. *)
Variable overlaps : ChromRegion.t → ChromRegion.t → bool.

(** What [drawArm] appends for one band of [this.cytobands]. *)
Definition drawBand (arm : ChromRegion.t) (band : Cytoband) : list SvgOp :=
  if overlaps arm band then
    BandFill arm band (getCytobandOpacity band)
      :: (if is_hatched band then [BandHatch arm band] else [])
  else [].

(** [drawArm(svgElem, y, arm, params)]. *)
Definition drawArm (c : Chromosome) (arm : ChromRegion.t) : list SvgOp :=
  [ArmBackground arm; ArmClipPath arm]
    ++ mjoin (drawBand arm <$> bands c)
    ++ [ArmBorder arm].

(** The local [arms] of [drawSelf]; [None] when the chromosome has no
    cytoband and is drawn as a bar. *)
Definition drawSelf_arms (c : Chromosome) : option (list ChromRegion.t) :=
  if decide (length (cytobands c) ≠ 0) then
    match centromere_band c with
    | Some cen =>
        Some [ ChromRegion.mk (chr c) (start c) (ChromRegion.start cen)
                 (Some (name c +:+ "_arm_1"));
               ChromRegion.mk (chr c) (ChromRegion.end_ cen) (end_ c)
                 (Some (name c +:+ "_arm_2")) ]
    | None => Some [as_region c]
    end
  else None.

(** [drawSelf(svgElem, params, y)]. *)
Definition drawSelf (c : Chromosome) : list SvgOp :=
  match drawSelf_arms c with
  | Some arms => mjoin (drawArm c <$> arms)
  | None => [ChromosomeBar (end_ c)]
  end.
End Drawing.

(** ** Stacking and filtering *)

(** One turn of the [forEach] of [stackChromosomes]; [None] when
    [stack[totalLength - 1 - index]] is [undefined]. *)
Definition stack_step (totalLength : nat) (stack : list (list Chromosome))
    (index : nat) (chromosome : Chromosome) : option (list (list Chromosome)) :=
  if decide (index < totalLength / 2) then Some (stack ++ [[chromosome]])
  else
    match stack !! (totalLength - 1 - index) with
    | Some entry =>
        Some (<[totalLength - 1 - index := entry ++ [chromosome]]> stack)
    | None => None
    end.

Fixpoint stack_forEach (totalLength : nat) (l : list Chromosome) (index : nat)
    (stack : list (list Chromosome)) : option (list (list Chromosome)) :=
  match l with
  | [] => Some stack
  | chromosome :: l' =>
      stack_step totalLength stack index chromosome
        ≫= stack_forEach totalLength l' (S index)
  end.

Definition compare_chromosomes (a b : Chromosome) : Z :=
  ChromRegion.compare (as_region a) (as_region b).

(** [stackChromosomes(chromosomeList)]. *)
Definition stackChromosomes (chromosomeList : list Chromosome)
  : option (list (list Chromosome)) :=
  let chromosomeList := JS.sort compare_chromosomes chromosomeList in
  let totalLength := (length chromosomeList + 1) / 2 * 2 in
  stack_forEach totalLength chromosomeList 0 [].

(** [getStackedChromosomes(chromosomes)]. *)
Definition getStackedChromosomes (chromosomes : list Chromosome)
  : option (list (list Chromosome)) :=
  numbered ← stackChromosomes (filter (λ c, isNumbered c = true) chromosomes);
  others ← stackChromosomes (filter (λ c, isNumbered c ≠ true) chromosomes);
  Some (numbered ++ others).

(** The predicate of the [filter] of [filterChromosome]. *)
Definition keepChromosome (includeNonRegular includeMito : bool)
    (chromosome : Chromosome) : bool :=
  (includeNonRegular || isRegular chromosome)
  || (includeMito && isMitochondrial chromosome).

(** [filterChromosome(chromosomes, includeNonRegular, includeMito)]. *)
Definition filterChromosome (chromosomes : list Chromosome)
    (includeNonRegular includeMito : bool) : list Chromosome :=
  filter (λ c, keepChromosome includeNonRegular includeMito c = true)
         (JS.sort compare_chromosomes chromosomes).

(** ** The objects of the process, the shared index and the parsers

    [chromosomes.map = chromosomes.map || {}] finds, on an array, the
    method [map] that every array inherits, a function, and keeps it: the
    index of every collection is this one function object, shared by all
    the arrays of the process. Its own properties are [length] and [name],
    which are no chromosomes, and the chromosomes that the parsers have
    put there under their names. A chromosome stays in the index when
    [filterChromosome] leaves it out of an array, and the index of an array
    that no parser has made need not have the chromosomes of the array.

    The state of the process is the heap of its chromosome objects and the
    index; an array is the list of the addresses of its chromosomes.

    A line whose numeric field does not read as an integer makes a parser
    stop with [None]: the source hands [NaN] to the constructor of
    [ChromRegion], which is not part of the repository. So does a cytoband
    line without the fifth column of the format, the stain, which the
    source hands to the same constructor as [undefined]. An array that
    was given a property [map] of its own before it reaches the parsers is
    not in the model. *)

Record World : Type := mkWorld {
  heap : list Chromosome;
  index : gmap string nat
}.

(** The state of a process that has made no chromosome. *)
Definition new_world : World := mkWorld [] ∅.

(** The own properties of the function [Array.prototype.map]: a number and
    a string. *)
Definition own_keys : list string := ["length"; "name"].

(** Names that an assignment does not make an own property of the index:
    [caller] and [arguments] have setters that raise, and [__proto__] has
    a setter that makes the chromosome the prototype of the index, after
    which an assignment to the index goes through the class [ChromRegion],
    which is not part of the repository. A parser that has to put a
    chromosome under such a name stops with [None]. *)
Definition unsettable_keys : list string :=
  ["__proto__"; "caller"; "arguments"].

(** The index has the own property [key]. *)
Definition has_chromosome (w : World) (key : string) : bool :=
  bool_decide (key ∈ own_keys) || bool_decide (is_Some (index w !! key)).

(** [chromosomes.map.hasOwnProperty(key)]. The method is looked up on the
    index: a chromosome that a parser has put there under the name
    [hasOwnProperty] hides it, and the call raises. *)
Definition hasOwnProperty (w : World) (key : string) : option bool :=
  if bool_decide (is_Some (index w !! "hasOwnProperty")) then None
  else Some (has_chromosome w key).

(** [chromosomes.map[key].method(...)]: the method runs on the chromosome
    that the index has under the key, in place. It raises when the index
    has none, and when the key is [length] or [name], whose values have no
    such method. *)
Definition call_on (key : string) (method : Chromosome → option Chromosome)
    (w : World) : option World :=
  if bool_decide (key ∈ own_keys) then None
  else
    a ← index w !! key;
    c ← heap w !! a;
    c' ← method c;
    Some (mkWorld (<[a := c']> (heap w)) (index w)).

(** [let newChrom = new Chromosome(key, size)],
    [chromosomes.push(newChrom)] and
    [chromosomes.map[newChrom.name] = newChrom]. *)
Definition push_chromosome (key : string) (size : Z)
    (chromosomes : list nat) (w : World) : option (list nat * World) :=
  if bool_decide (key ∈ unsettable_keys) then None
  else
    Some (chromosomes ++ [length (heap w)],
          mkWorld (heap w ++ [newChromosome key size])
                  (<[key := length (heap w)]> (index w))).

(** The chromosomes of an array, as they are in the heap. *)
Definition objects_of (w : World) (chromosomes : list nat) : list Chromosome :=
  omap (λ a, heap w !! a) chromosomes.

(** The tokens of a line, [line.trim().split(/\s+/)], and the first one. *)
Definition line_tokens (line : string) : list string :=
  JS.split_ws (JS.trim line).

Definition first_token (tokens : list string) : string :=
  default "" (head tokens).

(** The lines of a file, [fileContent.trim().split('\n')]. *)
Definition file_lines (fileContent : string) : list string :=
  JS.split "010" (JS.trim fileContent).

Definition parseChromSizeFile_line (state : list nat * World)
    (line : string) : option (list nat * World) :=
  let '(chromosomes, w) := state in
  let tokens := line_tokens line in
  known ← hasOwnProperty w (first_token tokens);
  if (known : bool) then Some (chromosomes, w)
  else
    size ← JS.parseInt_at tokens 1;
    push_chromosome (first_token tokens) size chromosomes w.

(** [parseChromSizeFile(fileContent, chromosomes)]: the array that is
    returned, and the state of the process. *)
Definition parseChromSizeFile (fileContent : string)
    (chromosomes : list nat) (w : World) : option (list nat * World) :=
  foldl (λ acc line, acc ≫= λ state, parseChromSizeFile_line state line)
        (Some (chromosomes, w)) (file_lines fileContent).

Definition parseCytobandIdeoFile_line (state : list nat * World)
    (line : string) : option (list nat * World) :=
  let '(chromosomes, w) := state in
  let tokens := line_tokens line in
  start ← JS.parseInt_at tokens 1;
  end_ ← JS.parseInt_at tokens 2;
  stain ← tokens !! 4;
  let cytoband :=
    mkCytoband (ChromRegion.mk (first_token tokens) start end_ (tokens !! 3))
               stain in
  known ← hasOwnProperty w (first_token tokens);
  '(chromosomes1, w1) ←
    (if (known : bool) then Some (chromosomes, w)
     else push_chromosome (first_token tokens) end_ chromosomes w);
  w2 ← call_on (first_token tokens) (λ c, Some (addCytoband cytoband c)) w1;
  Some (chromosomes1, w2).

(** [parseCytobandIdeoFile(fileContent, chromosomes)]. *)
Definition parseCytobandIdeoFile (fileContent : string)
    (chromosomes : list nat) (w : World) : option (list nat * World) :=
  foldl (λ acc line, acc ≫= λ state, parseCytobandIdeoFile_line state line)
        (Some (chromosomes, w)) (file_lines fileContent).

(** ** Datasets *)

(** [chromosomes.forEach(chromosome => chromosome.initData(label))]. *)
Definition initData_each (label : string) (chromosomes : list nat)
    (w : World) : World :=
  mkWorld (foldl (λ h a, alter (initData label) a h) (heap w) chromosomes)
          (index w).

Definition addBedData_line (dataScale : Z) (label : string)
    (w : World) (line : string) : option World :=
  let tokens := line_tokens line in
  start ← JS.parseInt_at tokens 1;
  end_ ← JS.parseInt_at tokens 2;
  let bedEntry := ChromRegion.mk (first_token tokens) start end_ None in
  known ← hasOwnProperty w (ChromRegion.chr bedEntry);
  if (known : bool) then
    call_on (ChromRegion.chr bedEntry) (addData dataScale label bedEntry) w
  else Some w.

(** [addBedData(bedFileContent, label, chromosomes)]. The content is
    [None] for the [null] of a read that failed. The result is the state
    of the process after the call, with [true] when the function returns
    [chromosomes] and [false] when it returns [null]. *)
Definition addBedData (dataScale : Z) (bedFileContent : option string)
    (label : string) (chromosomes : list nat) (w : World)
  : option (World * bool) :=
  match bedFileContent with
  | None | Some EmptyString => Some (w, false)
  | Some content =>
      w' ←
        foldl (λ acc line, acc ≫= λ w1, addBedData_line dataScale label w1 line)
              (Some (initData_each label chromosomes w)) (file_lines content);
      Some (w', true)
  end.

(** The parameters of [drawGenomePlot] that the dataset loop and the
    heights read. *)
Record Params : Type := mkParams {
  labels : list string;
  args : list string;
  height : Q;
  inGap : Q;
  gap : Q;
  cytobandIdeo : option string;
  cytobandHeight : Q;
  chromosomeBarHeight : Q
}.

(** [params.labels[bedFileIndex] || params.args[bedFileIndex]]; a label
    that is [undefined] is the property key ["undefined"]. *)
Definition dataset_label (params : Params) (bedFileIndex : nat) : string :=
  let arg := default "undefined" (args params !! bedFileIndex) in
  match labels params !! bedFileIndex with
  | Some EmptyString | None => arg
  | Some label => label
  end.

(** [bedFiles.map(...).filter(result => !!result)]: the state of the
    process after the files from [bedFileIndex] on, and the number of
    results kept, [validBedFiles.length]. *)
Fixpoint loadBedFiles (dataScale : Z) (params : Params)
    (bedFiles : list (option string)) (bedFileIndex : nat)
    (chromosomes : list nat) (w : World) : option (World * nat) :=
  match bedFiles with
  | [] => Some (w, 0)
  | bedFile :: rest =>
      '(w1, result) ←
        addBedData dataScale bedFile (dataset_label params bedFileIndex)
                   chromosomes w;
      '(w2, valid) ←
        loadBedFiles dataScale params rest (S bedFileIndex) chromosomes w1;
      Some (w2, if (result : bool) then S valid else valid)
  end.

(** [svgEntryHeight] of [drawGenomePlot] for [validBedFiles.length]. *)
Definition svgEntryHeight (params : Params) (validBedFiles : nat) : Q :=
  inject_Z (Z.of_nat validBedFiles) * (height params + inGap params)
  + match cytobandIdeo params with
    | Some EmptyString | None => chromosomeBarHeight params
    | Some _ => cytobandHeight params
    end.

(** [svgHeight] of [drawGenomePlot]. *)
Definition svgHeight (params : Params) (stacks validBedFiles : nat) : Q :=
  inject_Z (Z.of_nat stacks) * (svgEntryHeight params validBedFiles + 2 + gap params)
  - gap params.

(** * The vocabulary of the properties

    Compositions of the operations above, the predicates that the
    statements use, and the values of the examples. *)

(** ** Rasters *)

(** The count [data[label][i] || 0] of a chromosome; a label that was not
    initialised counts as empty. *)
Definition bin (c : Chromosome) (label : string) (i : Z) : Z :=
  Array_get (default ∅ (data c !! label)) i.

(** The fields of a chromosome that [addData] does not write. *)
Definition same_annotation (c c' : Chromosome) : Prop :=
  chr c' = chr c ∧ start c' = start c ∧ end_ c' = end_ c ∧ name c' = name c ∧
  store c' = store c ∧ cytobands c' = cytobands c ∧
  centromere c' = centromere c.

(** [addData] for each interval of a dataset, in order, on one
    chromosome. *)
Definition addData_each (dataScale : Z) (label : string)
    (bedEntries : list ChromRegion.t) (c : Chromosome) : option Chromosome :=
  foldl (λ oc bedEntry, oc ≫= addData dataScale label bedEntry) (Some c)
        bedEntries.

(** The interval [bedEntry] is on the chromosome [key] and its range of
    bins has [i]. *)
Definition covers (dataScale : Z) (key : string) (i : Z)
    (bedEntry : ChromRegion.t) : Prop :=
  key = ChromRegion.chr bedEntry ∧
  (Math_round_div (ChromRegion.start bedEntry) dataScale ≤ i
   ≤ Math_round_div (ChromRegion.end_ bedEntry) dataScale)%Z.

Global Instance covers_dec dataScale key i bedEntry :
  Decision (covers dataScale key i bedEntry).
Proof. unfold covers. apply _. Defined.

(** The number of intervals of a dataset that cover the bin [i]. *)
Definition hits (dataScale : Z) (key : string)
    (bedEntries : list ChromRegion.t) (i : Z) : Z :=
  Z.of_nat (length (filter (covers dataScale key i) bedEntries)).

(** The height of an entry that [drawGenomePlot] computes from the files
    it was given. *)
Definition drawGenomePlot_entryHeight (dataScale : Z) (params : Params)
    (bedFiles : list (option string)) (chromosomes : list nat) (w : World)
  : option Q :=
  '(_, valid) ← loadBedFiles dataScale params bedFiles 0 chromosomes w;
  Some (svgEntryHeight params valid).

(** ** Stains *)

(** The string is made of decimal digits. *)
Fixpoint all_digits (s : string) : bool :=
  match s with
  | EmptyString => true
  | String c s' => JS.is_digit c && all_digits s'
  end.

(** The four stains that [getCytobandOpacity] names. *)
Definition named_stain (stain : string) : Prop :=
  stain = "stalk" ∨ stain = "gpos100" ∨ stain = "gvar" ∨ stain = "gneg".

(** The stain begins with [gpos] and a digit: [/^gpos(\d+)/] matches. *)
Definition gpos_stain (stain : string) : Prop :=
  ∃ d rest, JS.is_digit d = true ∧ stain = "gpos" +:+ String d rest.

(** The band has the stain of a centromere. *)
Definition is_acen (b : Cytoband) : Prop := gieStain b = "acen".

Global Instance is_acen_dec b : Decision (is_acen b).
Proof. unfold is_acen. apply _. Defined.

(** ** Bands of a chromosome *)

(** [addCytoband] for each band of a list, in order. *)
Definition addCytobands (bs : list Cytoband) (c : Chromosome) : Chromosome :=
  foldl (λ c' cytoband, addCytoband cytoband c') c bs.

(** The store and the centromere after [addCytoband], spelled out. *)
Definition store_after (cytoband : Cytoband) (c : Chromosome) : list Cytoband :=
  if decide (gieStain cytoband = "acen") then
    match centromere c with
    | Some k => alter (band_concat cytoband) k (store c ++ [cytoband])
    | None => store c ++ [cytoband]
    end
  else store c ++ [cytoband].

Definition centromere_after (cytoband : Cytoband) (c : Chromosome)
  : option nat :=
  if decide (gieStain cytoband = "acen") then
    match centromere c with
    | Some k => Some k
    | None => Some (length (store c))
    end
  else centromere c.

(** Every reference of the array is a band of the store, once, and the
    centromere is a band of the store. *)
Definition well_formed (c : Chromosome) : Prop :=
  cytobands c ≡ₚ seq 0 (length (store c)) ∧
  ∀ k, centromere c = Some k → k < length (store c).

(** The canonical order on bands. *)
Definition band_before (a b : Cytoband) : Prop :=
  JS.before ChromRegion.compare (band_region a) (band_region b).

(** The invariant of a chromosome: the array of bands is in canonical
    order and no band ends after the chromosome. *)
Definition Chromosome_invariant (c : Chromosome) : Prop :=
  well_formed c ∧
  StronglySorted band_before (bands c) ∧
  ∀ b : Cytoband, b ∈ bands c → (ChromRegion.end_ b ≤ end_ c)%Z.

(** The largest end met along a list of bands, from [m]. *)
Definition max_end (m : Z) (bs : list Cytoband) : Z :=
  foldl (λ m' (b : Cytoband), Z.max m' (ChromRegion.end_ b)) m bs.

(** ** Values of the examples *)

(** The line feed. *)
Definition LF : string := String "010" EmptyString.

(** Three chromosomes in canonical order, a mitochondrial and an unplaced
    one. *)
Definition chr_a : Chromosome := newChromosome "chr1" 300.
Definition chr_b : Chromosome := newChromosome "chr2" 200.
Definition chr_c : Chromosome := newChromosome "chr3" 100.
Definition chr_mito : Chromosome := newChromosome "chrM" 16571.
Definition chr_unplaced : Chromosome := newChromosome "chrUn_gl000211" 166566.

(** A chromosome ready for the dataset [default]. *)
Definition chr1_ready : Chromosome :=
  initData "default" (newChromosome "chr1" 1000).

(** Bands of chr1: a short arm, the centromere, a long arm that ends after
    the declared length, and a second [acen] band that starts before the
    first. *)
Definition band_p : Cytoband :=
  mkCytoband (ChromRegion.mk "chr1" 0 100 (Some "p11")) "gneg".
Definition band_cen : Cytoband :=
  mkCytoband (ChromRegion.mk "chr1" 100 120 (Some "cen")) "acen".
Definition band_q : Cytoband :=
  mkCytoband (ChromRegion.mk "chr1" 120 1200 (Some "q11")) "gpos50".
Definition band_cen_early : Cytoband :=
  mkCytoband (ChromRegion.mk "chr1" 80 100 (Some "p11.1")) "acen".

(** * Further operations and their vocabulary *)

(** ** A dataset as a list of intervals *)

(** The interval that [addBedData] makes of a line. *)
Definition parse_bed_line (line : string) : option ChromRegion.t :=
  let tokens := line_tokens line in
  start ← JS.parseInt_at tokens 1;
  end_ ← JS.parseInt_at tokens 2;
  Some (ChromRegion.mk (first_token tokens) start end_ None).

(** The intervals of a dataset, when every line gives one. *)
Definition bed_entries (content : string) : option (list ChromRegion.t) :=
  mapM parse_bed_line (file_lines content).

(** What [addBedData] does with one interval. *)
Definition apply_entry (dataScale : Z) (label : string)
    (bedEntry : ChromRegion.t) (w : World) : option World :=
  known ← hasOwnProperty w (ChromRegion.chr bedEntry);
  if (known : bool) then
    call_on (ChromRegion.chr bedEntry) (addData dataScale label bedEntry) w
  else Some w.


(** The index as the parsers keep it: a key leads to a chromosome of the
    heap that has the key as its name. *)
Definition index_ok (w : World) : Prop :=
  ∀ key a, index w !! key = Some a →
           ∃ c, heap w !! a = Some c ∧ name c = key.



(** A chromosome as [parseChromSizeFile] makes it. *)
Definition bare (c : Chromosome) : Prop := c = newChromosome (name c) (end_ c).

(** A chromosome with bands as [parseCytobandIdeoFile] leaves it. *)
Definition banded (c : Chromosome) : Prop :=
  Chromosome_invariant c ∧ chr c = name c ∧
  ∀ b : Cytoband, b ∈ store c → ChromRegion.chr b = name c.

(** ** Drawing the data *)

Definition colorPalette : list string :=
  ["#CC6677"; "#332288"; "#DDCC77"; "#117733"; "#88CCEE"; "#882255";
   "#44AA99"; "#999933"; "#AA4499"].

(** The rectangle that [drawData] appends for an entry of the array: its
    [x] is the index of the entry, its width is 1, its [y] and height are
    those of the track [labelIndex]. *)
Record DataRect : Type := mkDataRect {
  rect_x : Z;
  rect_track : nat;
  rect_fill : string;
  rect_border : bool
}.

(** The indices that [arr.forEach] visits: those below the length that the
    array has, in order. *)
Definition Array_forEach_indices (arr : gmap Z Z) : list Z :=
  filter (λ i, is_Some (arr !! i)) (seqZ 0 (Array_length arr)).

(** [drawData(svgElem, label, labelIndex, params)]; [None] when
    [this.data[label]] is [undefined]. *)
Definition drawData (label : string) (labelIndex : nat) (withBorders : bool)
    (c : Chromosome) : option (list DataRect) :=
  arr ← data c !! label;
  Some ((λ dataIndex,
           mkDataRect dataIndex labelIndex
             (default "" (colorPalette !! (labelIndex mod length colorPalette)))
             withBorders)
          <$> Array_forEach_indices arr).

(** What [_drawSingleChromosomeStack] appends to the main SVG element, in
    order: the sub-[<svg>] of a chromosome, its rectangles, its bands or
    bar, and its label. The positions and sizes in pixels, which are
    floating-point numbers, are left out. *)
Inductive PlotOp : Type :=
  | SubSvg (stackIndex colIndex : nat) (length_bp : Z)
  | DataOp (rect : DataRect)
  | SelfOp (op : SvgOp)
  | LabelText (stackIndex colIndex : nat) (text : string).

Section Plot.
Variable overlaps : ChromRegion.t → ChromRegion.t → bool.
Variable dataScale : Z.
Variable params : Params.
Variable withBorders : bool.

(** The body of the [forEach] of [_drawSingleChromosomeStack] for the
    chromosome [c] in the column [colIndex]. *)
Definition drawChromosome (stackIndex colIndex : nat) (c : Chromosome)
  : option (list PlotOp) :=
  rects ← mapM (λ '(lblIndex, label), drawData label lblIndex withBorders c)
               (imap pair (labels params));
  Some ([SubSvg stackIndex colIndex (end_ c)]
          ++ (DataOp <$> mjoin rects)
          ++ (SelfOp <$> drawSelf overlaps c)
          ++ [LabelText stackIndex colIndex (name c)]).

(** [_drawSingleChromosomeStack]. A stack holds the addresses of its
    chromosomes; an address outside the heap, which no stack of the source
    has, gives [None]. *)
Definition drawSingleChromosomeStack (w : World)
    (stackIndex : nat) (stack : list nat) : option (list PlotOp) :=
  mjoin <$> mapM (λ '(colIndex, a),
                    heap w !! a ≫= drawChromosome stackIndex colIndex)
                 (imap pair stack).

(** [drawGenomePlot]: the datasets are put in the rasters, then every stack
    is drawn; [None] when an exception leaves the function. The widths of
    [calcSvgWidths] and the element of [_createSvgElem] are numbers and
    attributes that raise nothing; they are left out. *)
Definition drawGenomePlot (chromosomes : list nat)
    (chromosomeStacks : list (list nat)) (bedFiles : list (option string))
    (w : World) : option (list PlotOp) :=
  '(w', _) ← loadBedFiles dataScale params bedFiles 0 chromosomes w;
  mjoin <$> mapM (λ '(stackIndex, stack),
                    drawSingleChromosomeStack w' stackIndex stack)
                 (imap pair chromosomeStacks).
End Plot.

(** ** Preparing the chromosomes *)

(** [prepareChromosomeFromFile] once the files are read, in the state [w]
    of the process: [chromSizes] and [cytobandIdeo] are the contents of the
    files of these options, [None] for an option that is not given.
    Nothing is written after the parse, and the chromosomes that are
    handed over are given as the heap has them then. *)
Definition prepareChromosomes (w : World)
    (chromSizes cytobandIdeo : option string)
    (includeNonRegular includeMito stacked : bool)
  : option (list Chromosome * list (list Chromosome)) :=
  '(array, w') ←
    match chromSizes with
    | Some content => parseChromSizeFile content [] w
    | None => cytobandIdeo ≫= λ content, parseCytobandIdeoFile content [] w
    end;
  let chromosomes :=
    filterChromosome (objects_of w' array) includeNonRegular includeMito in
  chromosomeStacks ←
    (if stacked then getStackedChromosomes chromosomes
     else Some ((λ chromosome, [chromosome]) <$> chromosomes));
  Some (chromosomes, chromosomeStacks).

(** The length of the chromosome is the end of one of its bands. *)
Definition tight (c : Chromosome) : Prop :=
  ∃ b : Cytoband, b ∈ store c ∧ ChromRegion.end_ b = end_ c.

(** The data of the label [l] are the same in both chromosomes. *)
Definition same_label (l : string) (c c' : Chromosome) : Prop :=
  data c' !! l = data c !! l.

(** The label [l], when it has data in the first chromosome, has data in
    the second. *)
Definition keeps_label (l : string) (c c' : Chromosome) : Prop :=
  is_Some (data c !! l) → is_Some (data c' !! l).

(** A dataset that was read and is not empty. *)
Definition loaded (bedFile : option string) : Prop :=
  bedFile ≠ None ∧ bedFile ≠ Some "".

(** ** The index of an array alone *)

(** The state in which the index has the chromosomes of the array and no
    other: what the index would be had the process made no chromosome
    but those of the array. *)
Definition array_index (chromosomes : list nat) (w : World) : World :=
  mkWorld (heap w) (filter (λ entry, entry.2 ∈ chromosomes) (index w)).

(** The name and [chr] stay, and so does a label without data. *)
Definition stays_without (label : string) (c c' : Chromosome) : Prop :=
  name c' = name c ∧ chr c' = chr c ∧
  (data c !! label = None → data c' !! label = None).

(** Two chromosomes that are drawn alike: the same annotation, and the
    same data for every label of [params.labels]. *)
Definition drawn_alike (params : Params) (c c' : Chromosome) : Prop :=
  same_annotation c c' ∧ ∀ l, l ∈ labels params → data c' !! l = data c !! l.

(** ** The command line *)

(** [list(value)], the reader of the option [--labels]:
    [value.trim().split(',')]. *)
Definition list_value (value : string) : list string :=
  JS.split "," (JS.trim value).

(** [program.labels = program.labels || program.args]: the labels given,
    the file names otherwise; an array, also an empty one, is true. *)
Definition program_labels (labels : option string) (args : list string)
  : list string :=
  match labels with
  | Some value => list_value value
  | None => args
  end.

(** The number of characters [a] in [s]. *)
Fixpoint occurrences (a : ascii) (s : string) : nat :=
  match s with
  | EmptyString => 0
  | String c s' => (if Ascii.eqb c a then 1 else 0) + occurrences a s'
  end.


(** ** States of the examples *)

(** A process that has parsed the sizes of chr1 and chr2, and one that has
    parsed chr1 and chrM and whose array [[0]] is without chrM. *)
Definition world_ab : World :=
  mkWorld [chr_a; chr_b] (<["chr2" := 1]> (<["chr1" := 0]> ∅)).
Definition world_mito : World :=
  mkWorld [chr_a; chr_mito] (<["chrM" := 1]> (<["chr1" := 0]> ∅)).
(** * Properties *)

(** Linear arithmetic with quotients by constants. *)
Ltac div_lia := zify; Z.to_euclidean_division_equations; lia.

(** ** Sorting *)

Section SortFacts.
Context {A : Type} (cmp : A → A → Z).
Implicit Types (x : A) (l : list A).

Lemma sort_insert_Permutation x l : JS.sort_insert cmp x l ≡ₚ x :: l.
Proof.
  induction l as [|y l IH]; simpl; [done|].
  destruct (0 <? cmp x y)%Z; [|done].
  rewrite IH. apply Permutation_swap.
Qed.

Lemma sort_Permutation l : JS.sort cmp l ≡ₚ l.
Proof.
  induction l as [|x l IH]; simpl; [done|].
  by rewrite sort_insert_Permutation, IH.
Qed.

Lemma length_sort l : length (JS.sort cmp l) = length l.
Proof. by rewrite sort_Permutation. Qed.

(** An array that is in order already is left as it is. *)
Lemma sort_of_Sorted l : Sorted (JS.before cmp) l → JS.sort cmp l = l.
Proof.
  induction 1 as [|x l Hl IH Hx]; simpl; [done|].
  rewrite IH. destruct Hx as [|y l' Hxy]; simpl; [done|].
  unfold JS.before in Hxy.
  destruct (Z.ltb_spec 0 (cmp x y)); [lia|done].
Qed.

(** For a comparator that never puts each of two elements after the
    other, the result is in order. *)
Hypothesis cmp_total : ∀ a b, (0 < cmp a b)%Z → (cmp b a ≤ 0)%Z.

Lemma sort_insert_Sorted x l :
  Sorted (JS.before cmp) l → Sorted (JS.before cmp) (JS.sort_insert cmp x l).
Proof using cmp_total.
  induction 1 as [|y l Hl IH Hy]; simpl.
  { repeat constructor. }
  destruct (Z.ltb_spec 0 (cmp x y)) as [Hlt|Hge].
  - constructor; [done|].
    destruct Hy as [|z l' Hyz]; simpl.
    + constructor. by apply cmp_total.
    + destruct (Z.ltb_spec 0 (cmp x z)); constructor;
        [done | by apply cmp_total].
  - constructor; [by constructor|]. constructor. by unfold JS.before.
Qed.

Lemma sort_Sorted l : Sorted (JS.before cmp) (JS.sort cmp l).
Proof using cmp_total.
  induction l; simpl; [constructor | by apply sort_insert_Sorted].
Qed.
End SortFacts.

Lemma sign_of_CompOpp c :
  ChromRegion.sign_of (CompOpp c) = (- ChromRegion.sign_of c)%Z.
Proof. by destruct c. Qed.

Lemma compare_antisym r1 r2 :
  ChromRegion.compare r2 r1 = (- ChromRegion.compare r1 r2)%Z.
Proof.
  unfold ChromRegion.compare.
  rewrite (String.compare_antisym (ChromRegion.chr r1)).
  rewrite (Z.compare_antisym (ChromRegion.start r1)).
  rewrite (Z.compare_antisym (ChromRegion.end_ r1)).
  destruct (String.compare _ _); simpl; [|done..].
  destruct (_ ?= _)%Z; simpl; [|done..].
  by destruct (_ ?= _)%Z.
Qed.

Lemma compare_total r1 r2 :
  (0 < ChromRegion.compare r1 r2)%Z → (ChromRegion.compare r2 r1 ≤ 0)%Z.
Proof. rewrite (compare_antisym r1 r2). lia. Qed.

Lemma compare_chromosomes_total a b :
  (0 < compare_chromosomes a b)%Z → (compare_chromosomes b a ≤ 0)%Z.
Proof. apply compare_total. Qed.

Lemma compare_refs_total st a b :
  (0 < compare_refs st a b)%Z → (compare_refs st b a ≤ 0)%Z.
Proof. apply compare_total. Qed.

(** ** Stacking *)

(** The padded length [totalLength] of [stackChromosomes]. *)
Lemma padded_length_odd (n : nat) : n mod 2 = 1 → (n + 1) / 2 * 2 = n + 1.
Proof.
  intros Hodd. pose proof (Nat.div_mod_eq n 2) as Hn. rewrite Hodd in Hn.
  replace (n + 1) with ((n / 2 + 1) * 2) at 1 by lia.
  rewrite Nat.div_mul by done. lia.
Qed.

Lemma padded_length_even (n : nat) : n mod 2 = 0 → (n + 1) / 2 * 2 = n.
Proof.
  intros Heven. pose proof (Nat.div_mod_eq n 2) as Hn. rewrite Heven in Hn.
  assert (Hhalf : (n + 1) / 2 = n / 2).
  { symmetry. apply (Nat.div_unique _ _ _ 1); lia. }
  rewrite Hhalf. lia.
Qed.

Section Stacking.
Implicit Types (stack : list (list Chromosome)) (l : list Chromosome).

Lemma stack_step_Permutation T stack i x stack' :
  stack_step T stack i x = Some stack' → mjoin stack' ≡ₚ x :: mjoin stack.
Proof.
  unfold stack_step. case_decide.
  - intros [= <-]. rewrite join_app. simpl.
    by rewrite <- Permutation_cons_append.
  - destruct (stack !! _) as [entry|] eqn:Hk; [|done]. intros [= <-].
    apply list_elem_of_split_length in Hk as (l1 & l2 & -> & Hlen).
    rewrite Hlen, insert_app_r_alt, Nat.sub_diag by lia. simpl.
    rewrite !join_app. simpl. solve_Permutation.
Qed.

Lemma stack_forEach_Permutation T l i stack stacks :
  stack_forEach T l i stack = Some stacks → mjoin stacks ≡ₚ mjoin stack ++ l.
Proof.
  revert i stack. induction l as [|x l IH]; intros i stack; simpl.
  { intros [= <-]. by rewrite app_nil_r. }
  destruct (stack_step T stack i x) as [stack1|] eqn:Hstep; [|done]. simpl.
  intros ->%IH. apply stack_step_Permutation in Hstep as ->.
  by rewrite <- Permutation_middle.
Qed.

(** The first half: one new entry for each chromosome. *)
Lemma stack_forEach_first T l i stack rest :
  i + length l ≤ T / 2 →
  stack_forEach T (l ++ rest) i stack
  = stack_forEach T rest (i + length l) (stack ++ ((λ x, [x]) <$> l)).
Proof.
  revert i stack. induction l as [|x l IH]; intros i stack Hle; cbn [length] in Hle; simpl.
  { by rewrite Nat.add_0_r, app_nil_r. }
  unfold stack_step at 1. rewrite decide_True by lia. simpl.
  rewrite IH by lia. f_equal; [lia|]. by rewrite <- (assoc_L (++)).
Qed.

(** The second half: the chromosome of index [i] joins the entry
    [T - 1 - i]. *)
Lemma stack_forEach_second T l i stack :
  T / 2 ≤ i → i + length l ≤ T → T ≤ i + length stack →
  ∃ stacks,
    stack_forEach T l i stack = Some stacks ∧
    length stacks = length stack ∧
    ∀ k entry, stack !! k = Some entry →
      stacks !! k
      = Some (entry ++ if decide (i + k < T)
                       then option_list (l !! (T - 1 - i - k)) else []).
Proof.
  revert i stack. induction l as [|x l IH]; intros i stack Hi Hl Hs; cbn [length] in Hl; simpl.
  { eexists; split; [done|]. split; [done|]. intros k entry ->.
    case_decide; by rewrite app_nil_r. }
  unfold stack_step at 1. rewrite decide_False by lia.
  destruct (lookup_lt_is_Some_2 stack (T - 1 - i)) as [e He]; [lia|].
  rewrite He. simpl.
  destruct (IH (S i) (<[T - 1 - i := e ++ [x]]> stack)) as (stacks & -> & Hlen & Hk);
    [lia | lia | rewrite length_insert; lia |].
  eexists; split; [done|]. rewrite Hlen, length_insert. split; [done|].
  intros k entry Hentry.
  destruct (decide (k = T - 1 - i)) as [->|Hne].
  - rewrite (Hk _ (e ++ [x])) by (rewrite list_lookup_insert_eq; [done|by eapply lookup_lt_Some]).
    rewrite decide_False, decide_True by lia.
    replace (T - 1 - i - (T - 1 - i)) with 0 by lia. simpl.
    rewrite app_nil_r. congruence.
  - rewrite (Hk _ entry) by (by rewrite list_lookup_insert_ne).
    repeat case_decide; try lia; try done.
    replace (T - 1 - i - k) with (S (T - 1 - S i - k)) by lia. done.
Qed.

Lemma stackChromosomes_entries l :
  let s := JS.sort compare_chromosomes l in
  let h := (length l + 1) / 2 in
  ∃ stacks,
    stackChromosomes l = Some stacks ∧
    length stacks = h ∧
    ∀ k a, k < h → s !! k = Some a →
      stacks !! k = Some (a :: option_list (s !! (h * 2 - 1 - k))).
Proof.
  intros s h. unfold stackChromosomes. fold s.
  assert (Hn : length s = length l) by apply length_sort.
  rewrite Hn. fold h.
  assert (Hh : h ≤ length l ∧ length l ≤ h * 2).
  { subst h. div_lia. }
  assert (HT : h * 2 / 2 = h) by div_lia.
  assert (Hrun : stack_forEach (h * 2) s 0 []
                 = stack_forEach (h * 2) (drop h s) h ((λ x, [x]) <$> take h s)).
  { rewrite <- (take_drop h s) at 1.
    rewrite stack_forEach_first by (rewrite length_take; lia).
    by rewrite length_take, Nat.min_l by lia. }
  rewrite Hrun. clear Hrun.
  destruct (stack_forEach_second (h * 2) (drop h s) h ((λ x, [x]) <$> take h s))
    as (stacks & -> & Hlen & Hk).
  { lia. } { rewrite length_drop. lia. }
  { rewrite length_fmap, length_take. lia. }
  exists stacks. split; [done|].
  rewrite Hlen, length_fmap, length_take. split; [lia|].
  intros k a Hlt Ha.
  rewrite (Hk k [a]).
  2:{ rewrite list_lookup_fmap, lookup_take_lt by done. by rewrite Ha. }
  rewrite decide_True by lia. rewrite lookup_drop. simpl.
  by replace (h + (h * 2 - 1 - h - k)) with (h * 2 - 1 - k) by lia.
Qed.
End Stacking.

(** C1, as amended. [stackChromosomes] returns [ceil(n/2)] stacks whose
    concatenation is a rearrangement of the input, so every chromosome is
    in exactly one stack; every stack has two chromosomes, but for odd [n]
    the first, which has one. With [s] the input in canonical order: for
    even [n], stack [k] is [[s_k, s_(n-1-k)]]; for odd [n], stack [0] is the
    single [s_0] and stack [k], [1 <= k <= n/2], is [[s_k, s_(n-k)]]. For
    eight chromosomes already in order the result is
    [[c1,c8],[c2,c7],[c3,c6],[c4,c5]]. *)
Theorem stackChromosomes_complementary :
  (∀ l : list Chromosome,
    let s := JS.sort compare_chromosomes l in
    let n := length l in
    ∃ stacks,
      stackChromosomes l = Some stacks ∧
      length stacks = (n + 1) / 2 ∧
      mjoin stacks ≡ₚ l ∧
      (∀ k stack, stacks !! k = Some stack →
         length stack = if decide (n mod 2 = 1 ∧ k = 0) then 1 else 2) ∧
      (n mod 2 = 0 → ∀ k a b, k < n / 2 →
         s !! k = Some a → s !! (n - 1 - k) = Some b →
         stacks !! k = Some [a; b]) ∧
      (n mod 2 = 1 →
         (∀ a, s !! 0 = Some a → stacks !! 0 = Some [a]) ∧
         (∀ k a b, 1 ≤ k ≤ n / 2 →
            s !! k = Some a → s !! (n - k) = Some b →
            stacks !! k = Some [a; b]))) ∧
  (∀ c1 c2 c3 c4 c5 c6 c7 c8 : Chromosome,
    Sorted (JS.before compare_chromosomes) [c1; c2; c3; c4; c5; c6; c7; c8] →
    stackChromosomes [c1; c2; c3; c4; c5; c6; c7; c8]
    = Some [[c1; c8]; [c2; c7]; [c3; c6]; [c4; c5]]).
Proof.
  split.
  - intros l s n.
    destruct (stackChromosomes_entries l) as (stacks & Hrun & Hlen & Hk).
    fold s in Hk. fold n in Hlen, Hk.
    assert (Hs : length s = n) by apply length_sort.
    exists stacks. split; [done|]. split; [done|]. split.
    { unfold stackChromosomes in Hrun.
      apply stack_forEach_Permutation in Hrun as ->. simpl.
      apply sort_Permutation. }
    split.
    { intros k stack Hstack.
      assert (Hlt : k < (n + 1) / 2)
        by (rewrite <- Hlen; by eapply lookup_lt_Some).
      destruct (lookup_lt_is_Some_2 s k) as [a Ha]; [div_lia|].
      rewrite (Hk k a Hlt Ha) in Hstack.
      assert (Hst : stack = a :: option_list (s !! ((n + 1) / 2 * 2 - 1 - k)))
        by congruence.
      rewrite Hst. clear Hst Hstack.
      case_decide as Hfirst.
      - destruct Hfirst as [Hodd ->].
        rewrite lookup_ge_None_2; [done|].
        rewrite Hs, (padded_length_odd n Hodd). lia.
      - destruct (lookup_lt_is_Some_2 s ((n + 1) / 2 * 2 - 1 - k)) as [b ->];
          [div_lia|done]. }
    split.
    + intros Heven k a b Hlt Ha Hb.
      rewrite (Hk k a) by (done || div_lia).
      replace ((n + 1) / 2 * 2 - 1 - k) with (n - 1 - k) by div_lia.
      by rewrite Hb.
    + intros Hodd. split.
      * intros a Ha. rewrite (Hk 0 a) by (done || div_lia).
        rewrite lookup_ge_None_2; [done|]. div_lia.
      * intros k a b Hlt Ha Hb.
        rewrite (Hk k a) by (done || div_lia).
        replace ((n + 1) / 2 * 2 - 1 - k) with (n - k) by div_lia.
        by rewrite Hb.
  - intros c1 c2 c3 c4 c5 c6 c7 c8 Hsorted.
    unfold stackChromosomes. by rewrite (sort_of_Sorted _ _ Hsorted).
Qed.

Lemma stackChromosomes_complementary_witness :
  ∃ stacks,
    stackChromosomes [chr_c; chr_a; chr_b] = Some stacks ∧
    stacks !! 0 = Some [chr_a] ∧ stacks !! 1 = Some [chr_b; chr_c].
Proof.
  destruct (proj1 stackChromosomes_complementary [chr_c; chr_a; chr_b])
    as (stacks & Hrun & _ & _ & _ & _ & Hodd).
  destruct Hodd as [Hfirst Hrest]; [reflexivity|].
  exists stacks. split; [exact Hrun|]. split.
  - apply Hfirst. reflexivity.
  - apply (Hrest 1); [simpl; lia | reflexivity | reflexivity].
Defined.

(** C1 as stated fails for an odd number of chromosomes: of three
    chromosomes in order, the first stands alone and the middle one is
    paired with the last. *)
Lemma stackChromosomes_odd_counterexample :
  let l := [chr_a; chr_b; chr_c] in
  JS.sort compare_chromosomes l = l ∧
  stackChromosomes l = Some [[chr_a]; [chr_b; chr_c]] ∧
  ¬ (∃ stacks,
       stackChromosomes l = Some stacks ∧
       ∀ k a b, k < length l / 2 →
         l !! k = Some a → l !! (length l - 1 - k) = Some b →
         stacks !! k = Some [a; b]).
Proof.
  split; [reflexivity|]. split; [reflexivity|].
  intros (stacks & Hrun & Hk).
  assert (Hrun' : stackChromosomes [chr_a; chr_b; chr_c]
                  = Some [[chr_a]; [chr_b; chr_c]]) by reflexivity.
  rewrite Hrun' in Hrun. injection Hrun as <-.
  specialize (Hk 0 chr_a chr_c).
  discriminate Hk; [simpl; lia | reflexivity | reflexivity].
Qed.

(** ** The canonical order is a total preorder *)

Lemma string_compare_refl (s : string) : String.compare s s = Eq.
Proof.
  pose proof (String.compare_antisym s s) as H.
  by destruct (String.compare s s).
Qed.

Lemma string_compare_lt_trans (a b c : string) :
  String.compare a b = Lt → String.compare b c = Lt → String.compare a c = Lt.
Proof.
  intros Hab Hbc.
  assert (Hle : String.le a c).
  { transitivity b; unfold String.le, String.leb; [by rewrite Hab|by rewrite Hbc]. }
  unfold String.le, String.leb in Hle.
  destruct (String.compare a c) eqn:Hac; [|done..].
  apply String.compare_eq_iff in Hac as ->.
  rewrite String.compare_antisym, Hbc in Hab. done.
Qed.

Lemma compare_le_iff r1 r2 :
  (ChromRegion.compare r1 r2 ≤ 0)%Z ↔
  String.compare (ChromRegion.chr r1) (ChromRegion.chr r2) = Lt ∨
  (ChromRegion.chr r1 = ChromRegion.chr r2 ∧
   (ChromRegion.start r1 < ChromRegion.start r2 ∨
    (ChromRegion.start r1 = ChromRegion.start r2 ∧
     ChromRegion.end_ r1 ≤ ChromRegion.end_ r2)))%Z.
Proof.
  unfold ChromRegion.compare.
  destruct (String.compare _ _) eqn:Hc; simpl.
  - apply String.compare_eq_iff in Hc.
    destruct (Z.compare_spec (ChromRegion.start r1) (ChromRegion.start r2));
      [destruct (Z.compare_spec (ChromRegion.end_ r1) (ChromRegion.end_ r2))|..];
      simpl;
      (split; [intros ?; first [lia | right; split; [done|lia]]
              |intros [?|[_ ?]]; [done|lia]]).
  - split; [by left|lia].
  - split; [lia|]. intros [?|[Heq _]]; [done|].
    rewrite Heq, string_compare_refl in Hc. done.
Qed.

Global Instance before_compare_trans : Transitive (JS.before ChromRegion.compare).
Proof.
  intros r1 r2 r3. unfold JS.before. rewrite !compare_le_iff.
  intros [H12|[E12 H12]] [H23|[E23 H23]].
  - left. by eapply string_compare_lt_trans.
  - left. by rewrite <- E23.
  - left. by rewrite E12.
  - right. split; [congruence|lia].
Qed.

Global Instance before_chromosomes_trans :
  Transitive (JS.before compare_chromosomes).
Proof.
  intros a b c. unfold JS.before, compare_chromosomes.
  apply (before_compare_trans (as_region a) (as_region b) (as_region c)).
Qed.

Lemma StronglySorted_filter {A} (R : relation A) (P : A → Prop)
    `{!∀ x, Decision (P x)} (l : list A) :
  StronglySorted R l → StronglySorted R (filter P l).
Proof.
  induction 1 as [|x l Hl IH Hx]; [constructor|].
  rewrite filter_cons. case_decide; [|done].
  constructor; [done|].
  apply Forall_forall. intros y [_ Hy]%list_elem_of_filter.
  by eapply Forall_forall in Hx.
Qed.

(** ** Filtering *)

(** C2. [filterChromosome] gives the chromosomes in canonical order and
    keeps one exactly when [(includeNonRegular || regular) ||
    (includeMito && mitochondrial)]. A chromosome named [chrM] is not
    regular, and is kept with [includeNonRegular = false] and
    [includeMito = true]. *)
Theorem filterChromosome_union (chromosomes : list Chromosome)
    (includeNonRegular includeMito : bool) :
  let kept := filterChromosome chromosomes includeNonRegular includeMito in
  (∀ c, c ∈ kept ↔
        c ∈ chromosomes ∧
        (includeNonRegular || isRegular c)
        || (includeMito && isMitochondrial c) = true) ∧
  kept `sublist_of` JS.sort compare_chromosomes chromosomes ∧
  StronglySorted (JS.before compare_chromosomes) kept ∧
  (∀ c, name c = "chrM" →
        isRegular c = false ∧
        (c ∈ chromosomes → c ∈ filterChromosome chromosomes false true)).
Proof.
  intros kept. subst kept. unfold filterChromosome.
  split; [|split; [|split]].
  - intros c. rewrite list_elem_of_filter.
    rewrite (sort_Permutation compare_chromosomes chromosomes).
    unfold keepChromosome. tauto.
  - apply sublist_filter.
  - apply StronglySorted_filter, Sorted_StronglySorted; [apply _|].
    apply sort_Sorted, compare_chromosomes_total.
  - intros c Hname. split.
    + unfold isRegular. by rewrite Hname.
    + intros Hin. apply list_elem_of_filter. split.
      * unfold keepChromosome, isMitochondrial. rewrite Hname.
        by rewrite orb_true_r.
      * by rewrite (sort_Permutation compare_chromosomes chromosomes).
Qed.

Lemma filterChromosome_union_witness :
  isRegular chr_mito = false ∧
  chr_mito ∈ filterChromosome [chr_unplaced; chr_mito; chr_a] false true.
Proof.
  destruct (filterChromosome_union [chr_unplaced; chr_mito; chr_a] false true)
    as (_ & _ & _ & Hmito).
  destruct (Hmito chr_mito) as [Hregular Hkept]; [reflexivity|].
  split; [exact Hregular|].
  apply Hkept. apply list_elem_of_further, list_elem_of_here.
Defined.

(** ** Rasterizing *)

Lemma with_data_same_annotation d c : same_annotation c (with_data d c).
Proof. by repeat split. Qed.

Lemma addData_steps_spec label (indices : list Z) :
  ∀ c arr, data c !! label = Some arr → NoDup indices →
    ∃ arr',
      foldl (λ oc i, oc ≫= λ c', addData_step label c' i) (Some c) indices
      = Some (with_data (<[label := arr']> (data c)) c) ∧
      ∀ i, arr' !! i = if decide (i ∈ indices)
                       then Some (Array_get arr i + 1)%Z else arr !! i.
Proof.
  induction indices as [|i0 indices IH]; intros c arr Hlabel Hnodup;
    cbn [foldl mbind option_bind].
  { exists arr. split.
    - rewrite insert_id by done. by destruct c.
    - intros i. rewrite decide_False; [done|]. apply not_elem_of_nil. }
  apply NoDup_cons in Hnodup as [Hi0 Hnodup].
  unfold addData_step at 2. rewrite Hlabel.
  set (arr1 := <[i0 := (Array_get arr i0 + 1)%Z]> arr).
  set (c1 := with_data (<[label := arr1]> (data c)) c).
  destruct (IH c1 arr1) as (arr' & -> & Harr'); [apply lookup_insert_eq|done|].
  exists arr'. split.
  { unfold c1, with_data. simpl. by rewrite insert_insert_eq. }
  intros i. rewrite Harr'. unfold arr1, Array_get.
  destruct (decide (i = i0)) as [->|Hne].
  - rewrite decide_False by done. rewrite lookup_insert_eq.
    rewrite decide_True; [done|]. apply list_elem_of_here.
  - rewrite lookup_insert_ne by done.
    destruct (decide (i ∈ indices)) as [Hin|Hnin].
    + rewrite decide_True; [done|]. by apply list_elem_of_further.
    + rewrite decide_False; [done|]. by intros [?|?]%elem_of_cons.
Qed.

Lemma addData_loop_spec label lo hi c arr :
  data c !! label = Some arr →
  ∃ arr',
    addData_loop label lo hi c = Some (with_data (<[label := arr']> (data c)) c) ∧
    ∀ i, arr' !! i = if decide (lo ≤ i ≤ hi)%Z
                     then Some (Array_get arr i + 1)%Z else arr !! i.
Proof.
  intros Hlabel. unfold addData_loop.
  destruct (addData_steps_spec label (seqZ lo (hi - lo + 1)) c arr)
    as (arr' & -> & Harr'); [done|apply NoDup_seqZ|].
  exists arr'. split; [done|]. intros i. rewrite Harr'.
  destruct (decide (lo ≤ i ≤ hi)%Z).
  - rewrite decide_True; [done|]. apply elem_of_seqZ. lia.
  - rewrite decide_False; [done|]. rewrite elem_of_seqZ. lia.
Qed.

Lemma addData_other_chr dataScale c label bedEntry :
  chr c ≠ ChromRegion.chr bedEntry →
  addData dataScale label bedEntry c = Some c.
Proof. intros Hchr. unfold addData. by rewrite decide_True. Qed.

Lemma addData_same_chr dataScale c label bedEntry arr :
  chr c = ChromRegion.chr bedEntry → data c !! label = Some arr →
  ∃ c' arr',
    addData dataScale label bedEntry c = Some c' ∧
    data c' !! label = Some arr' ∧
    (∀ i, arr' !! i =
          if decide (Math_round_div (ChromRegion.start bedEntry) dataScale ≤ i
                     ≤ Math_round_div (ChromRegion.end_ bedEntry) dataScale)%Z
          then Some (Array_get arr i + 1)%Z else arr !! i) ∧
    (∀ label', label' ≠ label → data c' !! label' = data c !! label') ∧
    same_annotation c c'.
Proof.
  intros Hchr Hlabel. unfold addData. rewrite decide_False by tauto.
  edestruct addData_loop_spec as (arr' & -> & Harr'); [done|].
  eexists _, arr'. split; [done|]. simpl.
  split; [apply lookup_insert_eq|]. split; [done|].
  split; [|apply with_data_same_annotation].
  intros label' Hne. by rewrite lookup_insert_ne.
Qed.

(** C3. [addData] leaves the chromosome as it is for an interval of another
    chromosome. Otherwise, for a label that was initialised, it adds one to
    [data[label][i]] (an absent entry counting as 0) for every [i] from
    [round(start / S)] to [round(end / S)] inclusive, and leaves the other
    entries, the other labels and the rest of the chromosome as they are.
    At scale 100 the interval [(chr1, 250, 350)] increments the bins 3 and
    4 of chr1 and no other. *)
Theorem addData_increments (dataScale : Z) (c : Chromosome) (label : string)
    (bedEntry : ChromRegion.t) :
  (chr c ≠ ChromRegion.chr bedEntry →
   addData dataScale label bedEntry c = Some c) ∧
  (chr c = ChromRegion.chr bedEntry →
   ∀ arr, data c !! label = Some arr →
   ∃ c' arr',
     addData dataScale label bedEntry c = Some c' ∧
     data c' !! label = Some arr' ∧
     (∀ i, arr' !! i =
           if decide (Math_round_div (ChromRegion.start bedEntry) dataScale ≤ i
                      ≤ Math_round_div (ChromRegion.end_ bedEntry) dataScale)%Z
           then Some (Array_get arr i + 1)%Z else arr !! i) ∧
     (∀ label', label' ≠ label → data c' !! label' = data c !! label') ∧
     same_annotation c c') ∧
  (dataScale = 100%Z → bedEntry = ChromRegion.mk "chr1" 250 350 None →
   chr c = "chr1" → is_Some (data c !! label) →
   ∃ c', addData dataScale label bedEntry c = Some c' ∧
     ∀ i, bin c' label i
          = (bin c label i + if decide (i = 3 ∨ i = 4) then 1 else 0)%Z).
Proof.
  split; [apply addData_other_chr|].
  split; [intros; by apply addData_same_chr|].
  intros -> -> Hchr [arr Hlabel].
  destruct (addData_same_chr 100 c label (ChromRegion.mk "chr1" 250 350 None)
              arr Hchr Hlabel) as (c' & arr' & Hrun & Hlabel' & Harr' & _).
  exists c'. split; [done|]. intros i. unfold bin, Array_get at 1.
  rewrite Hlabel', Hlabel, Harr'. simpl.
  change (Math_round_div 250 100) with 3%Z.
  change (Math_round_div 350 100) with 4%Z.
  destruct (decide (3 ≤ i ≤ 4)%Z).
  - rewrite decide_True by lia. done.
  - rewrite decide_False by lia. unfold Array_get. lia.
Qed.

Lemma addData_increments_witness :
  ∃ c', addData 100 "default" (ChromRegion.mk "chr1" 250 350 None) chr1_ready
        = Some c' ∧
    ∀ i, bin c' "default" i
         = (bin chr1_ready "default" i
            + if decide (i = 3 ∨ i = 4) then 1 else 0)%Z.
Proof.
  apply (addData_increments 100 chr1_ready "default"
           (ChromRegion.mk "chr1" 250 350 None));
    [reflexivity | reflexivity | reflexivity | by eexists].
Defined.


Lemma addData_each_spec dataScale label bedEntries :
  ∀ c arr, data c !! label = Some arr →
    ∃ c' arr',
      addData_each dataScale label bedEntries c = Some c' ∧
      data c' !! label = Some arr' ∧
      (∀ i, Array_get arr' i
            = (Array_get arr i + hits dataScale (chr c) bedEntries i)%Z) ∧
      (∀ i, is_Some (arr' !! i) ↔
            is_Some (arr !! i) ∨ (0 < hits dataScale (chr c) bedEntries i)%Z) ∧
      same_annotation c c'.
Proof.
  unfold addData_each.
  induction bedEntries as [|e es IH]; intros c arr Hlabel; cbn [foldl].
  { exists c, arr. split; [done|]. split; [done|]. unfold hits. simpl.
    split; [intros; lia|]. split; [|done]. intros i. intuition lia. }
  cbn [mbind option_bind].
  assert (Hhits : ∀ i, hits dataScale (chr c) (e :: es) i
    = ((if decide (covers dataScale (chr c) i e) then 1 else 0)
       + hits dataScale (chr c) es i)%Z).
  { intros i. unfold hits. rewrite filter_cons.
    destruct (decide (covers _ _ _ _)); simpl; lia. }
  destruct (decide (chr c = ChromRegion.chr e)) as [Hchr|Hchr].
  - destruct (addData_same_chr dataScale c label e arr Hchr Hlabel)
      as (c1 & arr1 & -> & Hlabel1 & Harr1 & _ & Hann).
    destruct (IH c1 arr1 Hlabel1) as (c' & arr' & -> & Hlabel' & Hget & Hkeys & Hann').
    assert (Hc1 : chr c1 = chr c) by apply Hann. rewrite Hc1 in Hget, Hkeys.
    exists c', arr'. split; [done|]. split; [done|].
    split; [|split].
    + intros i. rewrite Hget, Hhits. unfold Array_get at 1. rewrite Harr1.
      unfold covers. repeat case_decide; simpl; try tauto; unfold Array_get; lia.
    + intros i. rewrite Hkeys, Hhits, Harr1.
      pose proof (Nat2Z.is_nonneg
                    (length (filter (covers dataScale (chr c) i) es))) as Hnn.
      fold (hits dataScale (chr c) es i) in Hnn.
      unfold covers. repeat case_decide; try tauto.
      split; [intros _; right; lia|intros _; left; by eexists].
    + unfold same_annotation in *. intuition congruence.
  - rewrite (addData_other_chr dataScale c label e Hchr).
    destruct (IH c arr Hlabel) as (c' & arr' & -> & Hlabel' & Hget & Hkeys & Hann').
    exists c', arr'. split; [done|]. split; [done|].
    assert (Hno : ∀ i, hits dataScale (chr c) (e :: es) i
                       = hits dataScale (chr c) es i).
    { intros i. rewrite Hhits. unfold covers. rewrite decide_False; tauto. }
    split; [|split; [|done]].
    + intros i. by rewrite Hno.
    + intros i. by rewrite Hno.
Qed.

(** C7. From a label that was just initialised, applying [addData] for
    every interval of a list twice, without initialising again, gives in
    every bin exactly twice the count of applying it once. *)
Theorem addData_twice_doubles (dataScale : Z) (c : Chromosome)
    (label : string) (bedEntries : list ChromRegion.t) :
  data c !! label = Some ∅ →
  ∃ c1 c2,
    addData_each dataScale label bedEntries c = Some c1 ∧
    addData_each dataScale label bedEntries c1 = Some c2 ∧
    ∀ i, bin c2 label i = (2 * bin c1 label i)%Z.
Proof.
  intros Hlabel.
  destruct (addData_each_spec dataScale label bedEntries c ∅ Hlabel)
    as (c1 & arr1 & Hrun1 & Hlabel1 & Hget1 & _ & Hann1).
  destruct (addData_each_spec dataScale label bedEntries c1 arr1 Hlabel1)
    as (c2 & arr2 & Hrun2 & Hlabel2 & Hget2 & _ & _).
  exists c1, c2. split; [done|]. split; [done|].
  intros i. unfold bin. rewrite Hlabel1, Hlabel2. simpl.
  rewrite Hget2, Hget1.
  assert (Hc1 : chr c1 = chr c) by apply Hann1. rewrite Hc1.
  unfold Array_get at 1 2. rewrite lookup_empty. simpl. lia.
Qed.

Lemma addData_twice_doubles_witness :
  ∃ c1 c2,
    addData_each 100 "default"
      [ChromRegion.mk "chr1" 250 350 None; ChromRegion.mk "chr1" 300 600 None;
       ChromRegion.mk "chr2" 0 100 None] chr1_ready = Some c1 ∧
    addData_each 100 "default"
      [ChromRegion.mk "chr1" 250 350 None; ChromRegion.mk "chr1" 300 600 None;
       ChromRegion.mk "chr2" 0 100 None] c1 = Some c2 ∧
    ∀ i, bin c2 "default" i = (2 * bin c1 "default" i)%Z.
Proof.
  apply (addData_twice_doubles 100 chr1_ready "default"). reflexivity.
Defined.

(** ** The length of a raster *)

Lemma Array_length_spec (arr : gmap Z Z) :
  (0 ≤ Array_length arr)%Z ∧
  (∀ k, (0 ≤ k)%Z → is_Some (arr !! k) → (k < Array_length arr)%Z) ∧
  (Array_length arr = 0%Z ∨ is_Some (arr !! (Array_length arr - 1)%Z)).
Proof.
  unfold Array_length.
  apply (map_fold_weak_ind (λ len m,
    (0 ≤ len)%Z ∧
    (∀ k, (0 ≤ k)%Z → is_Some (m !! k) → (k < len)%Z) ∧
    (len = 0%Z ∨ is_Some (m !! (len - 1)%Z)))).
  { split; [done|]. split; [|by left].
    intros k _ [x Hx]. by rewrite lookup_empty in Hx. }
  intros i x m len Hfresh (Hnn & Hkeys & Hlast).
  destruct (Z.leb_spec 0 i) as [Hi|Hi].
  - split; [lia|]. split.
    + intros k Hk [y Hy].
      destruct (decide (k = i)) as [->|Hne]; [lia|].
      rewrite lookup_insert_ne in Hy by done.
      specialize (Hkeys k Hk (ex_intro _ y Hy)). lia.
    + right. destruct (Z.max_spec len (i + 1)) as [[Hlt ->]|[Hge ->]].
      * replace (i + 1 - 1)%Z with i by lia. rewrite lookup_insert_eq. by eexists.
      * destruct Hlast as [->|Hlast]; [lia|].
        rewrite lookup_insert_ne; [done|].
        intros Heq. rewrite <- Heq, Hfresh in Hlast. by destruct Hlast.
  - split; [done|]. split.
    + intros k Hk [y Hy]. rewrite lookup_insert_ne in Hy by lia.
      apply Hkeys; [done|by eexists].
    + destruct Hlast as [->|Hlast]; [by left|right].
      rewrite lookup_insert_ne; [done|].
      intros Heq. rewrite <- Heq, Hfresh in Hlast. by destruct Hlast.
Qed.






(** ** Band appearance *)

Lemma take_digits_all ds : all_digits ds = true → JS.take_digits ds = ds.
Proof.
  induction ds as [|c ds IH]; simpl; [done|].
  intros [Hc Hds]%andb_true_iff. by rewrite Hc, IH.
Qed.

Lemma strip_prefix_Some p s rest :
  JS.strip_prefix p s = Some rest ↔ s = p +:+ rest.
Proof.
  revert s. induction p as [|a p IH]; intros s; simpl.
  { split; [by intros [= ->]|by intros ->]. }
  destruct s as [|b s].
  { split; [done|]. intros H. discriminate H. }
  destruct (Ascii.eqb_spec a b) as [->|Hne].
  - rewrite IH. split; [by intros ->|]. by intros [= ->].
  - split; [done|]. intros [= -> _]. done.
Qed.

Lemma digits_prefix_nonneg s acc n :
  (0 ≤ acc)%Z → (0 ≤ (JS.digits_prefix 10 acc n s).1)%Z.
Proof.
  revert acc n. induction s as [|c s IH]; intros acc n Hacc; simpl; [done|].
  destruct (JS.digit_value 10 c) as [dv|] eqn:Hdv; [|done].
  apply IH. unfold JS.digit_value in Hdv.
  repeat case_match; simplify_eq; lia.
Qed.

Lemma digits_value_nonneg ds : (0 ≤ digits_value ds)%Z.
Proof. by apply digits_prefix_nonneg. Qed.

Lemma getCytobandOpacity_default band :
  ¬ named_stain (gieStain band) →
  getCytobandOpacity band =
    match JS.strip_prefix "gpos" (gieStain band) with
    | Some rest =>
        match JS.take_digits rest with
        | EmptyString => 0%Q
        | ds =>
            if Qlt_le_dec (digits_value ds # 100) 0 then 0%Q
            else if Qlt_le_dec 1 (digits_value ds # 100) then 1%Q
            else digits_value ds # 100
        end
    | None => 0%Q
    end.
Proof.
  unfold named_stain, getCytobandOpacity. intros Hnamed.
  by rewrite !decide_False by tauto.
Qed.

Lemma getCytobandOpacity_gpos band d rest :
  JS.is_digit d = true → gieStain band = "gpos" +:+ String d rest →
  gieStain band ≠ "gpos100" →
  let v := digits_value (JS.take_digits (String d rest)) in
  getCytobandOpacity band = if Qlt_le_dec 1 (v # 100) then 1%Q else v # 100.
Proof.
  intros Hd Hstain Hne v. rewrite getCytobandOpacity_default.
  2:{ unfold named_stain. rewrite Hstain in *. intros [?|[?|[?|?]]]; done. }
  apply strip_prefix_Some in Hstain as ->.
  assert (Htake : JS.take_digits (String d rest)
                  = String d (JS.take_digits rest)) by (simpl; by rewrite Hd).
  subst v. rewrite Htake. cbv iota beta zeta. rewrite <- Htake.
  destruct (Qlt_le_dec _ 0%Q) as [Hneg|_]; [|done].
  exfalso. unfold Qlt in Hneg. cbn [Qnum Qden] in Hneg.
  pose proof (digits_value_nonneg (JS.take_digits (String d rest))). lia.
Qed.

Lemma getCytobandOpacity_unrecognized band :
  ¬ named_stain (gieStain band) → ¬ gpos_stain (gieStain band) →
  getCytobandOpacity band = 0%Q.
Proof.
  intros Hnamed Hgpos. rewrite getCytobandOpacity_default by done.
  destruct (JS.strip_prefix _ _) as [rest|] eqn:Hrest; [|done].
  apply strip_prefix_Some in Hrest.
  destruct rest as [|d rest]; [done|]. simpl.
  destruct (JS.is_digit d) eqn:Hd; [|done].
  destruct Hgpos. by exists d, rest.
Qed.

Lemma getCytobandOpacity_range band :
  (0 <= getCytobandOpacity band)%Q ∧ (getCytobandOpacity band <= 1)%Q.
Proof.
  destruct (decide (named_stain (gieStain band))) as [Hnamed|Hnamed].
  { unfold getCytobandOpacity.
    destruct Hnamed as [-> | [-> | [-> | ->]]]; simpl; split; done. }
  rewrite getCytobandOpacity_default by done.
  destruct (JS.strip_prefix _ _) as [rest|]; [|done].
  destruct (JS.take_digits rest) as [|d ds]; [done|]. cbv zeta.
  destruct (Qlt_le_dec _ 0%Q); [done|].
  destruct (Qlt_le_dec 1%Q _); done.
Qed.

Lemma drawBand_hatch overlaps arm band arm' band' :
  BandHatch arm' band' ∈ drawBand overlaps arm band ↔
  arm' = arm ∧ band' = band ∧ overlaps arm band = true ∧
  (gieStain band = "gvar" ∨ gieStain band = "stalk").
Proof.
  unfold drawBand, is_hatched.
  destruct (overlaps arm band).
  2:{ split; [by intros ?%not_elem_of_nil|by intros (_ & _ & ? & _)]. }
  rewrite elem_of_cons.
  destruct (decide (gieStain band = "gvar")) as [Hv|Hv];
    [rewrite (bool_decide_eq_true_2 _ Hv)|rewrite (bool_decide_eq_false_2 _ Hv)];
    simpl.
  { rewrite list_elem_of_singleton. split.
    - intros [?|[= -> ->]]; [done|]. by auto.
    - intros (-> & -> & _). by right. }
  destruct (decide (gieStain band = "stalk")) as [Hs|Hs];
    [rewrite (bool_decide_eq_true_2 _ Hs)|rewrite (bool_decide_eq_false_2 _ Hs)].
  - rewrite list_elem_of_singleton. split.
    + intros [?|[= -> ->]]; [done|]. by auto.
    + intros (-> & -> & _). by right.
  - split.
    + intros [?|?%not_elem_of_nil]; done.
    + intros (_ & _ & _ & [?|?]); done.
Qed.

(** The rule of the stains that begin with [gpos] and a digit. *)
Lemma getCytobandOpacity_prefix band d rest :
  JS.is_digit d = true → gieStain band = "gpos" +:+ String d rest →
  ((digits_value (JS.take_digits (String d rest)) ≤ 100)%Z →
   (getCytobandOpacity band
    == digits_value (JS.take_digits (String d rest)) # 100)%Q) ∧
  ((100 < digits_value (JS.take_digits (String d rest)))%Z →
   getCytobandOpacity band = 1%Q).
Proof.
  intros Hd Hstain.
  destruct (decide (gieStain band = "gpos100")) as [H100|H100].
  { rewrite H100 in Hstain.
    apply (inj (String.app "gpos") "100" (String d rest)) in Hstain as <-.
    unfold getCytobandOpacity. rewrite H100. simpl. split; [done|].
    cbv. done. }
  rewrite (getCytobandOpacity_gpos band d rest Hd Hstain H100). cbv zeta.
  destruct (Qlt_le_dec 1%Q _) as [Hgt|Hle];
    unfold Qlt, Qle in *; cbn [Qnum Qden] in *; split; intros; (done || lia).
Qed.

(** C9, as amended. The opacity of a band is 0 for [gneg]; 1 for
    [gpos100] and [gvar]; 0.75 for [stalk]; for a stain that begins with
    [gpos] and a digit, whatever follows the digits, [NN/100] and 1 above
    100, for the number [NN] that the leading digits make, and so for
    [gpos] followed by the number [NN] alone; and 0 for a stain that is
    none of these; it is always in [0, 1]. Among the bands that an arm
    draws, those with the stain [gvar] or [stalk], and no other, get the
    hatch rectangle, right after their fill. *)
Theorem getCytobandOpacity_table
    (overlaps : ChromRegion.t → ChromRegion.t → bool)
    (c : Chromosome) (arm : ChromRegion.t) (band : Cytoband) :
  (gieStain band = "gneg" → getCytobandOpacity band = 0%Q) ∧
  (∀ d rest, JS.is_digit d = true → gieStain band = "gpos" +:+ String d rest →
     ((digits_value (JS.take_digits (String d rest)) ≤ 100)%Z →
      (getCytobandOpacity band
       == digits_value (JS.take_digits (String d rest)) # 100)%Q) ∧
     ((100 < digits_value (JS.take_digits (String d rest)))%Z →
      getCytobandOpacity band = 1%Q)) ∧
  (∀ ds, ds ≠ "" → all_digits ds = true → gieStain band = "gpos" +:+ ds →
     ((digits_value ds ≤ 100)%Z →
      (getCytobandOpacity band == digits_value ds # 100)%Q) ∧
     ((100 < digits_value ds)%Z → getCytobandOpacity band = 1%Q)) ∧
  (gieStain band = "gpos100" ∨ gieStain band = "gvar" →
   getCytobandOpacity band = 1%Q) ∧
  (gieStain band = "stalk" → getCytobandOpacity band = (3 # 4)%Q) ∧
  (¬ named_stain (gieStain band) → ¬ gpos_stain (gieStain band) →
   getCytobandOpacity band = 0%Q) ∧
  ((0 <= getCytobandOpacity band)%Q ∧ (getCytobandOpacity band <= 1)%Q) ∧
  (drawBand overlaps arm band =
     if overlaps arm band then
       BandFill arm band (getCytobandOpacity band)
         :: (if decide (gieStain band = "gvar" ∨ gieStain band = "stalk")
             then [BandHatch arm band] else [])
     else []) ∧
  (∀ arm' band',
     BandHatch arm' band' ∈ drawArm overlaps c arm ↔
     arm' = arm ∧ band' ∈ bands c ∧ overlaps arm band' = true ∧
     (gieStain band' = "gvar" ∨ gieStain band' = "stalk")).
Proof.
  split; [|split; [|split; [|split; [|split; [|split; [|split; [|split]]]]]]].
  - intros Hs. unfold getCytobandOpacity. by rewrite Hs.
  - apply getCytobandOpacity_prefix.
  - intros ds Hne Hall Hstain.
    destruct ds as [|d rest]; [done|].
    apply andb_true_iff in Hall as Hd. destruct Hd as [Hd _].
    rewrite <- (take_digits_all _ Hall).
    by apply getCytobandOpacity_prefix.
  - unfold getCytobandOpacity. by intros [-> | ->].
  - unfold getCytobandOpacity. by intros ->.
  - apply getCytobandOpacity_unrecognized.
  - apply getCytobandOpacity_range.
  - unfold drawBand, is_hatched. destruct (overlaps arm band); [|done].
    f_equal.
    destruct (decide (gieStain band = "gvar")) as [Hv|Hv];
      [rewrite (bool_decide_eq_true_2 _ Hv), decide_True by tauto; done|].
    rewrite (bool_decide_eq_false_2 _ Hv).
    destruct (decide (gieStain band = "stalk")) as [Hs|Hs].
    + by rewrite (bool_decide_eq_true_2 _ Hs), decide_True by tauto.
    + by rewrite (bool_decide_eq_false_2 _ Hs), decide_False by tauto.
  - intros arm' band'. unfold drawArm.
    rewrite !elem_of_app, list_elem_of_join, !elem_of_cons.
    split.
    + intros [[?|[?|?%not_elem_of_nil]]|[(ops & Hin & Hops)|[?|?%not_elem_of_nil]]];
        try done.
      apply list_elem_of_fmap in Hops as (b & -> & Hb).
      apply drawBand_hatch in Hin as (-> & -> & ? & ?). done.
    + intros (-> & Hb & Hov & Hst). right. left.
      exists (drawBand overlaps arm band'). split.
      * by apply drawBand_hatch.
      * apply list_elem_of_fmap. by exists band'.
Qed.

Lemma getCytobandOpacity_table_witness :
  (getCytobandOpacity (mkCytoband (ChromRegion.mk "chr1" 0 100 None) "gpos75x")
   == 75 # 100)%Q.
Proof.
  destruct (getCytobandOpacity_table (λ _ _, true) chr_a (as_region chr_a)
              (mkCytoband (ChromRegion.mk "chr1" 0 100 None) "gpos75x"))
    as (_ & Hgpos & _).
  destruct (Hgpos "7"%char "5x") as [Hle _]; [reflexivity | reflexivity |].
  apply Hle. vm_compute. discriminate.
Defined.

(** C9 as stated fails: the stains [gpos50x], [gpos7.5] and [gpos100x] are
    none of the stains of the table and are not [gpos] followed by a
    number, and their opacities are 1/2, 7/100 and 1, not 0. *)
Lemma getCytobandOpacity_counterexample :
  (getCytobandOpacity (mkCytoband (ChromRegion.mk "chr1" 0 100 None) "gpos50x")
   == 1 # 2)%Q ∧
  (getCytobandOpacity (mkCytoband (ChromRegion.mk "chr1" 0 100 None) "gpos7.5")
   == 7 # 100)%Q ∧
  (getCytobandOpacity (mkCytoband (ChromRegion.mk "chr1" 0 100 None) "gpos100x")
   == 1)%Q ∧
  ¬ (∀ band,
       ¬ named_stain (gieStain band) →
       (∀ ds, all_digits ds = true → gieStain band ≠ "gpos" +:+ ds) →
       getCytobandOpacity band = 0%Q).
Proof.
  split; [by vm_compute|]. split; [by vm_compute|]. split; [by vm_compute|].
  intros H.
  specialize (H (mkCytoband (ChromRegion.mk "chr1" 0 100 None) "gpos50x")).
  assert (Hzero : getCytobandOpacity
                    (mkCytoband (ChromRegion.mk "chr1" 0 100 None) "gpos50x")
                  = 0%Q); [|by vm_compute in Hzero].
  apply H.
  - unfold named_stain. simpl. intros [?|[?|[?|?]]]; done.
  - intros ds Hall Hds. simpl in Hds.
    apply (inj (String.app "gpos") "50x" ds) in Hds. subst ds. done.
Qed.

(** ** Empty datasets *)

Lemma loadBedFiles_empty_as_failed dataScale params before after :
  ∀ index chromosomes w,
    loadBedFiles dataScale params (before ++ Some "" :: after) index
                 chromosomes w
    = loadBedFiles dataScale params (before ++ None :: after) index
                   chromosomes w.
Proof.
  induction before as [|bedFile before IH]; intros index chromosomes w; [done|].
  cbn [app loadBedFiles].
  destruct (addBedData _ _ _ _ _) as [[w1 result]|]; [|done].
  cbn [mbind option_bind]. by rewrite IH.
Qed.

(** C10. For the empty string [addBedData] returns [null] as it does for a
    file that could not be read: no label is initialised, the chromosomes
    stay as they are, and [drawGenomePlot] does not count the dataset: the
    chromosomes and the height of an entry are those that the same list of
    files gives with a failed read in its place. *)
Theorem addBedData_empty (dataScale : Z) (label : string)
    (chromosomes : list nat) (w : World) (params : Params) :
  addBedData dataScale (Some "") label chromosomes w = Some (w, false) ∧
  addBedData dataScale (Some "") label chromosomes w
  = addBedData dataScale None label chromosomes w ∧
  (∀ rest index,
     loadBedFiles dataScale params (Some "" :: rest) index chromosomes w
     = loadBedFiles dataScale params rest (S index) chromosomes w) ∧
  (∀ before after index,
     loadBedFiles dataScale params (before ++ Some "" :: after) index
                  chromosomes w
     = loadBedFiles dataScale params (before ++ None :: after) index
                    chromosomes w) ∧
  (∀ before after,
     drawGenomePlot_entryHeight dataScale params (before ++ Some "" :: after)
       chromosomes w
     = drawGenomePlot_entryHeight dataScale params (before ++ None :: after)
         chromosomes w).
Proof.
  split; [done|]. split; [done|]. split; [|split].
  - intros rest index. cbn [loadBedFiles addBedData mbind option_bind].
    by destruct (loadBedFiles _ _ rest _ _ _) as [[? ?]|].
  - intros. apply loadBedFiles_empty_as_failed.
  - intros. unfold drawGenomePlot_entryHeight.
    by rewrite loadBedFiles_empty_as_failed.
Qed.

(** ** Cytobands and the centromere *)

Implicit Types (cytoband : Cytoband) (c : Chromosome).

Lemma addCytoband_fields cytoband c :
  store (addCytoband cytoband c) = store_after cytoband c ∧
  centromere (addCytoband cytoband c) = centromere_after cytoband c ∧
  cytobands (addCytoband cytoband c)
  = JS.sort (compare_refs (store_after cytoband c))
            (cytobands c ++ [length (store c)]) ∧
  end_ (addCytoband cytoband c) = Z.max (end_ c) (ChromRegion.end_ cytoband) ∧
  chr (addCytoband cytoband c) = chr c ∧
  start (addCytoband cytoband c) = start c ∧
  name (addCytoband cytoband c) = name c ∧
  data (addCytoband cytoband c) = data c.
Proof.
  unfold addCytoband, store_after, centromere_after.
  assert (Hend : (if (end_ c <? ChromRegion.end_ cytoband)%Z
                  then ChromRegion.end_ cytoband else end_ c)
                 = Z.max (end_ c) (ChromRegion.end_ cytoband)).
  { destruct (Z.ltb_spec (end_ c) (ChromRegion.end_ cytoband)); lia. }
  destruct (decide (gieStain cytoband = "acen")); [destruct (centromere c)|];
    simpl; rewrite Hend; done.
Qed.

Lemma length_store_after cytoband c :
  length (store_after cytoband c) = S (length (store c)).
Proof.
  unfold store_after.
  destruct (decide _); [destruct (centromere c)|];
    rewrite ?length_alter, length_app; simpl; lia.
Qed.

Lemma deref_seq (st : list Cytoband) : deref st <$> seq 0 (length st) = st.
Proof.
  apply list_eq. intros i. rewrite list_lookup_fmap.
  destruct (st !! i) as [b|] eqn:Hb.
  - rewrite lookup_seq_lt by (by eapply lookup_lt_Some). simpl.
    unfold deref. by rewrite (list_lookup_total_correct _ _ _ Hb).
  - rewrite lookup_seq_ge; [done|]. by apply lookup_ge_None.
Qed.

(** The bands of the array are the bands of the store. *)
Lemma bands_store c : well_formed c → bands c ≡ₚ store c.
Proof.
  intros [Hperm _]. unfold bands. rewrite Hperm. by rewrite deref_seq.
Qed.

Lemma addCytoband_well_formed cytoband c :
  well_formed c → well_formed (addCytoband cytoband c).
Proof.
  intros [Hperm Hcen]. unfold well_formed.
  destruct (addCytoband_fields cytoband c) as (-> & -> & -> & _).
  rewrite length_store_after. split.
  - rewrite sort_Permutation, Hperm, seq_S. done.
  - unfold centromere_after. intros k.
    destruct (decide _); [destruct (centromere c) as [k'|] eqn:Hk|].
    + intros [= <-]. specialize (Hcen k' eq_refl). lia.
    + intros [= <-]. lia.
    + intros Hk. specialize (Hcen k Hk). lia.
Qed.

Lemma addCytoband_sorted cytoband c :
  StronglySorted band_before (bands (addCytoband cytoband c)).
Proof.
  unfold bands.
  destruct (addCytoband_fields cytoband c) as (-> & _ & -> & _).
  apply Sorted_StronglySorted.
  { intros x y z. apply before_compare_trans. }
  apply (Sorted_fmap _ (JS.before (compare_refs (store_after cytoband c)))).
  { done. }
  apply sort_Sorted, compare_refs_total.
Qed.

Lemma store_after_bound cytoband c :
  Forall (λ b : Cytoband, (ChromRegion.end_ b ≤ end_ c)%Z) (store c) →
  Forall (λ b : Cytoband,
            (ChromRegion.end_ b ≤ Z.max (end_ c) (ChromRegion.end_ cytoband))%Z)
         (store_after cytoband c).
Proof.
  intros Hstore.
  assert (Happ : Forall (λ b : Cytoband,
            (ChromRegion.end_ b ≤ Z.max (end_ c) (ChromRegion.end_ cytoband))%Z)
            (store c ++ [cytoband])).
  { apply Forall_app. split.
    - eapply Forall_impl; [done|]. simpl. lia.
    - repeat constructor. lia. }
  unfold store_after.
  destruct (decide _); [destruct (centromere c)|]; try done.
  apply Forall_alter; [done|]. intros b _ Hb. simpl. lia.
Qed.

(** C8. A new chromosome has the invariant, and [addCytoband] keeps it:
    the bands of the array are in canonical order and none ends after the
    chromosome; the length becomes the larger of the length and the end of
    the new band, so it never decreases. *)
Theorem addCytoband_invariant (cytoband : Cytoband) (c : Chromosome) :
  (∀ name size, Chromosome_invariant (newChromosome name size)) ∧
  (Chromosome_invariant c → Chromosome_invariant (addCytoband cytoband c)) ∧
  StronglySorted band_before (bands (addCytoband cytoband c)) ∧
  end_ (addCytoband cytoband c) = Z.max (end_ c) (ChromRegion.end_ cytoband) ∧
  (end_ c ≤ end_ (addCytoband cytoband c))%Z.
Proof.
  split; [|split; [|split; [|split]]].
  - intros name size. split; [split; [done|done]|]. split; [constructor|].
    intros b Hb. by apply not_elem_of_nil in Hb.
  - intros (Hwf & _ & Hbound).
    split; [by apply addCytoband_well_formed|].
    split; [apply addCytoband_sorted|].
    intros b Hb.
    rewrite (bands_store _ (addCytoband_well_formed cytoband c Hwf)) in Hb.
    destruct (addCytoband_fields cytoband c) as (Hs & _ & _ & -> & _).
    rewrite Hs in Hb.
    assert (Hstore : Forall (λ b : Cytoband, (ChromRegion.end_ b ≤ end_ c)%Z)
                            (store c)).
    { apply Forall_forall. intros b' Hb'. apply Hbound.
      by rewrite (bands_store c Hwf). }
    pose proof (store_after_bound cytoband c Hstore) as Hafter.
    by eapply Forall_forall in Hafter.
  - apply addCytoband_sorted.
  - apply addCytoband_fields.
  - destruct (addCytoband_fields cytoband c) as (_ & _ & _ & -> & _). lia.
Qed.

Lemma addCytoband_invariant_witness :
  Chromosome_invariant (addCytoband band_q (newChromosome "chr1" 1000)).
Proof.
  destruct (addCytoband_invariant band_q (newChromosome "chr1" 1000))
    as (Hnew & Hkeep & _).
  apply Hkeep, Hnew.
Defined.

Lemma max_end_spec bs : ∀ m,
  (m ≤ max_end m bs)%Z ∧
  Forall (λ b : Cytoband, (ChromRegion.end_ b ≤ max_end m bs)%Z) bs ∧
  (max_end m bs = m ∨
   ∃ b : Cytoband, b ∈ bs ∧ max_end m bs = ChromRegion.end_ b).
Proof.
  unfold max_end.
  induction bs as [|b bs IH]; intros m; simpl.
  { split; [lia|]. split; [constructor|by left]. }
  destruct (IH (Z.max m (ChromRegion.end_ b))) as (Hle & Hall & Hex).
  split; [lia|]. split; [constructor; [lia|done]|].
  destruct Hex as [Heq|(b' & Hb' & Heq)].
  - destruct (Z.max_spec m (ChromRegion.end_ b)) as [[_ Hm]|[_ Hm]];
      rewrite Hm in *.
    + right. exists b. split; [apply list_elem_of_here|done].
    + by left.
  - right. exists b'. split; [by apply list_elem_of_further|done].
Qed.

(** Once there is a centromere, later bands leave its start and extend its
    end over the [acen] bands among them. *)
Lemma centromere_kept bs : ∀ c k,
  centromere c = Some k → k < length (store c) →
  centromere (addCytobands bs c) = Some k ∧
  ChromRegion.start (deref (store (addCytobands bs c)) k)
  = ChromRegion.start (deref (store c) k) ∧
  ChromRegion.end_ (deref (store (addCytobands bs c)) k)
  = max_end (ChromRegion.end_ (deref (store c) k)) (filter is_acen bs).
Proof.
  unfold addCytobands, max_end.
  induction bs as [|b bs IH]; intros c k Hcen Hk; cbn [foldl]; [done|].
  destruct (addCytoband_fields b c) as (Hstore & Hcen1 & _).
  assert (Hk1 : k < length (store (addCytoband b c))).
  { rewrite Hstore, length_store_after. lia. }
  assert (Hcen1' : centromere (addCytoband b c) = Some k).
  { rewrite Hcen1. unfold centromere_after. rewrite Hcen. by destruct (decide _). }
  destruct (IH (addCytoband b c) k Hcen1' Hk1) as (-> & -> & ->).
  split; [done|]. rewrite Hstore. unfold store_after, deref. rewrite Hcen.
  rewrite filter_cons. unfold is_acen at 2 4.
  destruct (decide (gieStain b = "acen")).
  - rewrite list_lookup_total_alter.
    rewrite decide_True by (rewrite length_app; simpl; lia).
    rewrite lookup_total_app_l by done. done.
  - rewrite lookup_total_app_l by done. done.
Qed.

Lemma centromere_first bs : ∀ c,
  centromere c = None →
  match filter is_acen bs with
  | [] => centromere (addCytobands bs c) = None
  | first :: others =>
      ∃ k, centromere (addCytobands bs c) = Some k ∧
        ChromRegion.start (deref (store (addCytobands bs c)) k)
        = ChromRegion.start first ∧
        ChromRegion.end_ (deref (store (addCytobands bs c)) k)
        = max_end (ChromRegion.end_ first) others
  end.
Proof.
  induction bs as [|b bs IH]; intros c Hcen; [done|].
  rewrite filter_cons.
  destruct (addCytoband_fields b c) as (Hstore & Hcen1 & _).
  unfold centromere_after, store_after in *. rewrite Hcen in *.
  change (addCytobands (b :: bs) c) with (addCytobands bs (addCytoband b c)).
  destruct (decide (is_acen b)) as [Hb|Hb]; unfold is_acen in Hb.
  - rewrite decide_True in Hstore by done.
    rewrite decide_True in Hcen1 by done.
    destruct (centromere_kept bs (addCytoband b c) (length (store c)))
      as (Hk & Hstart & Hend);
      [done | rewrite Hstore, length_app; simpl; lia |].
    exists (length (store c)). split; [done|].
    rewrite Hstart, Hend, Hstore. unfold deref.
    rewrite lookup_total_app_r, Nat.sub_diag by done. done.
  - rewrite decide_False in Hcen1 by done. by apply IH.
Qed.

(** C5. On a chromosome without a centromere, the first [acen] band that
    is added becomes the centromere and every later [acen] band extends
    its end and leaves its start: after the calls, the start of the
    centromere is the start of the first [acen] band and its end is the
    largest end of the [acen] bands, in whatever order they came. Without
    an [acen] band there is no centromere. *)
Theorem centromere_merge (c : Chromosome) (bs : list Cytoband) :
  centromere c = None →
  match filter is_acen bs with
  | [] => centromere_band (addCytobands bs c) = None
  | first :: others =>
      ∃ cen, centromere_band (addCytobands bs c) = Some cen ∧
        ChromRegion.start cen = ChromRegion.start first ∧
        (∀ b : Cytoband, b ∈ first :: others →
                         (ChromRegion.end_ b ≤ ChromRegion.end_ cen)%Z) ∧
        (∃ b : Cytoband, b ∈ first :: others ∧
                         ChromRegion.end_ cen = ChromRegion.end_ b)
  end.
Proof.
  intros Hcen. pose proof (centromere_first bs c Hcen) as H.
  unfold centromere_band.
  destruct (filter is_acen bs) as [|first others]; [by rewrite H|].
  destruct H as (k & -> & Hstart & Hend). simpl.
  eexists. split; [done|]. split; [done|]. rewrite Hend.
  destruct (max_end_spec others (ChromRegion.end_ first)) as (Hle & Hall & Hex).
  split.
  - intros b [->|Hb]%elem_of_cons; [done|].
    by eapply Forall_forall in Hall.
  - destruct Hex as [->|(b & Hb & ->)].
    + exists first. split; [apply list_elem_of_here|done].
    + exists b. split; [by apply list_elem_of_further|done].
Qed.

Lemma centromere_merge_witness :
  ∃ cen,
    centromere_band
      (addCytobands [band_p; band_cen; band_q; band_cen_early]
                    (newChromosome "chr1" 1000)) = Some cen ∧
    ChromRegion.start cen = 100%Z ∧ ChromRegion.end_ cen = 120%Z.
Proof.
  destruct (centromere_merge (newChromosome "chr1" 1000)
              [band_p; band_cen; band_q; band_cen_early] eq_refl)
    as (cen & Hcen & Hstart & Hle & b & Hb & Hend).
  exists cen. split; [exact Hcen|]. split; [exact Hstart|].
  pose proof (Hle band_cen (list_elem_of_here _ _)) as Hge.
  apply elem_of_cons in Hb as [->|Hb]; [exact Hend|].
  apply list_elem_of_singleton in Hb as ->.
  rewrite Hend in Hge. exfalso. revert Hge. vm_compute. intros H. by apply H.
Defined.

(** ** The arms of a chromosome *)

Lemma addCytobands_start bs : ∀ c, start (addCytobands bs c) = start c.
Proof.
  unfold addCytobands.
  induction bs as [|b bs IH]; intros c; cbn [foldl]; [done|].
  rewrite IH. apply addCytoband_fields.
Qed.

(** C4. [drawSelf] works in one of three ways. With cytobands and a
    centromere it draws two arms, from the start of the chromosome to the
    start of the centromere and from the end of the centromere to the end
    of the chromosome. With cytobands and no centromere it draws one arm,
    the whole chromosome. Without cytobands it draws no arm, only the bar.
    The start of a chromosome made by the constructor and [addCytoband] is
    0; a chromosome of length 1000 with the one [acen] band from 100 to 120
    has the arms from 0 to 100 and from 120 to 1000. *)
Theorem drawSelf_modes (overlaps : ChromRegion.t → ChromRegion.t → bool)
    (c : Chromosome) :
  (cytobands c ≠ [] → ∀ cen, centromere_band c = Some cen →
   let arm_1 := ChromRegion.mk (chr c) (start c) (ChromRegion.start cen)
                  (Some (name c +:+ "_arm_1")) in
   let arm_2 := ChromRegion.mk (chr c) (ChromRegion.end_ cen) (end_ c)
                  (Some (name c +:+ "_arm_2")) in
   drawSelf_arms c = Some [arm_1; arm_2] ∧
   drawSelf overlaps c = drawArm overlaps c arm_1 ++ drawArm overlaps c arm_2) ∧
  (cytobands c ≠ [] → centromere_band c = None →
   drawSelf_arms c = Some [as_region c] ∧
   drawSelf overlaps c = drawArm overlaps c (as_region c)) ∧
  (cytobands c = [] →
   drawSelf_arms c = None ∧ drawSelf overlaps c = [ChromosomeBar (end_ c)]) ∧
  (∀ name size bs, start (addCytobands bs (newChromosome name size)) = 0%Z) ∧
  drawSelf_arms
    (addCytoband (mkCytoband (ChromRegion.mk "chr1" 100 120 None) "acen")
                 (newChromosome "chr1" 1000))
  = Some [ChromRegion.mk "chr1" 0 100 (Some "chr1_arm_1");
          ChromRegion.mk "chr1" 120 1000 (Some "chr1_arm_2")].
Proof.
  split; [|split; [|split; [|split]]].
  - intros Hbands cen Hcen arm_1 arm_2.
    assert (Harms : drawSelf_arms c = Some [arm_1; arm_2]).
    { unfold drawSelf_arms. rewrite Hcen.
      rewrite decide_True; [done|]. by destruct (cytobands c). }
    split; [done|]. unfold drawSelf. rewrite Harms. simpl.
    by rewrite app_nil_r.
  - intros Hbands Hcen.
    assert (Harms : drawSelf_arms c = Some [as_region c]).
    { unfold drawSelf_arms. rewrite Hcen.
      rewrite decide_True; [done|]. by destruct (cytobands c). }
    split; [done|]. unfold drawSelf. rewrite Harms. simpl.
    by rewrite app_nil_r.
  - intros Hbands.
    assert (Harms : drawSelf_arms c = None).
    { unfold drawSelf_arms. rewrite Hbands. done. }
    split; [done|]. unfold drawSelf. by rewrite Harms.
  - intros name size bs. by rewrite addCytobands_start.
  - reflexivity.
Qed.

Lemma drawSelf_modes_witness :
  drawSelf_arms (addCytobands [band_p; band_cen; band_q]
                              (newChromosome "chr1" 1000))
  = Some [ChromRegion.mk "chr1" 0 100 (Some "chr1_arm_1");
          ChromRegion.mk "chr1" 120 1200 (Some "chr1_arm_2")].
Proof.
  destruct (drawSelf_modes (λ _ _, true)
              (addCytobands [band_p; band_cen; band_q]
                            (newChromosome "chr1" 1000)))
    as (Htwo & _).
  apply (Htwo ltac:(discriminate) band_cen). reflexivity.
Defined.

(** The same arms from a cytoband file: three bands of chr1, the middle
    one [acen], the last one ending at 1000. *)
Example cytoband_file_arms :
  (λ '(chromosomes, w), drawSelf_arms <$> objects_of w chromosomes)
     <$> parseCytobandIdeoFile
           ("chr1 0 100 p11 gneg" +:+ LF +:+ "chr1 100 120 cen acen" +:+ LF
            +:+ "chr1 120 1000 q11 gpos50") [] new_world
  = Some [Some [ChromRegion.mk "chr1" 0 100 (Some "chr1_arm_1");
                ChromRegion.mk "chr1" 120 1000 (Some "chr1_arm_2")]].
Proof. vm_compute. reflexivity. Qed.

(** A chromosome of a sizes file has no cytoband and is drawn as a bar. *)
Example sizes_file_bar :
  (λ '(chromosomes, w), drawSelf (λ _ _, true) <$> objects_of w chromosomes)
     <$> parseChromSizeFile ("chr1 1000" +:+ LF +:+ "chr2 500") [] new_world
  = Some [[ChromosomeBar 1000]; [ChromosomeBar 500]].
Proof. vm_compute. reflexivity. Qed.

(** Numbered and other chromosomes are stacked apart. *)
Example getStackedChromosomes_groups :
  (map (map name)
     <$> getStackedChromosomes
           (flip newChromosome 1000%Z <$> ["chr1"; "chr2"; "chr3"; "chrX"; "chrY"]))
  = Some [["chr1"]; ["chr2"; "chr3"]; ["chrX"; "chrY"]].
Proof. vm_compute. reflexivity. Qed.

(** * Further properties *)

(** ** Folds that may stop *)

Lemma foldl_bind_None {A B} (f : A → B → option A) (l : list B) :
  foldl (λ acc x, acc ≫= λ a, f a x) None l = None.
Proof. by induction l. Qed.

Lemma foldl_bind_snoc {A B} (f : A → B → option A) (l : list B) x a0 :
  foldl (λ acc x, acc ≫= λ a, f a x) (Some a0) (l ++ [x])
  = foldl (λ acc x, acc ≫= λ a, f a x) (Some a0) l ≫= λ a, f a x.
Proof. by rewrite foldl_app. Qed.

(** An invariant of the part of the input that was read holds at the end. *)
Lemma foldl_bind_ind {A B} (f : A → B → option A) (P : list B → A → Prop) a0 :
  P [] a0 →
  (∀ done x a a', P done a → f a x = Some a' → P (done ++ [x]) a') →
  ∀ l a', foldl (λ acc x, acc ≫= λ a, f a x) (Some a0) l = Some a' → P l a'.
Proof.
  intros Hnil Hstep l. induction l as [|x l IH] using rev_ind; intros a'.
  { by intros [= <-]. }
  rewrite foldl_bind_snoc.
  destruct (foldl _ _ l) as [a|] eqn:Hl; [|done]. simpl.
  intros Hx. by eapply Hstep; [apply IH|].
Qed.

(** A fold whose every step succeeds from a state with the invariant ends
    in a state with the invariant. *)
Lemma foldl_bind_total {A B} (f : A → B → option A) (P : list B → A → Prop) a0 :
  P [] a0 →
  (∀ done x a, P done a → ∃ a', f a x = Some a' ∧ P (done ++ [x]) a') →
  ∀ l, ∃ a', foldl (λ acc x, acc ≫= λ a, f a x) (Some a0) l = Some a' ∧ P l a'.
Proof.
  intros Hnil Hstep l. induction l as [|x l IH] using rev_ind.
  { by exists a0. }
  destruct IH as (a & Hl & Ha). rewrite foldl_bind_snoc, Hl. simpl.
  by apply Hstep.
Qed.

(** ** The shared index *)

Lemma has_chromosome_true w key :
  has_chromosome w key = true ↔ key ∈ own_keys ∨ is_Some (index w !! key).
Proof.
  unfold has_chromosome.
  by rewrite orb_true_iff, !bool_decide_eq_true.
Qed.

Lemma has_chromosome_false w key :
  has_chromosome w key = false ↔ (key ∉ own_keys) ∧ index w !! key = None.
Proof.
  unfold has_chromosome.
  rewrite orb_false_iff, !bool_decide_eq_false, <- eq_None_not_Some. done.
Qed.

Lemma hasOwnProperty_Some w key known :
  hasOwnProperty w key = Some known ↔
  index w !! "hasOwnProperty" = None ∧ has_chromosome w key = known.
Proof.
  unfold hasOwnProperty. case_bool_decide as Hhidden.
  - split; [done|]. intros [Hnone _]. rewrite Hnone in Hhidden.
    by destruct Hhidden.
  - apply eq_None_not_Some in Hhidden. split.
    + by intros [= <-].
    + by intros [_ ->].
Qed.

Lemma call_on_Some key method w w' :
  call_on key method w = Some w' ↔
  (key ∉ own_keys) ∧
  ∃ a c c', index w !! key = Some a ∧ heap w !! a = Some c ∧
            method c = Some c' ∧
            w' = mkWorld (<[a := c']> (heap w)) (index w).
Proof.
  unfold call_on. case_bool_decide as Hown.
  { split; [done|]. by intros [? _]. }
  split.
  - destruct (index w !! key) as [a|] eqn:Ha; [|done]. simpl.
    destruct (heap w !! a) as [c|] eqn:Hc; [|done]. simpl.
    destruct (method c) as [c'|] eqn:Hrun; [|done]. simpl.
    intros [= <-]. split; [done|]. by exists a, c, c'.
  - intros (_ & a & c & c' & Ha & Hc & Hrun & ->).
    rewrite Ha. simpl. rewrite Hc. simpl. by rewrite Hrun.
Qed.

Lemma push_chromosome_Some key size chromosomes w chromosomes' w' :
  push_chromosome key size chromosomes w = Some (chromosomes', w') ↔
  (key ∉ unsettable_keys) ∧
  chromosomes' = chromosomes ++ [length (heap w)] ∧
  w' = mkWorld (heap w ++ [newChromosome key size])
               (<[key := length (heap w)]> (index w)).
Proof.
  unfold push_chromosome. case_bool_decide as Hkey.
  { split; [done|]. by intros [? _]. }
  split.
  - by intros [= <- <-].
  - by intros (_ & -> & ->).
Qed.

(** ** The chromosome sizes *)

(** X1. [parseChromSizeFile] makes new chromosomes at the end of the heap,
    puts them at the end of the array in this order, and changes no
    chromosome and no entry of the index. A line whose name the index has,
    [length] and [name] among them, is passed over, whatever the array
    holds; so the new chromosomes have distinct names that the index did
    not have, each has the size of the first line of its name, no band and
    no data, and is in the index under its name. After the call the index
    has the name of every line. *)
Theorem parseChromSizeFile_first_wins (fileContent : string)
    (chromosomes chromosomes' : list nat) (w w' : World) :
  parseChromSizeFile fileContent chromosomes w = Some (chromosomes', w') →
  ∃ new : list Chromosome,
    heap w' = heap w ++ new ∧
    chromosomes' = chromosomes ++ seq (length (heap w)) (length new) ∧
    NoDup (name <$> new) ∧
    (∀ key a, index w' !! key = Some a ↔
       index w !! key = Some a ∨
       ∃ i c, new !! i = Some c ∧ name c = key ∧ a = length (heap w) + i) ∧
    (∀ line, line ∈ file_lines fileContent →
       has_chromosome w' (first_token (line_tokens line)) = true) ∧
    (∀ c, c ∈ new →
       bare c ∧ has_chromosome w (name c) = false ∧
       ∃ before line after,
         file_lines fileContent = before ++ line :: after ∧
         first_token (line_tokens line) = name c ∧
         (∀ l, l ∈ before → first_token (line_tokens l) ≠ name c) ∧
         JS.parseInt_at (line_tokens line) 1 = Some (end_ c)).
Proof.
  unfold parseChromSizeFile. revert chromosomes' w'.
  cut (∀ state,
    foldl (λ acc line, acc ≫= λ state, parseChromSizeFile_line state line)
          (Some (chromosomes, w)) (file_lines fileContent) = Some state →
    ∃ new : list Chromosome,
      heap state.2 = heap w ++ new ∧
      state.1 = chromosomes ++ seq (length (heap w)) (length new) ∧
      NoDup (name <$> new) ∧
      (∀ key a, index state.2 !! key = Some a ↔
         index w !! key = Some a ∨
         ∃ i c, new !! i = Some c ∧ name c = key ∧ a = length (heap w) + i) ∧
      (∀ line, line ∈ file_lines fileContent →
         has_chromosome state.2 (first_token (line_tokens line)) = true) ∧
      (∀ c, c ∈ new →
         bare c ∧ has_chromosome w (name c) = false ∧
         ∃ before line after,
           file_lines fileContent = before ++ line :: after ∧
           first_token (line_tokens line) = name c ∧
           (∀ l, l ∈ before → first_token (line_tokens l) ≠ name c) ∧
           JS.parseInt_at (line_tokens line) 1 = Some (end_ c))).
  { intros Hall cs' w' Hrun. apply (Hall (cs', w') Hrun). }
  apply (foldl_bind_ind parseChromSizeFile_line (λ done state,
    ∃ new : list Chromosome,
      heap state.2 = heap w ++ new ∧
      state.1 = chromosomes ++ seq (length (heap w)) (length new) ∧
      NoDup (name <$> new) ∧
      (∀ key a, index state.2 !! key = Some a ↔
         index w !! key = Some a ∨
         ∃ i c, new !! i = Some c ∧ name c = key ∧ a = length (heap w) + i) ∧
      (∀ line, line ∈ done →
         has_chromosome state.2 (first_token (line_tokens line)) = true) ∧
      (∀ c, c ∈ new →
         bare c ∧ has_chromosome w (name c) = false ∧
         ∃ before line after,
           done = before ++ line :: after ∧
           first_token (line_tokens line) = name c ∧
           (∀ l, l ∈ before → first_token (line_tokens l) ≠ name c) ∧
           JS.parseInt_at (line_tokens line) 1 = Some (end_ c)))).
  { exists []. simpl. rewrite !app_nil_r. split; [done|]. split; [done|].
    split; [constructor|]. split; [|split].
    - intros key a. split; [by left|]. by intros [?|(i & c & ? & _)].
    - intros ? Hin. by apply not_elem_of_nil in Hin.
    - intros ? Hin. by apply not_elem_of_nil in Hin. }
  intros done line [cs w1] [cs' w2]
    (new & Hheap & Hcs & Hnd & Hindex & Hcover & Hnew).
  simpl in Hheap, Hcs, Hindex, Hcover.
  unfold parseChromSizeFile_line.
  set (key := first_token (line_tokens line)).
  destruct (hasOwnProperty w1 key) as [known|] eqn:Hcall; [|done].
  cbn [mbind option_bind].
  apply hasOwnProperty_Some in Hcall as [Hcallable Hhas].
  destruct known.
  - intros [= <- <-]. exists new. simpl.
    split; [done|]. split; [done|]. split; [done|]. split; [done|]. split.
    + intros l [Hl| ->%list_elem_of_singleton]%elem_of_app; [by apply Hcover|].
      done.
    + intros c Hc. destruct (Hnew c Hc) as (? & ? & b & l & a & -> & ? & ? & ?).
      split; [done|]. split; [done|].
      exists b, l, (a ++ [line]). by rewrite <- app_assoc.
  - destruct (JS.parseInt_at _ 1) as [size|] eqn:Hsize; [|done].
    cbn [mbind option_bind].
    intros (Hkey & -> & ->)%push_chromosome_Some.
    apply has_chromosome_false in Hhas as [Hown Hnone].
    assert (Hfresh : ∀ c, c ∈ new → name c ≠ key).
    { intros c [i Hi]%list_elem_of_lookup Heq.
      assert (index w1 !! key = Some (length (heap w) + i)) as Hin.
      { apply Hindex. right. by exists i, c. }
      congruence. }
    assert (Hold : has_chromosome w key = false).
    { apply has_chromosome_false. split; [done|].
      destruct (index w !! key) as [a|] eqn:Ha; [|done].
      assert (index w1 !! key = Some a) by (apply Hindex; by left).
      congruence. }
    exists (new ++ [newChromosome key size]). simpl.
    split; [by rewrite Hheap, app_assoc|]. split; [|split; [|split; [|split]]].
    + rewrite Hcs, Hheap, !length_app. simpl.
      rewrite Nat.add_1_r, seq_S. by rewrite app_assoc.
    + rewrite fmap_app. apply NoDup_app. split; [done|].
      split; [|apply NoDup_singleton].
      intros k (c & -> & Hc)%list_elem_of_fmap Hin%list_elem_of_singleton.
      by apply (Hfresh c).
    + intros k a. rewrite Hheap, length_app.
      destruct (decide (k = key)) as [->|Hne].
      * rewrite lookup_insert_eq. split.
        -- intros [= <-]. right. exists (length new), (newChromosome key size).
           by rewrite lookup_app_r, Nat.sub_diag by done.
        -- intros [Ha|(i & c & Hi & Hc & ->)].
           { assert (index w1 !! key = Some a) by (apply Hindex; by left).
             congruence. }
           apply lookup_app_Some in Hi as [Hi|[Hlen Hi]].
           { apply list_elem_of_lookup_2 in Hi. by apply Hfresh in Hi. }
           apply list_lookup_singleton_Some in Hi as [Hi _].
           f_equal. lia.
      * rewrite lookup_insert_ne by done. rewrite Hindex. split.
        -- intros [?|(i & c & Hi & Hc & ->)]; [by left|]. right.
           exists i, c. split; [|done]. by apply lookup_app_l_Some.
        -- intros [?|(i & c & Hi & Hc & ->)]; [by left|]. right.
           exists i, c. split; [|done].
           apply lookup_app_Some in Hi as [Hi|[_ Hi]]; [done|].
           apply list_lookup_singleton_Some in Hi as [_ <-]. done.
    + intros l Hl. apply has_chromosome_true.
      apply elem_of_app in Hl as [Hl| ->%list_elem_of_singleton].
      * apply Hcover, has_chromosome_true in Hl as [?|[a Ha]]; [by left|].
        right. simpl. destruct (decide (first_token (line_tokens l) = key))
          as [->|Hne]; [by rewrite lookup_insert_eq|].
        rewrite lookup_insert_ne by done. by exists a.
      * right. simpl. by rewrite lookup_insert_eq.
    + intros c [Hc| ->%list_elem_of_singleton]%elem_of_app.
      * destruct (Hnew c Hc) as (? & ? & b & l & a & -> & ? & ? & ?).
        split; [done|]. split; [done|].
        exists b, l, (a ++ [line]). by rewrite <- app_assoc.
      * split; [done|]. simpl. split; [done|].
        exists done, line, []. split; [done|]. split; [done|]. split; [|done].
        intros l Hl Heq.
        apply Hcover, has_chromosome_true in Hl. rewrite Heq in Hl.
        destruct Hl as [?|[a Ha]]; [done|]. congruence.
Qed.

Lemma parseChromSizeFile_first_wins_witness :
  ∃ w1 new,
    parseChromSizeFile ("chr1 1000" +:+ LF +:+ "chr2 500" +:+ LF +:+ "chr1 7")
                       [] new_world = Some ([0; 1], w1) ∧
    heap w1 = new ∧ (name <$> new) = ["chr1"; "chr2"] ∧
    (end_ <$> new) = [1000%Z; 500%Z] ∧
    parseChromSizeFile ("chr1 1000" +:+ LF +:+ "chr2 500") [] w1
    = Some ([], w1).
Proof.
  destruct (parseChromSizeFile
              ("chr1 1000" +:+ LF +:+ "chr2 500" +:+ LF +:+ "chr1 7")
              [] new_world) as [[cs1 w1]|] eqn:Hrun; [|by vm_compute in Hrun].
  destruct (parseChromSizeFile_first_wins _ _ _ _ _ Hrun)
    as (new & Hheap & _).
  vm_compute in Hrun. injection Hrun as <- <-.
  eexists _, new. split; [reflexivity|]. simpl in Hheap.
  split; [exact Hheap|]. rewrite <- Hheap. by vm_compute.
Defined.

(** ** The cytoband file *)

Lemma store_after_lookup cytoband c j :
  (∀ k, centromere c = Some k → k < length (store c)) →
  store_after cytoband c !! j
  = (λ b, if decide (gieStain cytoband = "acen" ∧ centromere c = Some j)
          then band_concat cytoband b else b)
      <$> (store c ++ [cytoband]) !! j.
Proof.
  intros Hcen. unfold store_after.
  destruct (decide (gieStain cytoband = "acen")) as [Hacen|Hacen].
  - destruct (centromere c) as [k|] eqn:Hk.
    + destruct (decide (k = j)) as [->|Hne].
      * rewrite list_lookup_alter_eq. apply option_fmap_ext. intros b.
        by rewrite decide_True.
      * rewrite list_lookup_alter_ne by done.
        rewrite <- (option_fmap_id (_ !! j)) at 1.
        apply option_fmap_ext. intros b.
        rewrite decide_False; [done|]. intros [_ [= ?]]. done.
    + rewrite <- (option_fmap_id (_ !! j)) at 1.
      apply option_fmap_ext. intros b. rewrite decide_False; [done|].
      by intros [_ ?].
  - rewrite <- (option_fmap_id (_ !! j)) at 1.
    apply option_fmap_ext. intros b. rewrite decide_False; [done|]. tauto.
Qed.

Lemma addCytoband_keeps_invariant cytoband c :
  Chromosome_invariant c → Chromosome_invariant (addCytoband cytoband c).
Proof.
  intros (Hwf & _ & Hbound).
  split; [by apply addCytoband_well_formed|].
  split; [apply addCytoband_sorted|].
  intros b Hb.
  rewrite (bands_store _ (addCytoband_well_formed cytoband c Hwf)) in Hb.
  destruct (addCytoband_fields cytoband c) as (Hs & _ & _ & -> & _).
  rewrite Hs in Hb.
  assert (Hstore : Forall (λ b : Cytoband, (ChromRegion.end_ b ≤ end_ c)%Z)
                          (store c)).
  { apply Forall_forall. intros b' Hb'. apply Hbound.
    by rewrite (bands_store c Hwf). }
  pose proof (store_after_bound cytoband c Hstore) as Hafter.
  by eapply Forall_forall in Hafter.
Qed.

Lemma addCytoband_banded cytoband c :
  ChromRegion.chr cytoband = name c → banded c → banded (addCytoband cytoband c).
Proof.
  intros Hchr (Hinv & Hc & Hbands).
  split; [by apply addCytoband_keeps_invariant|].
  destruct (addCytoband_fields cytoband c)
    as (Hstore & _ & _ & _ & Hchr' & _ & Hname' & _).
  rewrite Hchr', Hname', Hstore. split; [done|].
  intros b [j Hj]%list_elem_of_lookup.
  rewrite store_after_lookup in Hj by apply Hinv.
  destruct ((store c ++ [cytoband]) !! j) as [b0|] eqn:Hb0; [|done].
  simpl in Hj. injection Hj as <-.
  assert (Hb0chr : ChromRegion.chr b0 = name c).
  { apply list_elem_of_lookup_2 in Hb0.
    apply elem_of_app in Hb0 as [?| ->%list_elem_of_singleton]; [by apply Hbands|done]. }
  by case_decide.
Qed.

Lemma newChromosome_banded key size : banded (newChromosome key size).
Proof.
  split; [|split; [done|]].
  - split; [split; [done|done]|]. split; [constructor|].
    intros b Hb. by apply not_elem_of_nil in Hb.
  - intros b Hb. by apply not_elem_of_nil in Hb.
Qed.

(** The state of the examples is well kept. *)
Lemma world_ab_index_ok : index_ok world_ab.
Proof.
  intros key a. unfold world_ab. simpl.
  destruct (decide (key = "chr2")) as [->|H2].
  { rewrite lookup_insert_eq. intros [= <-]. by exists chr_b. }
  rewrite lookup_insert_ne by done.
  destruct (decide (key = "chr1")) as [->|H1].
  { rewrite lookup_insert_eq. intros [= <-]. by exists chr_a. }
  by rewrite lookup_insert_ne.
Qed.

Lemma world_ab_banded : Forall banded (heap world_ab).
Proof. repeat constructor; apply newChromosome_banded. Qed.

(** A call of [addCytoband] through the index, with a band of the key. *)
Lemma call_on_addCytoband_banded key cytoband w w' :
  ChromRegion.chr cytoband = key →
  index_ok w → Forall banded (heap w) →
  call_on key (λ c, Some (addCytoband cytoband c)) w = Some w' →
  index_ok w' ∧ Forall banded (heap w') ∧
  name <$> heap w' = name <$> heap w ∧ index w' = index w.
Proof.
  intros Hchr Hindex Hbanded
    (_ & a & c & c' & Ha & Hc & [= <-] & ->)%call_on_Some. simpl.
  destruct (Hindex key a Ha) as (c0 & Hc0 & Hname).
  assert (c0 = c) as -> by congruence.
  destruct (addCytoband_fields cytoband c) as (_ & _ & _ & _ & _ & _ & Hn & _).
  assert (Hnames : name <$> <[a := addCytoband cytoband c]> (heap w)
                   = name <$> heap w).
  { rewrite list_fmap_insert, Hn. apply list_insert_id.
    by rewrite list_lookup_fmap, Hc. }
  split; [|split; [|done]].
  - intros k a' Hk. simpl in *.
    destruct (Hindex k a' Hk) as (c1 & Hc1 & Hname1).
    destruct (decide (a' = a)) as [->|Hne].
    + exists (addCytoband cytoband c).
      rewrite list_lookup_insert_eq by (by eapply lookup_lt_Some).
      split; [done|]. rewrite Hn. congruence.
    + exists c1. by rewrite list_lookup_insert_ne.
  - apply Forall_insert; [done|].
    apply addCytoband_banded; [congruence|].
    eapply Forall_forall in Hbanded; [done|]. by eapply list_elem_of_lookup_2.
Qed.

(** X2. [parseCytobandIdeoFile] keeps the chromosomes of the process well
    formed. When each key of the index leads to a chromosome of that name,
    and the bands of every chromosome are in canonical order, end within
    the chromosome and are on it, the same holds after the file. The
    chromosomes keep their names; the new ones come at the end of the heap
    and of the array, under distinct names that the index did not have;
    the index keeps its entries, and has a chromosome for the name of
    every line. *)
Theorem parseCytobandIdeoFile_banded (fileContent : string)
    (chromosomes chromosomes' : list nat) (w w' : World) :
  index_ok w → Forall banded (heap w) →
  parseCytobandIdeoFile fileContent chromosomes w = Some (chromosomes', w') →
  index_ok w' ∧ Forall banded (heap w') ∧
  (∃ new : list string,
     name <$> heap w' = (name <$> heap w) ++ new ∧
     chromosomes' = chromosomes ++ seq (length (heap w)) (length new) ∧
     NoDup new ∧
     ∀ key, key ∈ new → has_chromosome w key = false) ∧
  (∀ key a, index w !! key = Some a → index w' !! key = Some a) ∧
  (∀ line, line ∈ file_lines fileContent →
     is_Some (index w' !! first_token (line_tokens line))).
Proof.
  intros Hindex Hbanded. unfold parseCytobandIdeoFile.
  revert chromosomes' w'.
  cut (∀ state,
    foldl (λ acc line, acc ≫= λ state, parseCytobandIdeoFile_line state line)
          (Some (chromosomes, w)) (file_lines fileContent) = Some state →
    index_ok state.2 ∧ Forall banded (heap state.2) ∧
    (∃ new : list string,
       name <$> heap state.2 = (name <$> heap w) ++ new ∧
       state.1 = chromosomes ++ seq (length (heap w)) (length new) ∧
       NoDup new ∧
       (∀ key, key ∈ new → has_chromosome w key = false) ∧
       (∀ key, key ∈ new → is_Some (index state.2 !! key))) ∧
    (∀ key a, index w !! key = Some a → index state.2 !! key = Some a) ∧
    (∀ line, line ∈ file_lines fileContent →
       is_Some (index state.2 !! first_token (line_tokens line)))).
  { intros Hall cs' w' Hrun.
    destruct (Hall (cs', w') Hrun)
      as (? & ? & (new & ? & ? & ? & ? & _) & ? & ?).
    split; [done|]. split; [done|]. split; [by exists new|]. done. }
  apply (foldl_bind_ind parseCytobandIdeoFile_line (λ done state,
    index_ok state.2 ∧ Forall banded (heap state.2) ∧
    (∃ new : list string,
       name <$> heap state.2 = (name <$> heap w) ++ new ∧
       state.1 = chromosomes ++ seq (length (heap w)) (length new) ∧
       NoDup new ∧
       (∀ key, key ∈ new → has_chromosome w key = false) ∧
       (∀ key, key ∈ new → is_Some (index state.2 !! key))) ∧
    (∀ key a, index w !! key = Some a → index state.2 !! key = Some a) ∧
    (∀ line, line ∈ done →
       is_Some (index state.2 !! first_token (line_tokens line))))).
  { split; [done|]. split; [done|]. split.
    - exists []. rewrite !app_nil_r. split; [done|]. split; [done|].
      split; [constructor|]. split; intros ? Hin; by apply not_elem_of_nil in Hin.
    - split; [done|]. intros ? Hin. by apply not_elem_of_nil in Hin. }
  intros done line [cs w1] [cs' w2]
    (Hi1 & Hb1 & (new & Hnames & Hcs & Hnd & Hfresh & Hin) & Hmono & Hcover).
  simpl in *. unfold parseCytobandIdeoFile_line.
  destruct (JS.parseInt_at _ 1) as [start|]; [|done].
  destruct (JS.parseInt_at _ 2) as [band_end|]; [|done].
  destruct (_ !! 4) as [stain|]; [|done]. cbn [mbind option_bind].
  set (key := first_token (line_tokens line)).
  set (band := mkCytoband _ stain).
  destruct (hasOwnProperty w1 key) as [known|] eqn:Hcall; [|done].
  cbn [mbind option_bind].
  apply hasOwnProperty_Some in Hcall as [Hcallable Hhas].
  destruct known; cbn [mbind option_bind].
  - destruct (call_on key _ w1) as [w3|] eqn:Hcall; [|done].
    simpl. intros [= <- <-].
    destruct (call_on_addCytoband_banded key band w1 w3 eq_refl Hi1 Hb1 Hcall)
      as (Hi3 & Hb3 & Hn3 & Hx3).
    apply call_on_Some in Hcall as (_ & a & c & c' & Ha & _).
    simpl. rewrite Hn3, Hx3.
    split; [done|]. split; [done|]. split; [by exists new|]. split; [done|].
    intros l [Hl| ->%list_elem_of_singleton]%elem_of_app; [by apply Hcover|].
    by exists a.
  - destruct (push_chromosome key band_end cs w1) as [[cs1 w1']|] eqn:Hpush;
      [|done].
    cbn [mbind option_bind].
    apply push_chromosome_Some in Hpush as (Hkey & -> & ->).
    apply has_chromosome_false in Hhas as [Hown Hnone].
    set (w1' := mkWorld _ _).
    assert (Hi1' : index_ok w1').
    { intros k a. subst w1'. simpl.
      destruct (decide (k = key)) as [->|Hne].
      - rewrite lookup_insert_eq. intros [= <-].
        exists (newChromosome key band_end).
        by rewrite lookup_app_r, Nat.sub_diag by done.
      - rewrite lookup_insert_ne by done. intros Hk.
        destruct (Hi1 k a Hk) as (c & Hc & Hname). exists c.
        split; [|done]. by apply lookup_app_l_Some. }
    assert (Hb1' : Forall banded (heap w1')).
    { subst w1'. simpl. apply Forall_app. split; [done|].
      apply Forall_singleton, newChromosome_banded. }
    destruct (call_on key _ w1') as [w3|] eqn:Hcall; [|done].
    simpl. intros [= <- <-].
    destruct (call_on_addCytoband_banded key band w1' w3 eq_refl Hi1' Hb1' Hcall)
      as (Hi3 & Hb3 & Hn3 & Hx3).
    simpl. rewrite Hn3, Hx3. subst w1'. simpl.
    split; [done|]. split; [done|].
    assert (Hlen : length (heap w1) = length (heap w) + length new).
    { rewrite <- (length_fmap name (heap w1)), Hnames, length_app.
      by rewrite length_fmap. }
    assert (Hold : has_chromosome w key = false).
    { apply has_chromosome_false. split; [done|].
      destruct (index w !! key) as [a|] eqn:Ha; [|done].
      apply Hmono in Ha. congruence. }
    split; [|split].
    + exists (new ++ [key]). rewrite fmap_app, Hnames, <- app_assoc.
      split; [done|]. split; [|split; [|split]].
      * rewrite Hcs, Hlen, length_app. simpl.
        rewrite Nat.add_1_r, seq_S. by rewrite app_assoc.
      * apply NoDup_app. split; [done|]. split; [|apply NoDup_singleton].
        intros k Hk ->%list_elem_of_singleton.
        apply Hin in Hk as [a Ha]. congruence.
      * intros k [Hk| ->%list_elem_of_singleton]%elem_of_app; [by apply Hfresh|].
        done.
      * intros k [Hk| ->%list_elem_of_singleton]%elem_of_app.
        -- destruct (decide (k = key)) as [->|Hne];
             [by rewrite lookup_insert_eq|].
           rewrite lookup_insert_ne by done. by apply Hin.
        -- by rewrite lookup_insert_eq.
    + intros k a Hk. rewrite lookup_insert_ne; [by apply Hmono|].
      intros <-. apply Hmono in Hk. congruence.
    + intros l [Hl| ->%list_elem_of_singleton]%elem_of_app.
      * destruct (decide (first_token (line_tokens l) = key)) as [->|Hne];
          [by rewrite lookup_insert_eq|].
        rewrite lookup_insert_ne by done. by apply Hcover.
      * by rewrite lookup_insert_eq.
Qed.

Lemma parseCytobandIdeoFile_banded_witness :
  ∃ w',
    parseCytobandIdeoFile
      ("chr1 100 120 cen acen" +:+ LF +:+ "chrX 0 100 p11 gneg")
      [0; 1] world_ab = Some ([0; 1; 2], w') ∧
    Forall banded (heap w') ∧
    (name <$> heap w') = ["chr1"; "chr2"; "chrX"].
Proof.
  destruct (parseCytobandIdeoFile
              ("chr1 100 120 cen acen" +:+ LF +:+ "chrX 0 100 p11 gneg")
              [0; 1] world_ab) as [[cs' w']|] eqn:Hrun;
    [|by vm_compute in Hrun].
  destruct (parseCytobandIdeoFile_banded _ _ _ _ _
              world_ab_index_ok world_ab_banded Hrun) as (_ & Hbanded & _).
  vm_compute in Hrun. injection Hrun as <- <-.
  eexists. split; [reflexivity|]. split; [exact Hbanded|]. by vm_compute.
Defined.

Lemma addCytoband_tight cytoband c :
  (∀ k, centromere c = Some k → k < length (store c)) →
  tight c ∨ (end_ c ≤ ChromRegion.end_ cytoband)%Z →
  tight (addCytoband cytoband c).
Proof.
  intros Hcen Hc. unfold tight.
  destruct (addCytoband_fields cytoband c) as (-> & _ & _ & -> & _).
  destruct (Z.le_gt_cases (end_ c) (ChromRegion.end_ cytoband)) as [Hle|Hgt].
  - exists cytoband. split; [|lia].
    apply list_elem_of_lookup. exists (length (store c)).
    rewrite store_after_lookup by done.
    rewrite lookup_app_r, Nat.sub_diag by done. simpl.
    rewrite decide_False; [done|].
    intros [_ Hk]. apply Hcen in Hk. lia.
  - destruct Hc as [(b & [j Hj]%list_elem_of_lookup & Hb)|?]; [|lia].
    eexists. split.
    + apply list_elem_of_lookup. exists j.
      rewrite store_after_lookup by done.
      rewrite lookup_app_l by (by eapply lookup_lt_Some). by rewrite Hj.
    + case_decide; simpl; lia.
Qed.


(** The chromosomes of the array after a line of [parseCytobandIdeoFile]:
    each has the invariant, and ends where one of its bands ends. *)
Lemma parseCytobandIdeoFile_line_tight state state' line :
  Forall (λ a, ∃ c, heap state.2 !! a = Some c ∧
                    Chromosome_invariant c ∧ tight c) state.1 →
  parseCytobandIdeoFile_line state line = Some state' →
  Forall (λ a, ∃ c, heap state'.2 !! a = Some c ∧
                    Chromosome_invariant c ∧ tight c) state'.1.
Proof.
  destruct state as [cs w1], state' as [cs' w2]. simpl. intros Hcs.
  unfold parseCytobandIdeoFile_line.
  destruct (JS.parseInt_at _ 1) as [start|]; [|done].
  destruct (JS.parseInt_at _ 2) as [band_end|]; [|done].
  destruct (_ !! 4) as [stain|]; [|done]. cbn [mbind option_bind].
  set (key := first_token (line_tokens line)).
  set (band := mkCytoband _ stain).
  assert (Hstep : ∀ c, Chromosome_invariant c →
            tight c ∨ (end_ c ≤ ChromRegion.end_ band)%Z →
            Chromosome_invariant (addCytoband band c)
            ∧ tight (addCytoband band c)).
  { intros c Hinv Ht. split; [by apply addCytoband_keeps_invariant|].
    apply addCytoband_tight; [apply Hinv|done]. }
  destruct (hasOwnProperty w1 key) as [known|] eqn:Hcall; [|done].
  cbn [mbind option_bind].
  apply hasOwnProperty_Some in Hcall as [Hcallable Hhas].
  destruct known; cbn [mbind option_bind].
  - destruct (call_on key _ w1) as [w3|] eqn:Hcall; [|done].
    simpl. intros [= <- <-].
    apply call_on_Some in Hcall as (_ & a & c & c' & Ha & Hc & [= <-] & ->).
    simpl. eapply Forall_impl; [exact Hcs|]. simpl.
    intros a' (c1 & Hc1 & Hinv & Ht).
    destruct (decide (a' = a)) as [->|Hne].
    + assert (c1 = c) as -> by congruence.
      exists (addCytoband band c).
      rewrite list_lookup_insert_eq by (by eapply lookup_lt_Some).
      split; [done|]. apply Hstep; auto.
    + exists c1. by rewrite list_lookup_insert_ne.
  - destruct (push_chromosome key band_end cs w1) as [[cs1 w1']|] eqn:Hpush;
      [|done].
    cbn [mbind option_bind].
    apply push_chromosome_Some in Hpush as (Hkey & -> & ->).
    destruct (call_on key _ _) as [w3|] eqn:Hcall; [|done].
    simpl. intros [= <- <-].
    apply call_on_Some in Hcall as (_ & a & c & c' & Ha & Hc & [= <-] & ->).
    simpl in *. rewrite lookup_insert_eq in Ha. injection Ha as <-.
    rewrite lookup_app_r, Nat.sub_diag in Hc by done. injection Hc as <-.
    apply Forall_app. split.
    + eapply Forall_impl; [exact Hcs|]. simpl.
      intros a' (c1 & Hc1 & Hinv & Ht). exists c1. split; [|done].
      rewrite list_lookup_insert_ne
        by (apply lookup_lt_Some in Hc1; lia).
      by apply lookup_app_l_Some.
    + apply Forall_singleton. eexists.
      rewrite list_lookup_insert_eq by (rewrite length_app; simpl; lia).
      split; [done|]. apply Hstep; [apply newChromosome_banded|].
      right. simpl. lia.
Qed.

Lemma parseCytobandIdeoFile_tight (fileContent : string)
    (chromosomes : list nat) (w w' : World) :
  parseCytobandIdeoFile fileContent [] w = Some (chromosomes, w') →
  Forall (λ a, ∃ c, heap w' !! a = Some c ∧
                    Chromosome_invariant c ∧ tight c) chromosomes.
Proof.
  intros Hrun.
  apply (foldl_bind_ind parseCytobandIdeoFile_line (λ _ state,
    Forall (λ a, ∃ c, heap state.2 !! a = Some c ∧
                      Chromosome_invariant c ∧ tight c) state.1)
           ([], w)) with (a' := (chromosomes, w')) (l := file_lines fileContent);
    [constructor| |exact Hrun].
  intros _ line state state' Hstate Hline.
  by eapply parseCytobandIdeoFile_line_tight.
Qed.

(** X3. After [parseCytobandIdeoFile] alone, whatever the state of the
    process, the length of every chromosome of the array is the largest
    end of its bands: one of its bands ends where it ends, and none ends
    later. *)
Theorem parseCytobandIdeoFile_length (fileContent : string)
    (chromosomes : list nat) (w w' : World) :
  parseCytobandIdeoFile fileContent [] w = Some (chromosomes, w') →
  Forall (λ a, ∃ c, heap w' !! a = Some c ∧
            ∃ b : Cytoband,
              b ∈ bands c ∧ ChromRegion.end_ b = end_ c ∧
              ∀ b' : Cytoband, b' ∈ bands c →
                               (ChromRegion.end_ b' ≤ end_ c)%Z) chromosomes.
Proof.
  intros Hrun.
  eapply Forall_impl; [by eapply parseCytobandIdeoFile_tight|]. simpl.
  intros a (c & Hc & (Hwf & _ & Hbound) & (b & Hin & Hend)).
  exists c. split; [done|]. exists b. rewrite (bands_store c Hwf). done.
Qed.

Lemma parseCytobandIdeoFile_length_witness :
  ∃ w',
    parseCytobandIdeoFile
      ("chrX 100 120 cen acen" +:+ LF +:+ "chrX 0 100 p11 gneg") [] world_ab
    = Some ([2], w') ∧ (end_ <$> objects_of w' [2]) = [120%Z] ∧
    Forall (λ a, ∃ c, heap w' !! a = Some c ∧
              ∃ b : Cytoband,
                b ∈ bands c ∧ ChromRegion.end_ b = end_ c ∧
                ∀ b' : Cytoband, b' ∈ bands c →
                                 (ChromRegion.end_ b' ≤ end_ c)%Z) [2].
Proof.
  eexists. split; [vm_compute; reflexivity|]. split; [reflexivity|].
  apply (parseCytobandIdeoFile_length
           ("chrX 100 120 cen acen" +:+ LF +:+ "chrX 0 100 p11 gneg")
           [2] world_ab).
  vm_compute. reflexivity.
Defined.

(** ** Stacks of numbered and other chromosomes *)

Lemma stackChromosomes_total (l : list Chromosome) :
  ∃ stacks,
    stackChromosomes l = Some stacks ∧ mjoin stacks ≡ₚ l ∧
    length stacks = (length l + 1) / 2.
Proof.
  destruct (stackChromosomes_entries l) as (stacks & Hrun & Hlen & _).
  exists stacks. split; [done|]. split; [|done].
  unfold stackChromosomes in Hrun.
  apply stack_forEach_Permutation in Hrun as ->. simpl.
  apply sort_Permutation.
Qed.

Lemma Forall_of_join {A} (P : A → Prop) (ls : list (list A)) :
  Forall P (mjoin ls) → Forall (Forall P) ls.
Proof.
  intros H. apply Forall_forall. intros l Hl. apply Forall_forall.
  intros x Hx. eapply Forall_forall in H; [done|].
  apply list_elem_of_join. by exists l.
Qed.

Lemma filter_isNumbered_Permutation (chromosomes : list Chromosome) :
  filter (λ c, isNumbered c = true) chromosomes
  ++ filter (λ c, isNumbered c ≠ true) chromosomes ≡ₚ chromosomes.
Proof.
  induction chromosomes as [|c cs IH]; [done|].
  rewrite !filter_cons. destruct (decide (isNumbered c = true)) as [Hc|Hc].
  - rewrite decide_False by tauto. simpl. by constructor.
  - rewrite decide_True by done. rewrite <- Permutation_middle.
    by constructor.
Qed.

(** X4. [getStackedChromosomes] never throws and puts every chromosome in
    exactly one stack; the stacks of the numbered chromosomes come first,
    and no stack has a numbered chromosome together with another one. *)
Theorem getStackedChromosomes_pools (chromosomes : list Chromosome) :
  ∃ numbered others,
    getStackedChromosomes chromosomes = Some (numbered ++ others) ∧
    mjoin (numbered ++ others) ≡ₚ chromosomes ∧
    Forall (Forall (λ c, isNumbered c = true)) numbered ∧
    Forall (Forall (λ c, isNumbered c = false)) others ∧
    length numbered
    = (length (filter (λ c, isNumbered c = true) chromosomes) + 1) / 2 ∧
    length others
    = (length (filter (λ c, isNumbered c ≠ true) chromosomes) + 1) / 2.
Proof.
  unfold getStackedChromosomes.
  destruct (stackChromosomes_total
              (filter (λ c, isNumbered c = true) chromosomes))
    as (numbered & -> & Hn & Hnlen).
  destruct (stackChromosomes_total
              (filter (λ c, isNumbered c ≠ true) chromosomes))
    as (others & -> & Ho & Holen).
  exists numbered, others. split; [done|]. split.
  { rewrite join_app, Hn, Ho. apply filter_isNumbered_Permutation. }
  split; [|split; [|done]].
  - apply Forall_of_join. rewrite Hn. apply Forall_forall.
    by intros c [? _]%list_elem_of_filter.
  - apply Forall_of_join. rewrite Ho. apply Forall_forall.
    intros c [Hc _]%list_elem_of_filter. by destruct (isNumbered c).
Qed.

(** ** The flags of the filter *)

Lemma filterChromosome_Sorted chromosomes includeNonRegular includeMito :
  Sorted (JS.before compare_chromosomes)
         (filterChromosome chromosomes includeNonRegular includeMito).
Proof.
  apply StronglySorted_Sorted. unfold filterChromosome.
  apply StronglySorted_filter, Sorted_StronglySorted; [apply _|].
  apply sort_Sorted, compare_chromosomes_total.
Qed.

(** X5. Filtering again with the same flags changes nothing. With
    [includeNonRegular] every chromosome is kept, whatever [includeMito]
    is; and a flag that is set never removes a chromosome that is kept
    without it. *)
Theorem filterChromosome_flags (chromosomes : list Chromosome)
    (includeNonRegular includeMito : bool) :
  filterChromosome
    (filterChromosome chromosomes includeNonRegular includeMito)
    includeNonRegular includeMito
  = filterChromosome chromosomes includeNonRegular includeMito ∧
  filterChromosome chromosomes true includeMito
  = JS.sort compare_chromosomes chromosomes ∧
  filterChromosome chromosomes true includeMito ≡ₚ chromosomes ∧
  filterChromosome chromosomes false false
    `sublist_of` filterChromosome chromosomes false includeMito ∧
  filterChromosome chromosomes false includeMito
    `sublist_of` filterChromosome chromosomes includeNonRegular includeMito.
Proof.
  assert (Hall : filterChromosome chromosomes true includeMito
                 = JS.sort compare_chromosomes chromosomes).
  { unfold filterChromosome.
    induction (JS.sort compare_chromosomes chromosomes) as [|c l IH]; [done|].
    rewrite filter_cons, decide_True by done. by rewrite IH. }
  assert (Hsub : ∀ nr1 m1 nr2 m2,
    (∀ c, keepChromosome nr1 m1 c = true → keepChromosome nr2 m2 c = true) →
    filterChromosome chromosomes nr1 m1
      `sublist_of` filterChromosome chromosomes nr2 m2).
  { intros nr1 m1 nr2 m2 Himp. unfold filterChromosome.
    rewrite <- (list_filter_filter_l _ (λ c, keepChromosome nr2 m2 c = true))
      by done.
    apply sublist_filter. }
  split; [|split; [done|split; [|split]]].
  - unfold filterChromosome at 1.
    rewrite (sort_of_Sorted _ _ (filterChromosome_Sorted _ _ _)).
    unfold filterChromosome. by rewrite list_filter_filter_l.
  - rewrite Hall. apply sort_Permutation.
  - apply Hsub. intros c. unfold keepChromosome.
    by destruct (isRegular c), includeMito, (isMitochondrial c).
  - apply Hsub. intros c. unfold keepChromosome.
    by destruct includeNonRegular, (isRegular c), includeMito,
                (isMitochondrial c).
Qed.

(** ** The names of the mitochondrial chromosome *)

Lemma lower_cases (c : ascii) :
  (JS.lower c = "c"%char → c = "c"%char ∨ c = "C"%char) ∧
  (JS.lower c = "h"%char → c = "h"%char ∨ c = "H"%char) ∧
  (JS.lower c = "r"%char → c = "r"%char ∨ c = "R"%char) ∧
  (JS.lower c = "m"%char → c = "m"%char ∨ c = "M"%char).
Proof.
  destruct c as [[] [] [] [] [] [] [] []];
    vm_compute; (repeat split); intros H; try discriminate H; auto.
Qed.

(** X6. A name is mitochondrial when it is [chrM] in any letter case, and
    it fails the regular test only when it is [chrM] itself: the fifteen
    other spellings ([chrm], [ChrM], ...) are regular, so the filter keeps
    such a chromosome with both flags unset. *)
Theorem isMitochondrial_regular (c : Chromosome) :
  isMitochondrial c = true →
  (isRegular c = false ↔ name c = "chrM") ∧
  (name c ≠ "chrM" → ∀ chromosomes,
     c ∈ chromosomes → c ∈ filterChromosome chromosomes false false).
Proof.
  intros Hm.
  assert (Hreg : isRegular c = false ↔ name c = "chrM").
  { unfold isMitochondrial in Hm. apply bool_decide_eq_true in Hm.
    unfold isRegular. destruct (name c) as [|a [|b [|d [|e [|? ?]]]]];
      try discriminate Hm.
    simpl in Hm. injection Hm as Ha Hb Hd He.
    apply (proj1 (lower_cases a)) in Ha.
    apply (proj1 (proj2 (lower_cases b))) in Hb.
    apply (proj1 (proj2 (proj2 (lower_cases d)))) in Hd.
    apply (proj2 (proj2 (proj2 (lower_cases e)))) in He.
    destruct Ha as [-> | ->], Hb as [-> | ->], Hd as [-> | ->],
             He as [-> | ->]; vm_compute; split; intros H;
      first [done | discriminate H]. }
  split; [done|]. intros Hne chromosomes Hin.
  unfold filterChromosome. apply list_elem_of_filter. split.
  - unfold keepChromosome. destruct (isRegular c); [done|].
    destruct Hne. by apply Hreg.
  - by rewrite sort_Permutation.
Qed.

Lemma isMitochondrial_regular_witness :
  newChromosome "chrm" 16571
  ∈ filterChromosome [chr_unplaced; newChromosome "chrm" 16571; chr_mito]
                     false false.
Proof.
  destruct (isMitochondrial_regular (newChromosome "chrm" 16571) eq_refl)
    as [_ Hkept].
  apply Hkept; [discriminate|]. apply list_elem_of_further, list_elem_of_here.
Defined.

(** ** The names of the numbered chromosomes *)

Lemma digit_facts (d : ascii) :
  JS.is_digit d = true →
  JS.lower d = d ∧ d ≠ "c"%char ∧ d ≠ "_"%char ∧ d ≠ "U"%char ∧ d ≠ "M"%char.
Proof.
  destruct d as [[] [] [] [] [] [] [] []]; vm_compute; intros H;
    try discriminate H; repeat split; discriminate.
Qed.

Lemma includes_digits (a : ascii) (sub ds : string) :
  JS.is_digit a = false → all_digits ds = true →
  JS.includes (String a sub) ds = false.
Proof.
  intros Ha. induction ds as [|d ds IH]; [done|].
  intros [Hd Hds]%andb_true_iff. cbn [JS.includes String.prefix].
  destruct (Ascii.ascii_dec a d) as [->|_]; [congruence|].
  by rewrite IH.
Qed.

(** X7. A chromosome named [chr] followed by digits only is numbered,
    regular and not mitochondrial; the filter keeps it whatever the flags
    are. *)
Theorem numbered_name_kept (c : Chromosome) (ds : string) :
  ds ≠ "" → all_digits ds = true → name c = "chr" +:+ ds →
  isNumbered c = true ∧ isRegular c = true ∧ isMitochondrial c = false ∧
  ∀ chromosomes includeNonRegular includeMito,
    c ∈ chromosomes →
    c ∈ filterChromosome chromosomes includeNonRegular includeMito.
Proof.
  intros Hne Hall Hname.
  destruct ds as [|d ds]; [done|].
  apply andb_true_iff in Hall as Hd. destruct Hd as [Hd Hds].
  destruct (digit_facts d Hd) as (Hlow & Hc & Hu & HU & HM).
  assert (Hnum : isNumbered c = true).
  { unfold isNumbered. rewrite Hname.
    change ("chr" +:+ String d ds)
      with (String "c" (String "h" (String "r" (String d ds)))).
    cbn [match_chr_digit JS.lowerCase].
    change (JS.lower "c") with "c"%char. change (JS.lower "h") with "h"%char.
    change (JS.lower "r") with "r"%char. rewrite Hlow. cbv iota beta.
    by rewrite Hd. }
  assert (Hreg : isRegular c = true).
  { unfold isRegular. rewrite Hname.
    change ("chr" +:+ String d ds)
      with (String "c" (String "h" (String "r" (String d ds)))).
    assert (Hin : ∀ a sub, JS.is_digit a = false → a ≠ "c"%char →
              a ≠ "h"%char → a ≠ "r"%char →
              JS.includes (String a sub)
                (String "c" (String "h" (String "r" (String d ds)))) = false).
    { intros a sub Ha H1 H2 H3. cbn [JS.includes String.prefix].
      destruct (Ascii.ascii_dec a "c") as [?|_]; [done|].
      destruct (Ascii.ascii_dec a "h") as [?|_]; [done|].
      destruct (Ascii.ascii_dec a "r") as [?|_]; [done|].
      destruct (Ascii.ascii_dec a d) as [->|_]; [congruence|].
      by rewrite (includes_digits a sub ds Ha Hds). }
    rewrite (Hin "_"%char "") by done.
    assert (Hchr : ∀ x sub, JS.is_digit x = false →
              JS.includes (String "c" (String "h" (String "r" (String x sub))))
                (String "c" (String "h" (String "r" (String d ds)))) = false).
    { intros x sub Hx. cbn [JS.includes String.prefix].
      destruct (Ascii.ascii_dec "c" "c") as [_|?]; [|done].
      destruct (Ascii.ascii_dec "h" "h") as [_|?]; [|done].
      destruct (Ascii.ascii_dec "r" "r") as [_|?]; [|done].
      destruct (Ascii.ascii_dec x d) as [->|_]; [congruence|].
      destruct (Ascii.ascii_dec "c" "h") as [?|_]; [done|].
      destruct (Ascii.ascii_dec "c" "r") as [?|_]; [done|].
      destruct (Ascii.ascii_dec "c" d) as [?|_]; [done|].
      by rewrite (includes_digits "c" _ ds eq_refl Hds). }
    by rewrite (Hchr "U"%char "n"), (Hchr "M"%char "") by done. }
  assert (Hmito : isMitochondrial c = false).
  { unfold isMitochondrial. apply bool_decide_eq_false. rewrite Hname.
    change ("chr" +:+ String d ds)
      with (String "c" (String "h" (String "r" (String d ds)))).
    cbn [JS.lowerCase]. rewrite Hlow. intros [= -> _]. discriminate Hd. }
  split; [done|]. split; [done|]. split; [done|].
  intros chromosomes nr mito Hin.
  unfold filterChromosome. apply list_elem_of_filter. split.
  - unfold keepChromosome. rewrite Hreg. by destruct nr.
  - by rewrite sort_Permutation.
Qed.

Lemma numbered_name_kept_witness :
  newChromosome "chr21" 46709983
  ∈ filterChromosome [chr_mito; newChromosome "chr21" 46709983] false false.
Proof.
  apply (numbered_name_kept (newChromosome "chr21" 46709983) "21");
    [discriminate | reflexivity | reflexivity |].
  apply list_elem_of_further, list_elem_of_here.
Defined.

(** ** A dataset as a histogram *)

Lemma addBedData_line_entry dataScale label w line :
  addBedData_line dataScale label w line
  = parse_bed_line line ≫= λ e, apply_entry dataScale label e w.
Proof.
  unfold addBedData_line, parse_bed_line.
  destruct (JS.parseInt_at _ 1); [|done].
  by destruct (JS.parseInt_at _ 2).
Qed.

(** The lines of a dataset are read one by one: the fold over the lines is
    the fold over the intervals when every line gives one, and stops
    otherwise. *)
Lemma addBedData_lines_entries dataScale label lines : ∀ w,
  foldl (λ acc line, acc ≫= λ w1, addBedData_line dataScale label w1 line)
        (Some w) lines
  = mapM parse_bed_line lines ≫= λ entries,
      foldl (λ acc e, acc ≫= λ w1, apply_entry dataScale label e w1)
            (Some w) entries.
Proof.
  induction lines as [|line lines IH]; intros w; [done|].
  cbn [foldl mbind option_bind mapM]. rewrite addBedData_line_entry.
  destruct (parse_bed_line line) as [e|]; cbn [mbind option_bind];
    [|apply foldl_bind_None].
  destruct (apply_entry dataScale label e w) as [w1|] eqn:He.
  - rewrite IH. destruct (mapM parse_bed_line lines); [|done].
    cbn [mbind option_bind mret option_ret foldl]. by rewrite He.
  - rewrite foldl_bind_None.
    destruct (mapM parse_bed_line lines) as [entries|]; [|done].
    cbn [mbind option_bind mret option_ret foldl]. rewrite He.
    by rewrite foldl_bind_None.
Qed.









Lemma initData_idemp label c :
  initData label (initData label c) = initData label c.
Proof.
  unfold initData at 1.
  destruct (data (initData label c) !! label) eqn:Hl; [done|].
  unfold initData in Hl. destruct (data c !! label) eqn:Hc; [congruence|].
  simpl in Hl. by rewrite lookup_insert_eq in Hl.
Qed.

(** The heap after [initData] on the chromosomes of an array. *)
Lemma initData_each_lookup label chromosomes w a :
  heap (initData_each label chromosomes w) !! a
  = (if decide (a ∈ chromosomes) then initData label else id) <$> heap w !! a.
Proof.
  unfold initData_each. simpl. generalize (heap w). intros h. revert h.
  induction chromosomes as [|a0 cs IH]; intros h; simpl.
  { by rewrite option_fmap_id. }
  rewrite IH. destruct (decide (a = a0)) as [->|Hne].
  - rewrite list_lookup_alter_eq, (decide_True (P := a0 ∈ a0 :: cs)) by by left.
    rewrite <- option_fmap_compose. apply option_fmap_ext. intros c. simpl.
    destruct (decide (a0 ∈ cs)); [apply initData_idemp|done].
  - rewrite list_lookup_alter_ne by done.
    apply option_fmap_ext. intros c.
    destruct (decide (a ∈ cs)) as [Hin|Hin].
    + by rewrite decide_True by by right.
    + rewrite decide_False; [done|]. by intros [?|?]%elem_of_cons.
Qed.







(** ** Drawing the rasters *)


Lemma filter_ext_in {A} (P Q : A → Prop) `{!∀ x, Decision (P x)}
    `{!∀ x, Decision (Q x)} (l : list A) :
  (∀ x, x ∈ l → (P x ↔ Q x)) → filter P l = filter Q l.
Proof.
  induction l as [|a l IH]; intros Hext; [done|].
  rewrite !filter_cons.
  rewrite IH by (intros x Hx; apply Hext; by apply list_elem_of_further).
  destruct (decide (P a)) as [Ha|Ha].
  - rewrite decide_True; [done|]. apply Hext; [apply list_elem_of_here|done].
  - rewrite decide_False; [done|]. intros Hq.
    apply Ha, Hext; [apply list_elem_of_here|done].
Qed.


Lemma Array_length_ext (arr1 arr2 : gmap Z Z) :
  (∀ i, (0 ≤ i)%Z → (is_Some (arr1 !! i) ↔ is_Some (arr2 !! i))) →
  Array_length arr1 = Array_length arr2.
Proof.
  intros H.
  destruct (Array_length_spec arr1) as (Hnn1 & Hlt1 & Hlast1).
  destruct (Array_length_spec arr2) as (Hnn2 & Hlt2 & Hlast2).
  assert (Array_length arr1 ≤ Array_length arr2)%Z.
  { destruct (decide (Array_length arr1 = 0%Z)) as [->|Hpos]; [done|].
    destruct Hlast1 as [?|Hlast1]; [done|].
    apply H in Hlast1; [|lia]. apply Hlt2 in Hlast1; lia. }
  assert (Array_length arr2 ≤ Array_length arr1)%Z.
  { destruct (decide (Array_length arr2 = 0%Z)) as [->|Hpos]; [done|].
    destruct Hlast2 as [?|Hlast2]; [done|].
    apply H in Hlast2; [|lia]. apply Hlt1 in Hlast2; lia. }
  lia.
Qed.

Lemma Array_forEach_indices_ext (arr1 arr2 : gmap Z Z) :
  (∀ i, (0 ≤ i)%Z → (is_Some (arr1 !! i) ↔ is_Some (arr2 !! i))) →
  Array_forEach_indices arr1 = Array_forEach_indices arr2.
Proof.
  intros H. unfold Array_forEach_indices.
  rewrite (Array_length_ext arr1 arr2 H).
  apply filter_ext_in. intros i Hi. apply H. apply elem_of_seqZ in Hi. lia.
Qed.




(** X11. The picture of a dataset does not depend on the counts: putting
    the same intervals a second time in the raster, which doubles the
    counts, leaves what [drawData] draws as it is. *)
Theorem drawData_twice_same (dataScale : Z) (label : string)
    (labelIndex : nat) (withBorders : bool) (c : Chromosome)
    (bedEntries : list ChromRegion.t) :
  is_Some (data c !! label) →
  ∃ c1 c2,
    addData_each dataScale label bedEntries c = Some c1 ∧
    addData_each dataScale label bedEntries c1 = Some c2 ∧
    drawData label labelIndex withBorders c2
    = drawData label labelIndex withBorders c1 ∧
    is_Some (drawData label labelIndex withBorders c1).
Proof.
  intros [arr Harr].
  destruct (addData_each_spec dataScale label bedEntries c arr Harr)
    as (c1 & arr1 & Hrun1 & Hlabel1 & _ & Hkeys1 & Hann1).
  destruct (addData_each_spec dataScale label bedEntries c1 arr1 Hlabel1)
    as (c2 & arr2 & Hrun2 & Hlabel2 & _ & Hkeys2 & _).
  assert (Hc1 : chr c1 = chr c) by apply Hann1. rewrite Hc1 in Hkeys2.
  exists c1, c2. split; [done|]. split; [done|].
  unfold drawData. rewrite Hlabel1, Hlabel2. simpl. split; [|by eexists].
  do 2 f_equal. apply Array_forEach_indices_ext.
  intros i _. rewrite Hkeys2, Hkeys1. tauto.
Qed.

Lemma drawData_twice_same_witness :
  ∃ c1 c2,
    addData_each 100 "default" [ChromRegion.mk "chr1" 250 350 None] chr1_ready
    = Some c1 ∧
    addData_each 100 "default" [ChromRegion.mk "chr1" 250 350 None] c1
    = Some c2 ∧
    drawData "default" 0 true c2 = drawData "default" 0 true c1 ∧
    is_Some (drawData "default" 0 true c1).
Proof.
  apply (drawData_twice_same 100 "default" 0 true chr1_ready). by eexists.
Defined.

(** ** What the datasets leave alone *)

(** A relation between the chromosomes before and after that is kept by
    [initData] and by every turn of the loop of [addData], for the labels
    in [good], is kept by [addBedData] and by the loop over the datasets,
    for every chromosome of the heap; and these never write to the
    index. *)
Section Preserved.
Variable R : Chromosome → Chromosome → Prop.
Variable good : string → Prop.
Hypothesis R_refl : ∀ c, R c c.
Hypothesis R_trans : ∀ c1 c2 c3, R c1 c2 → R c2 c3 → R c1 c3.
Hypothesis R_init : ∀ label c, good label → R c (initData label c).
Hypothesis R_step : ∀ label c i c',
  good label → addData_step label c i = Some c' → R c c'.

Lemma Forall2_preserved_trans (cs1 cs2 cs3 : list Chromosome) :
  Forall2 R cs1 cs2 → Forall2 R cs2 cs3 → Forall2 R cs1 cs3.
Proof using R_trans.
  intros H12. revert cs3. induction H12 as [|c1 c2 l1 l2 Hc _ IH]; intros cs3 H23.
  { by apply Forall2_nil_inv_l in H23 as ->. }
  apply Forall2_cons_inv_l in H23 as (c3 & l3 & Hc3 & Hl3 & ->).
  constructor; [by eapply R_trans|by apply IH].
Qed.

Lemma Forall2_preserved_refl (cs : list Chromosome) : Forall2 R cs cs.
Proof using R_refl. apply Forall_Forall2_diag, Forall_forall. by intros c _. Qed.

Lemma addData_preserved dataScale label e c c' :
  good label → addData dataScale label e c = Some c' → R c c'.
Proof using R_refl R_trans R_step.
  intros Hgood. unfold addData. destruct (decide _); [by intros [= <-]|].
  unfold addData_loop.
  apply (foldl_bind_ind (addData_step label) (λ _ c', R c c')); [done|].
  intros _ i c1 c2 Hc1 Hstep. eapply R_trans; [done|by eapply R_step].
Qed.

Lemma call_on_preserved key method (w w' : World) :
  (∀ c c', method c = Some c' → R c c') →
  call_on key method w = Some w' →
  Forall2 R (heap w) (heap w') ∧ index w' = index w.
Proof using R_refl.
  intros Hm (_ & a & c & c' & Ha & Hc & Hrun & ->)%call_on_Some. simpl.
  split; [|done]. rewrite <- (list_insert_id (heap w) a c Hc) at 1.
  apply Forall2_insert; [apply Forall2_preserved_refl|by apply Hm].
Qed.

Lemma initData_each_preserved label chromosomes (w : World) :
  good label → Forall2 R (heap w) (heap (initData_each label chromosomes w)).
Proof using R_refl R_init.
  intros Hgood. apply Forall2_lookup. intros a.
  rewrite initData_each_lookup.
  destruct (heap w !! a) as [c|]; simpl; constructor.
  destruct (decide (a ∈ chromosomes)); [by apply R_init|apply R_refl].
Qed.

Lemma apply_entry_preserved dataScale label e (w w' : World) :
  good label →
  apply_entry dataScale label e w = Some w' →
  Forall2 R (heap w) (heap w') ∧ index w' = index w.
Proof using R_refl R_trans R_step.
  intros Hgood. unfold apply_entry.
  destruct (hasOwnProperty _ _) as [[|]|]; cbn [mbind option_bind]; [| |done].
  - apply call_on_preserved. intros c c'. by apply addData_preserved.
  - intros [= <-]. split; [apply Forall2_preserved_refl|done].
Qed.

Lemma apply_entries_preserved dataScale label entries (w w' : World) :
  good label →
  foldl (λ acc e, acc ≫= λ w1, apply_entry dataScale label e w1)
        (Some w) entries = Some w' →
  Forall2 R (heap w) (heap w') ∧ index w' = index w.
Proof using R_refl R_trans R_step.
  intros Hgood. revert w'.
  apply (foldl_bind_ind (λ w1 e, apply_entry dataScale label e w1)
           (λ _ w', Forall2 R (heap w) (heap w') ∧ index w' = index w)).
  { split; [apply Forall2_preserved_refl|done]. }
  intros _ e w1 w2 [Hw1 Hi1] Hstep.
  apply apply_entry_preserved in Hstep as [Hw2 Hi2]; [|done].
  split; [by eapply Forall2_preserved_trans|congruence].
Qed.

Lemma addBedData_preserved dataScale bedFile label chromosomes w w' r :
  good label →
  addBedData dataScale bedFile label chromosomes w = Some (w', r) →
  Forall2 R (heap w) (heap w') ∧ index w' = index w.
Proof using R_refl R_trans R_init R_step.
  intros Hgood. unfold addBedData.
  destruct bedFile as [[|a content]|];
    try (intros [= <- _]; split; [apply Forall2_preserved_refl|done]).
  destruct (foldl _ _ _) as [w1|] eqn:Hfold; [|done]. intros [= <- _].
  revert w1 Hfold.
  apply (foldl_bind_ind (addBedData_line dataScale label)
           (λ _ w', Forall2 R (heap w) (heap w') ∧ index w' = index w)).
  { split; [by apply initData_each_preserved|done]. }
  intros _ line w1 w2 [Hw1 Hi1]. rewrite addBedData_line_entry.
  destruct (parse_bed_line line) as [e|]; [|done]. simpl.
  intros Hstep. apply apply_entry_preserved in Hstep as [Hw2 Hi2]; [|done].
  split; [by eapply Forall2_preserved_trans|congruence].
Qed.

Lemma loadBedFiles_preserved dataScale params bedFiles chromosomes :
  ∀ index0 w w' valid,
    (∀ j bedFile, bedFiles !! j = Some bedFile → loaded bedFile →
                  good (dataset_label params (index0 + j))) →
    loadBedFiles dataScale params bedFiles index0 chromosomes w
    = Some (w', valid) →
    Forall2 R (heap w) (heap w') ∧ index w' = index w.
Proof using R_refl R_trans R_init R_step.
  induction bedFiles as [|bedFile rest IH];
    intros index0 w w' valid Hlabels; cbn [loadBedFiles].
  { intros [= <- _]. split; [apply Forall2_preserved_refl|done]. }
  destruct (addBedData _ _ _ _ _) as [[w1 r]|] eqn:Hadd; [|done].
  cbn [mbind option_bind].
  destruct (loadBedFiles _ _ rest _ _ _) as [[w2 v]|] eqn:Hrest; [|done].
  intros [= <- _].
  assert (Forall2 R (heap w) (heap w1) ∧ index w1 = index w) as [Hw1 Hi1].
  { destruct (decide (loaded bedFile)) as [Hloaded|Hnot].
    - eapply addBedData_preserved in Hadd; [exact Hadd|].
      specialize (Hlabels 0 bedFile eq_refl Hloaded).
      by rewrite Nat.add_0_r in Hlabels.
    - assert (w1 = w) as ->;
        [|split; [apply Forall2_preserved_refl|done]].
      unfold addBedData in Hadd.
      destruct bedFile as [[|a content]|]; try by injection Hadd.
      destruct Hnot. by split. }
  apply IH in Hrest as [Hw2 Hi2].
  - split; [by eapply Forall2_preserved_trans|congruence].
  - intros j f Hj Hf.
    replace (S index0 + j) with (index0 + S j) by lia.
    by apply (Hlabels (S j) f).
Qed.
End Preserved.

Lemma loadBedFiles_same_label dataScale params l bedFiles index0
    chromosomes w w' valid :
  (∀ j bedFile, bedFiles !! j = Some bedFile → loaded bedFile →
                dataset_label params (index0 + j) ≠ l) →
  loadBedFiles dataScale params bedFiles index0 chromosomes w
  = Some (w', valid) →
  Forall2 (same_label l) (heap w) (heap w').
Proof.
  intros Hlabels Hload.
  eapply (loadBedFiles_preserved (same_label l) (λ label, label ≠ l));
    [..|exact Hlabels|exact Hload]; unfold same_label.
  - done.
  - congruence.
  - intros label c Hne. unfold initData.
    destruct (data c !! label) eqn:Hd; [done|].
    simpl. by rewrite lookup_insert_ne.
  - intros label c i c' Hne. unfold addData_step.
    destruct (data c !! label); [|done]. intros [= <-].
    simpl. by rewrite lookup_insert_ne.
Qed.

Lemma keeps_label_refl l c : keeps_label l c c.
Proof. by unfold keeps_label. Qed.

Lemma keeps_label_trans l c1 c2 c3 :
  keeps_label l c1 c2 → keeps_label l c2 c3 → keeps_label l c1 c3.
Proof. unfold keeps_label. auto. Qed.

Lemma keeps_label_init l label c : keeps_label l c (initData label c).
Proof.
  unfold keeps_label, initData.
  destruct (data c !! label) eqn:Hd; [done|]. simpl.
  destruct (decide (label = l)) as [->|Hne].
  - by rewrite lookup_insert_eq.
  - by rewrite lookup_insert_ne.
Qed.

Lemma keeps_label_step l label c i c' :
  addData_step label c i = Some c' → keeps_label l c c'.
Proof.
  unfold keeps_label, addData_step.
  destruct (data c !! label); [|done]. intros [= <-]. simpl.
  destruct (decide (label = l)) as [->|Hne].
  - by rewrite lookup_insert_eq.
  - by rewrite lookup_insert_ne.
Qed.

Lemma loadBedFiles_keeps_label dataScale params l bedFiles index0
    chromosomes w w' valid :
  loadBedFiles dataScale params bedFiles index0 chromosomes w
  = Some (w', valid) →
  Forall2 (keeps_label l) (heap w) (heap w').
Proof.
  intros Hload.
  eapply (loadBedFiles_preserved (keeps_label l) (λ _, True));
    [..|exact Hload].
  - apply keeps_label_refl.
  - apply keeps_label_trans.
  - intros label c _. apply keeps_label_init.
  - intros label c i c' _. apply keeps_label_step.
  - done.
Qed.

(** After a dataset that was read, every chromosome of the array has data
    for its label. *)
Lemma addBedData_loaded_label dataScale bedFile label chromosomes w w' r :
  loaded bedFile →
  addBedData dataScale bedFile label chromosomes w = Some (w', r) →
  ∀ a c, a ∈ chromosomes → heap w' !! a = Some c → is_Some (data c !! label).
Proof.
  intros [Hread Hfull]. unfold addBedData.
  destruct bedFile as [[|a0 content]|]; [done| |done].
  destruct (foldl _ _ _) as [w1|] eqn:Hfold; [|done]. intros [= <- _].
  rewrite addBedData_lines_entries in Hfold.
  destruct (mapM _ _) as [entries|]; [|done]. simpl in Hfold.
  apply (apply_entries_preserved (keeps_label label) (λ _, True)) in Hfold
    as [Hkeeps _]; [|apply keeps_label_refl|apply keeps_label_trans
                    |intros ? ? ? ? _; apply keeps_label_step|done].
  intros a c Ha Hc.
  destruct (Forall2_lookup_r _ _ _ _ _ Hkeeps Hc) as (c0 & Hc0 & Hk).
  apply Hk. rewrite initData_each_lookup, decide_True in Hc0 by done.
  destruct (heap w !! a) as [c1|]; [|done]. injection Hc0 as <-.
  unfold initData. destruct (data c1 !! label) eqn:Hd; [by rewrite Hd|].
  simpl. by rewrite lookup_insert_eq.
Qed.

Lemma loadBedFiles_loaded_label dataScale params bedFiles chromosomes :
  ∀ index0 w w' valid j bedFile,
    bedFiles !! j = Some bedFile → loaded bedFile →
    loadBedFiles dataScale params bedFiles index0 chromosomes w
    = Some (w', valid) →
    ∀ a c, a ∈ chromosomes → heap w' !! a = Some c →
           is_Some (data c !! dataset_label params (index0 + j)).
Proof.
  induction bedFiles as [|f rest IH];
    intros index0 w w' valid j bedFile Hj Hloaded; [done|].
  cbn [loadBedFiles].
  destruct (addBedData _ _ _ _ _) as [[w1 r]|] eqn:Hadd; [|done].
  cbn [mbind option_bind].
  destruct (loadBedFiles _ _ rest _ _ _) as [[w2 v]|] eqn:Hrest; [|done].
  intros [= <- _]. destruct j as [|j].
  - injection Hj as ->. rewrite Nat.add_0_r. intros a c Ha Hc.
    apply (loadBedFiles_keeps_label _ _ (dataset_label params index0))
      in Hrest.
    destruct (Forall2_lookup_r _ _ _ _ _ Hrest Hc) as (c1 & Hc1 & Hk).
    apply Hk. by eapply addBedData_loaded_label.
  - replace (index0 + S j) with (S index0 + j) by lia. by eapply IH.
Qed.

(** ** Drawing the plot *)

Lemma drawChromosome_None overlaps params withBorders stackIndex colIndex c l :
  l ∈ labels params → data c !! l = None →
  drawChromosome overlaps params withBorders stackIndex colIndex c = None.
Proof.
  intros [i Hi]%list_elem_of_lookup_1 Hnone. unfold drawChromosome.
  rewrite (mapM_None_2 _ (imap pair (labels params))); [done|].
  apply Exists_exists. exists (i, l). split.
  - by apply (elem_of_lookup_imap_2 pair).
  - unfold drawData. by rewrite Hnone.
Qed.

Lemma drawChromosome_Some overlaps params withBorders stackIndex colIndex c :
  (∀ l, l ∈ labels params → is_Some (data c !! l)) →
  is_Some (drawChromosome overlaps params withBorders stackIndex colIndex c).
Proof.
  intros Hall. unfold drawChromosome.
  destruct (mapM_is_Some_2
              (λ '(lblIndex, label), drawData label lblIndex withBorders c)
              (imap pair (labels params))) as [rects ->]; [|by eexists].
  apply Forall_forall. intros x (i & l & -> & Hl)%elem_of_lookup_imap_1.
  unfold compose, drawData.
  destruct (Hall l) as [arr ->]; [by eapply list_elem_of_lookup_2|].
  by eexists.
Qed.

Lemma drawSingleChromosomeStack_None overlaps params withBorders w
    stackIndex stack a c l :
  a ∈ stack → heap w !! a = Some c →
  l ∈ labels params → data c !! l = None →
  drawSingleChromosomeStack overlaps params withBorders w stackIndex stack
  = None.
Proof.
  intros [i Hi]%list_elem_of_lookup_1 Hc Hl Hnone.
  unfold drawSingleChromosomeStack.
  rewrite (mapM_None_2 _ (imap pair stack)); [done|].
  apply Exists_exists. exists (i, a). split.
  - by apply (elem_of_lookup_imap_2 pair).
  - rewrite Hc. simpl. by eapply drawChromosome_None.
Qed.

Lemma drawSingleChromosomeStack_Some overlaps params withBorders w
    stackIndex stack :
  Forall (λ a, ∃ c, heap w !! a = Some c ∧
                    ∀ l, l ∈ labels params → is_Some (data c !! l)) stack →
  is_Some (drawSingleChromosomeStack overlaps params withBorders w
                                     stackIndex stack).
Proof.
  intros Hstack. unfold drawSingleChromosomeStack.
  destruct (mapM_is_Some_2
              (λ '(colIndex, a),
                 heap w !! a
                 ≫= drawChromosome overlaps params withBorders stackIndex colIndex)
              (imap pair stack)) as [ops ->]; [|by eexists].
  apply Forall_forall. intros x (i & a & -> & Hi)%elem_of_lookup_imap_1.
  unfold compose.
  eapply Forall_forall in Hstack as (c & Hc & Hall);
    [|by eapply list_elem_of_lookup_2].
  rewrite Hc. simpl. by apply drawChromosome_Some.
Qed.

(** X12. A dataset that could not be read, or is empty, stops the plot:
    when no dataset that was read has the label [l] of [params.labels], and
    a chromosome of a stack has no data for [l] before the call, the
    datasets are put in the rasters and then [drawData] raises on this
    chromosome, so that [drawGenomePlot] returns nothing. *)
Theorem drawGenomePlot_missing_label overlaps dataScale params withBorders
    chromosomes chromosomeStacks bedFiles w w' valid l stack a c :
  loadBedFiles dataScale params bedFiles 0 chromosomes w = Some (w', valid) →
  (∀ j bedFile, bedFiles !! j = Some bedFile → loaded bedFile →
                dataset_label params j ≠ l) →
  l ∈ labels params →
  stack ∈ chromosomeStacks → a ∈ stack →
  heap w !! a = Some c → data c !! l = None →
  drawGenomePlot overlaps dataScale params withBorders
                 chromosomes chromosomeStacks bedFiles w = None.
Proof.
  intros Hload Hlabels Hl [s Hs]%list_elem_of_lookup_1 Ha Hc Hnone.
  unfold drawGenomePlot. rewrite Hload. simpl.
  apply (loadBedFiles_same_label _ _ l) in Hload; [|done].
  destruct (Forall2_lookup_l _ _ _ _ _ Hload Hc) as (c' & Hc' & Hsame).
  rewrite (mapM_None_2 _ (imap pair chromosomeStacks)); [done|].
  apply Exists_exists. exists (s, stack). split.
  - by apply (elem_of_lookup_imap_2 pair).
  - eapply drawSingleChromosomeStack_None; [done..|].
    unfold same_label in Hsame. congruence.
Qed.

Lemma drawGenomePlot_missing_label_witness :
  drawGenomePlot (λ _ _, false) 100
    (mkParams ["a"; "b"] ["a.bed"; "b.bed"] 10 2 5 None 8 4) false
    [0; 1] [[0]; [1]] [Some ("chr1 0 150" +:+ LF); None] world_ab = None.
Proof.
  eapply (drawGenomePlot_missing_label (λ _ _, false) 100 _ false
            [0; 1] [[0]; [1]] [Some ("chr1 0 150" +:+ LF); None] world_ab
            _ 1 "b" [0] 0 chr_a).
  - vm_compute. reflexivity.
  - intros [|[|j]] bedFile; [by intros [= <-] _ | by intros [= <-] [? _] | done].
  - right. left.
  - left.
  - left.
  - reflexivity.
  - reflexivity.
Defined.

(** X13. When every dataset was read and is not empty, [params.labels] has
    no more entries than there are datasets and none of them is empty, and
    the stacks hold chromosomes of the array, no [drawData] raises: once
    the datasets are in the rasters, [drawGenomePlot] returns the plot. *)
Theorem drawGenomePlot_all_loaded overlaps dataScale params withBorders
    chromosomes chromosomeStacks bedFiles w w' valid :
  loadBedFiles dataScale params bedFiles 0 chromosomes w = Some (w', valid) →
  Forall loaded bedFiles →
  length (labels params) ≤ length bedFiles →
  "" ∉ labels params →
  Forall (Forall (λ a, a ∈ chromosomes ∧ a < length (heap w)))
         chromosomeStacks →
  is_Some (drawGenomePlot overlaps dataScale params withBorders
                          chromosomes chromosomeStacks bedFiles w).
Proof.
  intros Hload Hloaded Hlen Hnonempty Hstacks.
  unfold drawGenomePlot. rewrite Hload. simpl.
  assert (Hall : ∀ a c, a ∈ chromosomes → heap w' !! a = Some c →
                        ∀ l, l ∈ labels params → is_Some (data c !! l)).
  { intros a c Ha Hc l [i Hi]%list_elem_of_lookup_1.
    assert (i < length bedFiles) as [f Hf]%lookup_lt_is_Some_2.
    { apply lookup_lt_Some in Hi. lia. }
    pose proof (loadBedFiles_loaded_label _ _ _ _ _ _ _ _ i f Hf
                  ltac:(eapply Forall_forall in Hloaded; [done|];
                        by eapply list_elem_of_lookup_2)
                  Hload a c Ha Hc) as Hlabel.
    simpl in Hlabel.
    replace (dataset_label params i) with l in Hlabel; [done|].
    unfold dataset_label. rewrite Hi. destruct l; [|done].
    destruct Hnonempty. by eapply list_elem_of_lookup_2. }
  apply (loadBedFiles_keeps_label _ _ "") in Hload.
  apply Forall2_length in Hload.
  destruct (mapM_is_Some_2
              (λ '(stackIndex, stack),
                 drawSingleChromosomeStack overlaps params withBorders
                                           w' stackIndex stack)
              (imap pair chromosomeStacks)) as [ops ->]; [|by eexists].
  apply Forall_forall. intros x (i & stack & -> & Hi)%elem_of_lookup_imap_1.
  unfold compose. apply drawSingleChromosomeStack_Some.
  eapply Forall_forall in Hstacks; [|by eapply list_elem_of_lookup_2].
  eapply Forall_impl; [exact Hstacks|]. simpl. intros a [Ha Hlt].
  rewrite Hload in Hlt. apply lookup_lt_is_Some_2 in Hlt as [c Hc].
  exists c. split; [done|]. by eapply Hall.
Qed.

Lemma drawGenomePlot_all_loaded_witness :
  is_Some
    (drawGenomePlot (λ _ _, false) 100
       (mkParams ["a"] ["a.bed"; "b.bed"] 10 2 5 None 8 4) false
       [0; 1] [[0]; [1]]
       [Some ("chr1 0 150" +:+ LF); Some ("chr2 100 120" +:+ LF)] world_ab).
Proof.
  eapply (drawGenomePlot_all_loaded (λ _ _, false) 100 _ false
            [0; 1] [[0]; [1]]
            [Some ("chr1 0 150" +:+ LF); Some ("chr2 100 120" +:+ LF)]
            world_ab).
  - vm_compute. reflexivity.
  - repeat constructor; done.
  - simpl. lia.
  - by intros ?%list_elem_of_singleton.
  - repeat constructor; simpl; lia.
Defined.

(** ** Preparing the chromosomes *)

Lemma objects_of_seq (w : World) n m :
  length (heap w) = n + m → objects_of w (seq n m) = drop n (heap w).
Proof.
  unfold objects_of. generalize (heap w). intros h. revert n h.
  induction m as [|m IH]; intros n h Hlen; simpl.
  { by rewrite drop_ge by lia. }
  destruct (h !! n) as [c|] eqn:Hc.
  2:{ apply lookup_ge_None in Hc. lia. }
  rewrite IH by lia. by rewrite (drop_S h c n Hc).
Qed.

Lemma Forall_objects_of (P : Chromosome → Prop) (w : World) chromosomes :
  Forall (λ a, ∃ c, heap w !! a = Some c ∧ P c) chromosomes →
  Forall P (objects_of w chromosomes).
Proof.
  unfold objects_of. induction 1 as [|a cs (c & Hc & HP) _ IH]; simpl; [done|].
  rewrite Hc. by constructor.
Qed.

(** The chromosomes that [parseChromSizeFile] makes for an empty array. *)
Lemma parseChromSizeFile_fresh (fileContent : string)
    (chromosomes : list nat) (w w' : World) :
  parseChromSizeFile fileContent [] w = Some (chromosomes, w') →
  NoDup (name <$> objects_of w' chromosomes) ∧
  Forall bare (objects_of w' chromosomes).
Proof.
  intros Hrun.
  assert (Hall : ∃ new : list Chromosome,
    heap w' = heap w ++ new ∧
    chromosomes = seq (length (heap w)) (length new) ∧
    NoDup (name <$> new) ∧ Forall bare new ∧
    ∀ c, c ∈ new → is_Some (index w' !! name c)).
  { apply (foldl_bind_ind parseChromSizeFile_line (λ _ state,
      ∃ new : list Chromosome,
        heap state.2 = heap w ++ new ∧
        state.1 = seq (length (heap w)) (length new) ∧
        NoDup (name <$> new) ∧ Forall bare new ∧
        ∀ c, c ∈ new → is_Some (index state.2 !! name c))
             ([], w)) with (a' := (chromosomes, w')) (l := file_lines fileContent);
      [| |exact Hrun].
    { exists []. rewrite app_nil_r. split; [done|]. split; [done|].
      split; [constructor|]. split; [done|].
      intros ? Hin. by apply not_elem_of_nil in Hin. }
    intros _ line [cs w1] [cs' w2] (new & Hheap & Hcs & Hnd & Hbare & Hin).
    simpl in *. unfold parseChromSizeFile_line.
    destruct (hasOwnProperty w1 _) as [known|] eqn:Hknown; [|done].
    cbn [mbind option_bind].
    apply hasOwnProperty_Some in Hknown as [Hcallable Hhas].
    destruct known.
    { intros [= <- <-]. by exists new. }
    destruct (JS.parseInt_at _ 1) as [size|]; [|done]. cbn [mbind option_bind].
    intros (Hkey & -> & ->)%push_chromosome_Some.
    apply has_chromosome_false in Hhas as [_ Hnone].
    set (key := first_token (line_tokens line)) in *.
    exists (new ++ [newChromosome key size]). simpl.
    rewrite Hheap, <- app_assoc. split; [done|].
    split; [|split; [|split]].
    - rewrite Hcs, !length_app. simpl. by rewrite Nat.add_1_r, seq_S.
    - rewrite fmap_app. apply NoDup_app. split; [done|].
      split; [|apply NoDup_singleton].
      intros k (c & -> & Hc)%list_elem_of_fmap Hk%list_elem_of_singleton.
      apply Hin in Hc as [a Ha]. simpl in Hk. congruence.
    - apply Forall_app. split; [done|]. by apply Forall_singleton.
    - intros c [Hc| ->%list_elem_of_singleton]%elem_of_app.
      + destruct (decide (name c = key)) as [->|Hne];
          [by rewrite lookup_insert_eq|].
        rewrite lookup_insert_ne by done. by apply Hin.
      + simpl. by rewrite lookup_insert_eq. }
  destruct Hall as (new & Hheap & -> & Hnd & Hbare & _).
  rewrite objects_of_seq by (by rewrite Hheap, length_app).
  by rewrite Hheap, drop_app_length.
Qed.

(** The names of the chromosomes that [parseCytobandIdeoFile] makes for an
    empty array. *)
Lemma parseCytobandIdeoFile_fresh (fileContent : string)
    (chromosomes : list nat) (w w' : World) :
  parseCytobandIdeoFile fileContent [] w = Some (chromosomes, w') →
  NoDup (name <$> objects_of w' chromosomes).
Proof.
  intros Hrun.
  assert (Hall : ∃ new : list string,
    name <$> heap w' = (name <$> heap w) ++ new ∧
    chromosomes = seq (length (heap w)) (length new) ∧
    NoDup new ∧ ∀ key, key ∈ new → is_Some (index w' !! key)).
  { apply (foldl_bind_ind parseCytobandIdeoFile_line (λ _ state,
      ∃ new : list string,
        name <$> heap state.2 = (name <$> heap w) ++ new ∧
        state.1 = seq (length (heap w)) (length new) ∧
        NoDup new ∧ ∀ key, key ∈ new → is_Some (index state.2 !! key))
             ([], w)) with (a' := (chromosomes, w')) (l := file_lines fileContent);
      [| |exact Hrun].
    { exists []. rewrite app_nil_r. split; [done|]. split; [done|].
      split; [constructor|]. intros ? Hin. by apply not_elem_of_nil in Hin. }
    intros _ line [cs w1] [cs' w2] (new & Hnames & Hcs & Hnd & Hin).
    simpl in *. unfold parseCytobandIdeoFile_line.
    destruct (JS.parseInt_at _ 1) as [start|]; [|done].
    destruct (JS.parseInt_at _ 2) as [band_end|]; [|done].
    destruct (_ !! 4) as [stain|]; [|done]. cbn [mbind option_bind].
    set (key := first_token (line_tokens line)).
    set (band := mkCytoband _ stain).
    assert (Hcall : ∀ w3 w4,
      call_on key (λ c, Some (addCytoband band c)) w3 = Some w4 →
      name <$> heap w4 = name <$> heap w3 ∧ index w4 = index w3).
    { intros w3 w4 (_ & a & c & c' & Ha & Hc & [= <-] & ->)%call_on_Some.
      simpl. split; [|done].
      destruct (addCytoband_fields band c) as (_ & _ & _ & _ & _ & _ & Hn & _).
      rewrite list_fmap_insert, Hn. apply list_insert_id.
      by rewrite list_lookup_fmap, Hc. }
    destruct (hasOwnProperty w1 key) as [known|] eqn:Hknown; [|done].
    cbn [mbind option_bind].
    apply hasOwnProperty_Some in Hknown as [Hcallable Hhas].
    destruct known; cbn [mbind option_bind].
    - destruct (call_on key _ w1) as [w3|] eqn:Hrun3; [|done].
      simpl. intros [= <- <-]. apply Hcall in Hrun3 as [Hn3 Hx3].
      exists new. simpl. by rewrite Hn3, Hx3.
    - destruct (push_chromosome key band_end cs w1) as [[cs1 w1']|] eqn:Hpush;
        [|done].
      cbn [mbind option_bind].
      apply push_chromosome_Some in Hpush as (Hkey & -> & ->).
      apply has_chromosome_false in Hhas as [_ Hnone].
      destruct (call_on key _ _) as [w3|] eqn:Hrun3; [|done].
      simpl. intros [= <- <-]. apply Hcall in Hrun3 as [Hn3 Hx3].
      simpl in *. exists (new ++ [key]). rewrite Hn3, Hx3.
      rewrite fmap_app, Hnames, <- app_assoc. split; [done|].
      assert (Hlen : length (heap w1) = length (heap w) + length new).
      { rewrite <- (length_fmap name (heap w1)), Hnames, length_app.
        by rewrite length_fmap. }
      split; [|split].
      + rewrite Hcs, Hlen, length_app. simpl. by rewrite Nat.add_1_r, seq_S.
      + apply NoDup_app. split; [done|]. split; [|apply NoDup_singleton].
        intros k Hk ->%list_elem_of_singleton.
        apply Hin in Hk as [a Ha]. congruence.
      + intros k [Hk| ->%list_elem_of_singleton]%elem_of_app.
        * destruct (decide (k = key)) as [->|Hne];
            [by rewrite lookup_insert_eq|].
          rewrite lookup_insert_ne by done. by apply Hin.
        * by rewrite lookup_insert_eq. }
  destruct Hall as (new & Hnames & -> & Hnd & _).
  assert (Hlen : length (heap w') = length (heap w) + length new).
  { rewrite <- (length_fmap name (heap w')), Hnames, length_app.
    by rewrite length_fmap. }
  rewrite objects_of_seq by done.
  rewrite fmap_drop, Hnames, <- (length_fmap name (heap w)).
  by rewrite drop_app_length.
Qed.

Lemma filterChromosome_sublist chromosomes includeNonRegular includeMito :
  ∃ sorted,
    sorted ≡ₚ chromosomes ∧
    filterChromosome chromosomes includeNonRegular includeMito
    `sublist_of` sorted.
Proof.
  exists (JS.sort compare_chromosomes chromosomes).
  split; [apply sort_Permutation|apply sublist_filter].
Qed.

Lemma drawArm_no_bar overlaps c arm width :
  ChromosomeBar width ∉ drawArm overlaps c arm.
Proof.
  unfold drawArm. rewrite !elem_of_app, !elem_of_cons, list_elem_of_join.
  intros [[|[|[]%elem_of_nil]]|[(ops & Hin & Hops)|[|[]%elem_of_nil]]]; try done.
  apply list_elem_of_fmap in Hops as (band & -> & _).
  unfold drawBand in Hin. destruct (overlaps arm band); [|by apply elem_of_nil in Hin].
  apply elem_of_cons in Hin as [|Hin]; [done|].
  destruct (is_hatched band); [|by apply elem_of_nil in Hin].
  by apply list_elem_of_singleton in Hin.
Qed.

(** X14. What [prepareChromosomeFromFile] hands over, whatever the state
    of the process. The names of the chromosomes are distinct, and every
    chromosome is in one stack, once, stacked or not. When a sizes file is
    given, the cytoband file is not read: every chromosome is drawn as a
    bar. When only a cytoband file is given, every chromosome has a band
    and is drawn as arms, never as a bar. *)
Theorem prepareChromosomes_modes
    (overlaps : ChromRegion.t → ChromRegion.t → bool) (w : World)
    (chromSizes cytobandIdeo : option string)
    (includeNonRegular includeMito stacked : bool)
    (chromosomes : list Chromosome) (stacks : list (list Chromosome)) :
  prepareChromosomes w chromSizes cytobandIdeo includeNonRegular includeMito
                     stacked = Some (chromosomes, stacks) →
  NoDup (name <$> chromosomes) ∧
  mjoin stacks ≡ₚ chromosomes ∧
  (is_Some chromSizes →
   Forall (λ c, drawSelf overlaps c = [ChromosomeBar (end_ c)]) chromosomes) ∧
  (chromSizes = None →
   Forall (λ c, is_Some (drawSelf_arms c) ∧
                ∀ width, ChromosomeBar width ∉ drawSelf overlaps c)
          chromosomes).
Proof.
  unfold prepareChromosomes. intros Hrun.
  set (parsed := match chromSizes with
                 | Some content => parseChromSizeFile content [] w
                 | None => cytobandIdeo ≫= λ content,
                             parseCytobandIdeoFile content [] w
                 end) in Hrun.
  destruct parsed as [[array w']|] eqn:Hparsed; [|done].
  cbn [mbind option_bind] in Hrun.
  set (cs := objects_of w' array) in Hrun.
  set (kept := filterChromosome cs includeNonRegular includeMito) in Hrun.
  destruct (filterChromosome_sublist cs includeNonRegular includeMito)
    as (sorted & Hperm & Hsub). fold kept in Hsub.
  assert (Hstacks : chromosomes = kept ∧ mjoin stacks ≡ₚ kept).
  { destruct stacked.
    - destruct (getStackedChromosomes kept) as [st|] eqn:Hst; [|done].
      injection Hrun as <- <-. split; [done|].
      unfold getStackedChromosomes in Hst.
      destruct (stackChromosomes_total
                  (filter (λ c, isNumbered c = true) kept))
        as (numbered & Hn & Hnp & _).
      destruct (stackChromosomes_total
                  (filter (λ c, isNumbered c ≠ true) kept))
        as (others & Ho & Hop & _).
      rewrite Hn, Ho in Hst. injection Hst as <-.
      rewrite join_app, Hnp, Hop. apply filter_isNumbered_Permutation.
    - injection Hrun as <- <-. split; [done|].
      clear. induction kept as [|c l IH]; [done|]. simpl. by constructor. }
  destruct Hstacks as [-> Hjoin].
  assert (Hin : ∀ c, c ∈ kept → c ∈ cs).
  { intros c Hc. rewrite <- Hperm. by eapply elem_of_sublist. }
  assert (Hnames : NoDup (name <$> cs) → NoDup (name <$> kept)).
  { intros Hnd. eapply sublist_NoDup; [|by apply fmap_sublist].
    by rewrite Hperm. }
  subst parsed. destruct chromSizes as [content|].
  - apply parseChromSizeFile_fresh in Hparsed as [Hnd Hbare].
    split; [by apply Hnames|]. split; [done|]. split; [|done].
    intros _. apply Forall_forall. intros c Hc%Hin.
    eapply Forall_forall in Hbare; [|done]. rewrite Hbare. reflexivity.
  - destruct cytobandIdeo as [content|]; [|done]. simpl in Hparsed.
    pose proof (parseCytobandIdeoFile_fresh _ _ _ _ Hparsed) as Hnd.
    apply parseCytobandIdeoFile_tight, Forall_objects_of in Hparsed.
    fold cs in Hparsed.
    split; [by apply Hnames|]. split; [done|].
    split; [by intros [? ?]|]. intros _.
    apply Forall_forall. intros c Hc%Hin.
    eapply Forall_forall in Hparsed as [Hb (b & Hb_in & _)]; [|done].
    destruct Hb as (Hwf & _).
    assert (Hne : length (cytobands c) ≠ 0).
    { destruct Hwf as [Hrefs _]. rewrite Hrefs, length_seq.
      destruct (store c); [by apply not_elem_of_nil in Hb_in|done]. }
    assert (Harms : is_Some (drawSelf_arms c)).
    { unfold drawSelf_arms. rewrite decide_True by done.
      by destruct (centromere_band c). }
    split; [done|]. intros width. unfold drawSelf.
    destruct Harms as [arms ->]. intros Hbar.
    apply list_elem_of_join in Hbar as (ops & Hbar & Hops).
    apply list_elem_of_fmap in Hops as (arm & -> & _).
    revert Hbar. apply drawArm_no_bar.
Qed.

Lemma prepareChromosomes_modes_witness :
  ∃ chromosomes stacks,
    prepareChromosomes world_mito
                       (Some ("chr2 200" +:+ LF +:+ "chrM 16571" +:+ LF
                                +:+ "chr3 300" +:+ LF +:+ "chr1 1"))
                       (Some "chr1 0 100 p11 gneg") false false true
    = Some (chromosomes, stacks) ∧
    (name <$> chromosomes) = ["chr2"; "chr3"] ∧
    Forall (λ c, drawSelf (λ _ _, true) c = [ChromosomeBar (end_ c)])
           chromosomes.
Proof.
  eexists _, _. split; [vm_compute; reflexivity|]. split; [reflexivity|].
  eapply (prepareChromosomes_modes (λ _ _, true) world_mito
            (Some ("chr2 200" +:+ LF +:+ "chrM 16571" +:+ LF
                     +:+ "chr3 300" +:+ LF +:+ "chr1 1"))
            (Some "chr1 0 100 p11 gneg") false false true);
    [vm_compute; reflexivity|by eexists].
Defined.

(** ** Datasets and the chromosomes left out by the filter *)

Lemma call_on_None key method (w : World) :
  (∀ a c, index w !! key = Some a → heap w !! a = Some c → method c = None) →
  call_on key method w = None.
Proof.
  intros Hall. unfold call_on. destruct (bool_decide _); [done|].
  destruct (index w !! key) as [a|] eqn:Ha; [|done]. simpl.
  destruct (heap w !! a) as [c|] eqn:Hc; [|done]. simpl.
  by rewrite (Hall a c).
Qed.

Lemma addData_loop_None label lo hi c :
  data c !! label = None → (lo ≤ hi)%Z → addData_loop label lo hi c = None.
Proof.
  intros Hnone Hle. unfold addData_loop.
  rewrite seqZ_cons by lia. cbn [foldl mbind option_bind].
  unfold addData_step at 2. rewrite Hnone. apply foldl_bind_None.
Qed.

Lemma stays_without_refl label c : stays_without label c c.
Proof. by unfold stays_without. Qed.

Lemma stays_without_trans label c1 c2 c3 :
  stays_without label c1 c2 → stays_without label c2 c3 →
  stays_without label c1 c3.
Proof.
  unfold stays_without. intros (-> & -> & H12) (-> & -> & H23). auto.
Qed.

Lemma stays_without_step label c i c' :
  addData_step label c i = Some c' → stays_without label c c'.
Proof.
  unfold stays_without, addData_step.
  destruct (data c !! label); [|done]. by intros [= <-].
Qed.

(** X15. A line of a dataset that names a chromosome left out by the
    filter raises. The chromosome is still in the index, and it is not in
    the array: [initData] was not called on it, so it has no raster for
    the label; and [addData] writes to the raster as soon as the interval
    has a bin, that is when its start does not round above its end. *)
Theorem addBedData_left_out (dataScale : Z) (content label : string)
    (chromosomes : list nat) (w : World)
    (entries : list ChromRegion.t) (e : ChromRegion.t)
    (a : nat) (c : Chromosome) :
  heap w !! a = Some c → index w !! name c = Some a → a ∉ chromosomes →
  chr c = name c → data c !! label = None →
  content ≠ "" → bed_entries content = Some entries →
  e ∈ entries → ChromRegion.chr e = name c →
  (Math_round_div (ChromRegion.start e) dataScale
   ≤ Math_round_div (ChromRegion.end_ e) dataScale)%Z →
  addBedData dataScale (Some content) label chromosomes w = None.
Proof.
  intros Hc Ha Hout Hchr Hnone Hcontent Hentries He Hkey Hbins.
  unfold addBedData. destruct content as [|a0 content']; [done|].
  rewrite addBedData_lines_entries. unfold bed_entries in Hentries.
  rewrite Hentries. cbn [mbind option_bind].
  apply list_elem_of_split in He as (es1 & es2 & ->).
  rewrite foldl_app. cbn [foldl].
  set (start := initData_each label chromosomes w).
  assert (Hstart : heap start !! a = Some c).
  { unfold start. rewrite initData_each_lookup, Hc.
    by rewrite decide_False by done. }
  destruct (foldl _ (Some start) es1) as [w1|] eqn:Hfold;
    [|cbn [mbind option_bind]; by rewrite foldl_bind_None].
  cbn [mbind option_bind].
  apply (apply_entries_preserved (stays_without label) (λ l, l = label))
    in Hfold as [Hheap Hindex];
    [|apply stays_without_refl|apply stays_without_trans
     |intros ? ? ? ? ->; apply stays_without_step|done].
  destruct (Forall2_lookup_l _ _ _ _ _ Hheap Hstart)
    as (c1 & Hc1 & Hname1 & Hchr1 & Hdata1).
  assert (apply_entry dataScale label e w1 = None) as ->.
  2:{ by rewrite foldl_bind_None. }
  unfold apply_entry. rewrite Hkey.
  assert (Ha1 : index w1 !! name c = Some a) by by rewrite Hindex.
  destruct (hasOwnProperty w1 (name c)) as [known|] eqn:Hknown; [|done].
  cbn [mbind option_bind].
  apply hasOwnProperty_Some in Hknown as [_ Hhas].
  destruct known.
  2:{ apply has_chromosome_false in Hhas as [_ Hhas]. congruence. }
  apply call_on_None. intros a2 c2 Ha2 Hc2.
  assert (a2 = a) as -> by congruence.
  assert (c2 = c1) as -> by congruence.
  unfold addData. rewrite decide_False by (rewrite Hkey, Hchr1, Hchr; tauto).
  apply addData_loop_None; [by apply Hdata1|done].
Qed.

Lemma addBedData_left_out_witness :
  addBedData 100 (Some ("chr1 0 150" +:+ LF +:+ "chrM 10 20")) "a"
             [0] world_mito = None.
Proof.
  eapply (addBedData_left_out 100 ("chr1 0 150" +:+ LF +:+ "chrM 10 20") "a"
            [0] world_mito _ (ChromRegion.mk "chrM" 10 20 None) 1 chr_mito).
  - reflexivity.
  - reflexivity.
  - by intros ?%list_elem_of_singleton.
  - reflexivity.
  - reflexivity.
  - done.
  - vm_compute. reflexivity.
  - right. left.
  - reflexivity.
  - by vm_compute.
Defined.

(** ** Datasets that name chromosomes of the array only *)

Lemma array_index_lookup chromosomes (w : World) key :
  (∀ a, index w !! key = Some a → a ∈ chromosomes) →
  index (array_index chromosomes w) !! key = index w !! key.
Proof.
  intros Hkey. unfold array_index. simpl.
  destruct (index w !! key) as [a|] eqn:Ha.
  - apply map_lookup_filter_Some. split; [done|]. by apply Hkey.
  - apply map_lookup_filter_None. by left.
Qed.

Lemma has_chromosome_array_index chromosomes (w : World) key :
  (∀ a, index w !! key = Some a → a ∈ chromosomes) →
  has_chromosome (array_index chromosomes w) key = has_chromosome w key.
Proof.
  intros Hkey. unfold has_chromosome. by rewrite array_index_lookup.
Qed.

Lemma hasOwnProperty_array_index chromosomes (w : World) key :
  (∀ a, index w !! "hasOwnProperty" = Some a → a ∈ chromosomes) →
  (∀ a, index w !! key = Some a → a ∈ chromosomes) →
  hasOwnProperty (array_index chromosomes w) key = hasOwnProperty w key.
Proof.
  intros Hhidden Hkey. unfold hasOwnProperty.
  rewrite (array_index_lookup chromosomes w "hasOwnProperty") by done.
  by rewrite has_chromosome_array_index.
Qed.

Lemma call_on_array_index chromosomes key method (w : World) :
  (∀ a, index w !! key = Some a → a ∈ chromosomes) →
  call_on key method (array_index chromosomes w)
  = array_index chromosomes <$> call_on key method w.
Proof.
  intros Hkey. unfold call_on. rewrite array_index_lookup by done.
  destruct (bool_decide _); [done|].
  destruct (index w !! key) as [a|]; [|done]. simpl.
  destruct (heap w !! a) as [c|]; [|done]. simpl.
  by destruct (method c).
Qed.

Lemma addBedData_line_array_index dataScale label chromosomes line (w : World) :
  (∀ a, index w !! "hasOwnProperty" = Some a → a ∈ chromosomes) →
  (∀ a, index w !! first_token (line_tokens line) = Some a →
        a ∈ chromosomes) →
  addBedData_line dataScale label (array_index chromosomes w) line
  = array_index chromosomes <$> addBedData_line dataScale label w line
  ∧ ∀ w', addBedData_line dataScale label w line = Some w' →
      index w' = index w ∧
      ∀ a, a ∉ chromosomes → heap w' !! a = heap w !! a.
Proof.
  intros Hhidden Hkey. unfold addBedData_line.
  destruct (JS.parseInt_at _ 1) as [start|]; [|done].
  destruct (JS.parseInt_at _ 2) as [band_end|]; [|done].
  cbn [mbind option_bind ChromRegion.chr].
  rewrite hasOwnProperty_array_index by done.
  destruct (hasOwnProperty w _) as [[|]|]; cbn [mbind option_bind];
    [| |done].
  - split; [by apply call_on_array_index|].
    intros w' (_ & a & c & c' & Ha & Hc & _ & ->)%call_on_Some. simpl.
    split; [done|]. intros b Hb. apply list_lookup_insert_ne.
    intros ->. by apply Hb, Hkey.
  - split; [done|]. by intros ? [= <-].
Qed.

Lemma addBedData_lines_array_index dataScale label chromosomes lines :
  ∀ w : World,
    (∀ a, index w !! "hasOwnProperty" = Some a → a ∈ chromosomes) →
    (∀ line a, line ∈ lines →
               index w !! first_token (line_tokens line) = Some a →
               a ∈ chromosomes) →
    foldl (λ acc line, acc ≫= λ w1, addBedData_line dataScale label w1 line)
          (Some (array_index chromosomes w)) lines
    = array_index chromosomes
        <$> foldl (λ acc line, acc ≫= λ w1, addBedData_line dataScale label w1 line)
                  (Some w) lines
    ∧ ∀ w',
        foldl (λ acc line, acc ≫= λ w1, addBedData_line dataScale label w1 line)
              (Some w) lines = Some w' →
        index w' = index w ∧
        ∀ a, a ∉ chromosomes → heap w' !! a = heap w !! a.
Proof.
  induction lines as [|line lines IH]; intros w Hhidden Hcond.
  { split; [done|]. by intros ? [= <-]. }
  cbn [foldl mbind option_bind].
  destruct (addBedData_line_array_index dataScale label chromosomes line w)
    as [Hstep Hout]; [done| |].
  { intros a. apply Hcond. by left. }
  rewrite Hstep.
  destruct (addBedData_line dataScale label w line) as [w1|] eqn:Hrun.
  - simpl. destruct (Hout w1 eq_refl) as [Hi1 Hh1].
    destruct (IH w1) as [IHin IHout].
    { by rewrite Hi1. }
    { intros l a Hl. rewrite Hi1. apply Hcond. by right. }
    split; [done|]. intros w' Hrest.
    destruct (IHout _ Hrest) as [Hi2 Hh2]. split; [congruence|].
    intros a Ha. by rewrite Hh2, Hh1.
  - simpl. rewrite !foldl_bind_None. done.
Qed.

(** X16. When no line of the dataset names a chromosome that is in the
    index and not in the array, and no such chromosome hides the method
    [hasOwnProperty], the objects left in the index by other calls do not
    matter: [addBedData] does what it does in a process whose index has
    the chromosomes of the array only, it raises when that one raises, it
    does not write to the index, and the objects that are not in the array
    are as they were. *)
Theorem addBedData_indexed_agrees (dataScale : Z) (content label : string)
    (chromosomes : list nat) (w : World) :
  (∀ a, index w !! "hasOwnProperty" = Some a → a ∈ chromosomes) →
  (∀ line a, line ∈ file_lines content →
             index w !! first_token (line_tokens line) = Some a →
             a ∈ chromosomes) →
  match addBedData dataScale (Some content) label chromosomes w with
  | Some (w', result) =>
      addBedData dataScale (Some content) label chromosomes
                 (array_index chromosomes w)
      = Some (array_index chromosomes w', result) ∧
      index w' = index w ∧
      ∀ a, a ∉ chromosomes → heap w' !! a = heap w !! a
  | None =>
      addBedData dataScale (Some content) label chromosomes
                 (array_index chromosomes w) = None
  end.
Proof.
  intros Hhidden Hlines. unfold addBedData.
  destruct content as [|a0 content']; [done|].
  destruct (addBedData_lines_array_index dataScale label chromosomes
              (file_lines (String a0 content'))
              (initData_each label chromosomes w)) as [Hrun Hrest]; [done| |].
  { intros line a Hline. by apply Hlines. }
  change (initData_each label chromosomes (array_index chromosomes w))
    with (array_index chromosomes (initData_each label chromosomes w)).
  rewrite Hrun.
  destruct (foldl _ (Some (initData_each label chromosomes w)) _)
    as [w'|]; [|done].
  simpl. split; [done|]. destruct (Hrest w' eq_refl) as [Hi Hh].
  split; [done|]. intros a Ha. rewrite Hh by done.
  rewrite initData_each_lookup, decide_False by done.
  by rewrite option_fmap_id.
Qed.

Lemma addBedData_indexed_agrees_witness :
  ∃ w',
    addBedData 100 (Some ("chr1 0 150" +:+ LF +:+ "chrX 10 20")) "a"
               [0] world_mito = Some (w', true) ∧
    addBedData 100 (Some ("chr1 0 150" +:+ LF +:+ "chrX 10 20")) "a"
               [0] (array_index [0] world_mito)
    = Some (array_index [0] w', true) ∧
    heap w' !! 1 = Some chr_mito.
Proof.
  eexists. split; [vm_compute; reflexivity|].
  split; [|reflexivity].
  refine (proj1 (addBedData_indexed_agrees 100
                   ("chr1 0 150" +:+ LF +:+ "chrX 10 20") "a"
                   [0] world_mito _ _)); [by vm_compute|].
  intros line a Hline.
  assert (file_lines ("chr1 0 150" +:+ LF +:+ "chrX 10 20")
          = ["chr1 0 150"; "chrX 10 20"]) as Hlines
    by (vm_compute; reflexivity).
  rewrite Hlines in Hline.
  apply elem_of_cons in Hline as [->|Hline].
  - vm_compute. intros [= <-]. left.
  - apply list_elem_of_singleton in Hline as ->.
    vm_compute. discriminate.
Defined.

(** ** Datasets without a label of their own *)

Lemma drawn_alike_refl params c : drawn_alike params c c.
Proof. by unfold drawn_alike, same_annotation. Qed.

Lemma drawn_alike_trans params c1 c2 c3 :
  drawn_alike params c1 c2 → drawn_alike params c2 c3 →
  drawn_alike params c1 c3.
Proof.
  unfold drawn_alike, same_annotation.
  intros [H12 D12] [H23 D23]. split; [intuition congruence|].
  intros l Hl. rewrite D23, D12; done.
Qed.

Lemma drawn_alike_init params label c :
  label ∉ labels params → drawn_alike params c (initData label c).
Proof.
  intros Hout. unfold initData.
  destruct (data c !! label) eqn:Hd; [apply drawn_alike_refl|].
  split; [apply with_data_same_annotation|].
  intros l Hl. simpl. rewrite lookup_insert_ne; [done|]. by intros ->.
Qed.

Lemma drawn_alike_step params label c i c' :
  label ∉ labels params → addData_step label c i = Some c' →
  drawn_alike params c c'.
Proof.
  intros Hout. unfold addData_step.
  destruct (data c !! label); [|done]. intros [= <-].
  split; [apply with_data_same_annotation|].
  intros l Hl. simpl. rewrite lookup_insert_ne; [done|]. by intros ->.
Qed.

Lemma loadBedFiles_app dataScale params bedFiles1 bedFiles2 :
  ∀ index0 chromosomes (w : World),
    loadBedFiles dataScale params (bedFiles1 ++ bedFiles2) index0 chromosomes w
    = '(w1, valid1) ←
        loadBedFiles dataScale params bedFiles1 index0 chromosomes w;
      '(w2, valid2) ←
        loadBedFiles dataScale params bedFiles2
                     (index0 + length bedFiles1) chromosomes w1;
      Some (w2, valid1 + valid2).
Proof.
  induction bedFiles1 as [|bedFile rest IH]; intros index0 cs w.
  { simpl. rewrite Nat.add_0_r.
    by destruct (loadBedFiles _ _ bedFiles2 _ _ _) as [[? ?]|]. }
  cbn [app loadBedFiles length].
  destruct (addBedData _ _ _ _ _) as [[w1 r]|]; [|done].
  cbn [mbind option_bind]. rewrite IH.
  replace (S index0 + length rest) with (index0 + S (length rest)) by lia.
  destruct (loadBedFiles _ _ rest _ _ _) as [[w2 v]|]; [|done].
  cbn [mbind option_bind].
  destruct (loadBedFiles _ _ bedFiles2 _ _ _) as [[w3 v3]|]; [|done].
  cbn [mbind option_bind]. by destruct r.
Qed.

Lemma mapM_ext_in {A B} (f g : A → option B) (l : list A) :
  (∀ x, x ∈ l → f x = g x) → mapM f l = mapM g l.
Proof.
  induction l as [|x l IH]; intros Hext; [done|].
  cbn [mapM]. rewrite (Hext x) by by left.
  rewrite IH; [done|]. intros y Hy. apply Hext. by right.
Qed.

Lemma drawSelf_alike overlaps c c' :
  same_annotation c c' → drawSelf overlaps c' = drawSelf overlaps c.
Proof.
  intros (Hchr & Hstart & Hend & Hname & Hstore & Hbands & Hcen).
  unfold drawSelf, drawSelf_arms, drawArm, bands, centromere_band, as_region.
  by rewrite Hchr, Hstart, Hend, Hname, Hstore, Hbands, Hcen.
Qed.

Lemma drawChromosome_alike overlaps params withBorders stackIndex colIndex c c' :
  drawn_alike params c c' →
  drawChromosome overlaps params withBorders stackIndex colIndex c'
  = drawChromosome overlaps params withBorders stackIndex colIndex c.
Proof.
  intros [Hann Hdata]. unfold drawChromosome.
  rewrite (drawSelf_alike overlaps c c' Hann).
  destruct Hann as (_ & _ & -> & -> & _).
  rewrite (mapM_ext_in
             (λ '(lblIndex, label), drawData label lblIndex withBorders c')
             (λ '(lblIndex, label), drawData label lblIndex withBorders c));
    [done|].
  intros x (i & l & -> & Hl)%elem_of_lookup_imap_1.
  unfold drawData. rewrite Hdata; [done|]. by eapply list_elem_of_lookup_2.
Qed.

Lemma drawSingleChromosomeStack_alike overlaps params withBorders
    (w w' : World) stackIndex stack :
  Forall2 (drawn_alike params) (heap w) (heap w') →
  drawSingleChromosomeStack overlaps params withBorders w' stackIndex stack
  = drawSingleChromosomeStack overlaps params withBorders w stackIndex stack.
Proof.
  intros Halike. unfold drawSingleChromosomeStack. f_equal.
  apply mapM_ext. intros [colIndex a].
  destruct (heap w !! a) as [c|] eqn:Hc.
  - destruct (Forall2_lookup_l _ _ _ _ _ Halike Hc) as (c' & -> & Hcc).
    simpl. by apply drawChromosome_alike.
  - apply lookup_ge_None in Hc. rewrite (Forall2_length _ _ _ Halike) in Hc.
    apply lookup_ge_None in Hc. by rewrite Hc.
Qed.

(** X17. A dataset beyond the labels of [params.labels] is put in a raster
    under its file name and is never drawn. When these file names are not
    labels themselves, the plot has the elements of the plot without these
    datasets; only the number of valid datasets, which sets the height of
    an entry, counts them. *)
Theorem drawGenomePlot_unlabelled overlaps dataScale params withBorders
    chromosomes chromosomeStacks bedFiles w w' valid :
  loadBedFiles dataScale params bedFiles 0 chromosomes w = Some (w', valid) →
  (∀ j bedFile, bedFiles !! j = Some bedFile → loaded bedFile →
                length (labels params) ≤ j →
                dataset_label params j ∉ labels params) →
  drawGenomePlot overlaps dataScale params withBorders
                 chromosomes chromosomeStacks bedFiles w
  = drawGenomePlot overlaps dataScale params withBorders
      chromosomes chromosomeStacks (take (length (labels params)) bedFiles) w.
Proof.
  intros Hload Hrest. set (n := length (labels params)).
  pose proof (loadBedFiles_app dataScale params (take n bedFiles)
                (drop n bedFiles) 0 chromosomes w) as Happ.
  rewrite take_drop, Hload in Happ. simpl in Happ.
  destruct (loadBedFiles _ _ (take n bedFiles) 0 chromosomes w)
    as [[w1 v1]|] eqn:Htake; [|done].
  cbn [mbind option_bind] in Happ.
  destruct (loadBedFiles _ _ (drop n bedFiles) _ _ w1)
    as [[w2 v2]|] eqn:Hdrop; [|done].
  injection Happ as -> ->.
  unfold drawGenomePlot. rewrite Hload, Htake. simpl. f_equal.
  apply mapM_ext. intros [stackIndex stack].
  apply drawSingleChromosomeStack_alike.
  eapply (loadBedFiles_preserved (drawn_alike params)
            (λ label, label ∉ labels params)); [..|exact Hdrop].
  - apply drawn_alike_refl.
  - apply drawn_alike_trans.
  - intros label c. apply drawn_alike_init.
  - intros label c i c'. apply drawn_alike_step.
  - intros j bedFile Hj Hloaded. rewrite lookup_drop in Hj.
    assert (n + j < length bedFiles) by by eapply lookup_lt_Some.
    rewrite length_take. replace (n `min` length bedFiles + j) with (n + j) by lia.
    apply (Hrest _ bedFile); [done|done|lia].
Qed.

Lemma drawGenomePlot_unlabelled_witness :
  drawGenomePlot (λ _ _, false) 100
    (mkParams ["a"] ["a.bed"; "b.bed"] 10 2 5 None 8 4) false
    [0; 1] [[0]; [1]]
    [Some ("chr1 0 150" +:+ LF); Some ("chr2 100 120" +:+ LF)] world_ab
  = drawGenomePlot (λ _ _, false) 100
      (mkParams ["a"] ["a.bed"; "b.bed"] 10 2 5 None 8 4) false
      [0; 1] [[0]; [1]] [Some ("chr1 0 150" +:+ LF)] world_ab.
Proof.
  eapply (drawGenomePlot_unlabelled (λ _ _, false) 100
            (mkParams ["a"] ["a.bed"; "b.bed"] 10 2 5 None 8 4) false
            [0; 1] [[0]; [1]]
            [Some ("chr1 0 150" +:+ LF); Some ("chr2 100 120" +:+ LF)]
            world_ab).
  - vm_compute. reflexivity.
  - intros [|[|j]] bedFile Hj _ Hlen; simpl in Hlen; [lia| |done].
    by intros ?%list_elem_of_singleton.
Defined.

(** ** The labels of the command line *)

Lemma rev_app_append (s1 s2 t : string) :
  String.rev_app s1 s2 +:+ t = String.rev_app s1 (s2 +:+ t).
Proof.
  revert s2. induction s1 as [|a s1 IH]; intros s2; [done|].
  simpl. by rewrite IH.
Qed.

Lemma split_go_cons sep cur s :
  ∃ piece pieces, JS.split_go sep cur s = piece :: pieces.
Proof.
  revert cur. induction s as [|c s IH]; intros cur; simpl; [by eexists _, _|].
  destruct (Ascii.eqb c sep); [by eexists _, _|apply IH].
Qed.

Lemma split_go_concat sep cur s :
  String.concat (String sep "") (JS.split_go sep cur s)
  = String.rev_app cur s.
Proof.
  revert cur. induction s as [|c s IH]; intros cur; simpl; [done|].
  destruct (Ascii.eqb c sep) eqn:Hc.
  - apply Ascii.eqb_eq in Hc as ->.
    destruct (split_go_cons sep "" s) as (piece & pieces & Hsplit).
    assert (String.concat (String sep "")
              (String.rev cur :: JS.split_go sep "" s)
            = String.rev cur +:+ String sep "" +:+
              String.concat (String sep "") (JS.split_go sep "" s)) as ->
      by by rewrite Hsplit.
    rewrite IH. unfold String.rev. by rewrite rev_app_append.
  - apply IH.
Qed.

Lemma split_go_length sep cur s :
  length (JS.split_go sep cur s) = S (occurrences sep s).
Proof.
  revert cur. induction s as [|c s IH]; intros cur; simpl; [done|].
  destruct (Ascii.eqb c sep); simpl; by rewrite IH.
Qed.

(** X18. The reader of [--labels] loses nothing of the trimmed value: the
    labels joined by commas are the trimmed value, and there is one label
    more than there are commas, so that the value without a character
    gives one label, the empty one. Without the option the labels are the
    file names. *)
Theorem list_value_round_trip (value : string) (args : list string) :
  String.concat "," (list_value value) = JS.trim value ∧
  length (list_value value) = S (occurrences "," (JS.trim value)) ∧
  program_labels (Some value) args = list_value value ∧
  program_labels None args = args ∧
  (JS.trim value = "" → list_value value = [""]).
Proof.
  unfold list_value, JS.split. split; [apply split_go_concat|].
  split; [apply split_go_length|]. split; [done|]. split; [done|].
  by intros ->.
Qed.

(** X19. An empty label stops the plot. A dataset is never put under the
    empty label, for which [params.args] stands in; so when no file name is
    empty, a chromosome of a stack has no raster for the empty label of
    [params.labels], and [drawData] raises on it. *)
Theorem drawGenomePlot_empty_label overlaps dataScale params withBorders
    chromosomes chromosomeStacks bedFiles w w' valid stack a c :
  loadBedFiles dataScale params bedFiles 0 chromosomes w = Some (w', valid) →
  "" ∈ labels params → "" ∉ args params →
  stack ∈ chromosomeStacks → a ∈ stack →
  heap w !! a = Some c → data c !! "" = None →
  drawGenomePlot overlaps dataScale params withBorders
                 chromosomes chromosomeStacks bedFiles w = None.
Proof.
  intros Hload Hlabel Hargs [s Hs]%list_elem_of_lookup_1 Hpos Hc Hnone.
  unfold drawGenomePlot. rewrite Hload. simpl.
  apply (loadBedFiles_same_label _ _ "") in Hload.
  2:{ intros j bedFile _ _. simpl. unfold dataset_label.
      assert (default "undefined" (args params !! j) ≠ "") as Harg.
      { destruct (args params !! j) as [arg|] eqn:Hj; [|done]. simpl.
        intros ->. apply Hargs. by eapply list_elem_of_lookup_2. }
      destruct (labels params !! j) as [[|a0 l]|]; done. }
  destruct (Forall2_lookup_l _ _ _ _ _ Hload Hc) as (c' & Hc' & Hsame).
  rewrite (mapM_None_2 _ (imap pair chromosomeStacks)); [done|].
  apply Exists_exists. exists (s, stack). split.
  - by apply (elem_of_lookup_imap_2 pair).
  - eapply drawSingleChromosomeStack_None; [done..|].
    unfold same_label in Hsame. congruence.
Qed.

Lemma drawGenomePlot_empty_label_witness :
  drawGenomePlot (λ _ _, false) 100
    (mkParams (program_labels (Some "a,") ["a.bed"; "b.bed"])
              ["a.bed"; "b.bed"] 10 2 5 None 8 4) false
    [0; 1] [[0]; [1]]
    [Some ("chr1 0 150" +:+ LF); Some ("chr2 100 120" +:+ LF)] world_ab
  = None.
Proof.
  eapply (drawGenomePlot_empty_label (λ _ _, false) 100 _ false
            [0; 1] [[0]; [1]]
            [Some ("chr1 0 150" +:+ LF); Some ("chr2 100 120" +:+ LF)]
            world_ab _ _ [0] 0 chr_a).
  - vm_compute. reflexivity.
  - right. left.
  - simpl. intros [Heq|Hin]%elem_of_cons; [done|].
    by apply list_elem_of_singleton in Hin.
  - left.
  - left.
  - reflexivity.
  - reflexivity.
Defined.

(** ** What the datasets never change *)

(** X20. Putting the datasets in the rasters changes no annotation: after
    the loop of [drawGenomePlot] the objects of the process are as many,
    at the same places, each with its name, length, bands and centromere,
    and the index is as it was. The valid datasets are counted whatever
    their labels: they are those that were read and are not empty. *)
Theorem loadBedFiles_annotation dataScale params bedFiles index0
    chromosomes w w' valid :
  loadBedFiles dataScale params bedFiles index0 chromosomes w
  = Some (w', valid) →
  Forall2 same_annotation (heap w) (heap w') ∧
  index w' = index w ∧
  valid = length (filter loaded bedFiles).
Proof.
  intros Hload.
  enough (Hall : (Forall2 same_annotation (heap w) (heap w') ∧
                  index w' = index w) ∧
                 valid = length (filter loaded bedFiles)) by tauto.
  split.
  - revert Hload.
    apply (loadBedFiles_preserved same_annotation (λ _, True)); [..|done].
    + by intros c.
    + unfold same_annotation. intros c1 c2 c3 H12 H23. intuition congruence.
    + intros label c _. unfold initData.
      destruct (data c !! label); [done|apply with_data_same_annotation].
    + intros label c i c' _. unfold addData_step.
      destruct (data c !! label); [|done]. intros [= <-].
      apply with_data_same_annotation.
  - revert index0 w w' valid Hload.
    induction bedFiles as [|bedFile rest IH]; intros index0 w w' valid;
      cbn [loadBedFiles]; [by intros [= _ <-]|].
    destruct (addBedData _ _ _ _ _) as [[w1 r]|] eqn:Hadd; [|done].
    cbn [mbind option_bind].
    destruct (loadBedFiles _ _ rest _ _ _) as [[w2 v]|] eqn:Hrest; [|done].
    intros [= _ <-]. apply IH in Hrest as ->.
    rewrite filter_cons. unfold addBedData in Hadd.
    destruct bedFile as [[|a0 content]|].
    + injection Hadd as _ <-. rewrite decide_False; [done|]. by intros [_ []].
    + destruct (foldl _ _ _); [|done]. injection Hadd as _ <-.
      by rewrite decide_True.
    + injection Hadd as _ <-. rewrite decide_False; [done|]. by intros [[] _].
Qed.

Lemma loadBedFiles_annotation_witness :
  ∃ w',
    loadBedFiles 100 (mkParams ["a"; "b"] ["a.bed"; "b.bed"] 10 2 5 None 8 4)
                 [Some ("chr1 0 150" +:+ LF); None] 0 [0; 1] world_ab
    = Some (w', 1) ∧
    Forall2 same_annotation [chr_a; chr_b] (heap w').
Proof.
  eexists. split; [vm_compute; reflexivity|].
  eapply (loadBedFiles_annotation 100
            (mkParams ["a"; "b"] ["a.bed"; "b.bed"] 10 2 5 None 8 4)
            [Some ("chr1 0 150" +:+ LF); None] 0 [0; 1] world_ab).
  vm_compute. reflexivity.
Defined.
